(** * agfs: the vector-document backend (vectorfs) and the local backend's
    write contract, embedded in Rocq.

    The development follows the Go sources:
    - [agfs-server/pkg/plugins/vectorfs/vectorfs.go] (plugin, worker pool,
      filesystem view),
    - [agfs-server/pkg/plugins/vectorfs/indexer.go] (prepare / index phases),
    - the localfs test-suite (the local backend's observable write contract).

    Conventions.  Go strings are byte strings: they are [string] here;
    [[]byte] values are [list byte]; [int64] values are [Z].  Functions that
    call the object store, the database or the embedding service run in a
    state-and-error monad over [World], which holds the stores, the trace of
    the calls made, and a schedule of the failures the services will report.
    The goroutines of the plugin (the foreground caller, the pool workers,
    the detached senders, the caller of [Shutdown]) are a transition system
    over [Plugin]; the choice a [select] makes among its ready cases is the
    choice of the next step.  Logging is left out. *)

From Stdlib Require Import ZArith List Bool Ascii String Strings.Byte Lia.
From Stdlib Require Import PrimFloat.
From stdpp Require Import base option gmap strings list.
Import ListNotations.

Local Open Scope Z_scope.
#[local] Set Default Proof Using "Type".

(** ** Go's [strings] and [path/filepath] helpers used by the plugin *)

Module GoStrings.

Definition slash : ascii := "/"%char.
Definition dot : string := ".".
Definition dotdot : string := "..".

(** [strings.HasPrefix(s, p)] *)
Definition HasPrefix (s p : string) : bool := String.prefix p s.

Fixpoint drop_chars (n : nat) (s : string) : string :=
  match n, s with
  | O, _ => s
  | S n', String _ s' => drop_chars n' s'
  | S _, EmptyString => EmptyString
  end.

(** [strings.TrimPrefix(s, p)]: [s] without the leading [p], or [s] itself
    when [p] is not a prefix. *)
Definition TrimPrefix (s p : string) : string :=
  if HasPrefix s p then drop_chars (String.length p) s else s.

(** [strings.Split(s, "/")]: the slash-separated fields of [s]; never
    empty (the empty string has the single field [""]). *)
Fixpoint split_slash (s : string) : list string :=
  match s with
  | EmptyString => [EmptyString]
  | String c s' =>
      if Ascii.eqb c slash then EmptyString :: split_slash s'
      else match split_slash s' with
           | f :: fs => String c f :: fs
           | [] => [String c EmptyString]
           end
  end.

(** [strings.SplitN(s, "/", 2)]: cut at the first slash only. *)
Fixpoint SplitN2 (s : string) : list string :=
  match s with
  | EmptyString => [EmptyString]
  | String c s' =>
      if Ascii.eqb c slash then [EmptyString; s']
      else match SplitN2 s' with
           | f :: fs => String c f :: fs
           | [] => [String c EmptyString]
           end
  end.

(** [strings.Join(fields, "/")] *)
Fixpoint join_slash (fs : list string) : string :=
  match fs with
  | [] => EmptyString
  | [f] => f
  | f :: fs' => (f ++ String slash (join_slash fs'))%string
  end.

(** One element of the path scanned by [filepath.Clean].  [out] is the
    output buffer as a stack of elements (last written first).  On a
    non-rooted path the stack may start with [..] elements that cannot be
    backed over. *)
Definition clean_step (rooted : bool) (out : list string) (e : string)
  : list string :=
  if String.eqb e EmptyString then out          (* empty path element *)
  else if String.eqb e dot then out             (* . element *)
  else if String.eqb e dotdot then              (* .. element *)
    match out with
    | top :: below =>
        if String.eqb top dotdot then e :: out  (* leading ../.. prefix *)
        else below                              (* can backtrack *)
    | [] => if rooted then [] else [e]
    end
  else e :: out.                                (* real path element *)

(** [filepath.Clean] on a slash-separated (Unix) path: multiple
    separators collapse, [.] elements vanish, inner [..] elements cancel
    the element before them, [..] at the start of a rooted path vanish,
    and the empty result is [.]. *)
Definition Clean (path : string) : string :=
  match path with
  | EmptyString => dot
  | String c _ =>
      let rooted := Ascii.eqb c slash in
      let out := fold_left (clean_step rooted) (split_slash path) [] in
      let body := join_slash (rev out) in
      if rooted then String slash body
      else if String.eqb body EmptyString then dot else body
  end.

(** Well-formed path elements: a name is a non-empty string without a
    slash, other than [.] and [..]; a relative path is clean when it is a
    slash-separated sequence of names. *)
Fixpoint no_slash (s : string) : bool :=
  match s with
  | EmptyString => true
  | String c s' => negb (Ascii.eqb c slash) && no_slash s'
  end.

Definition is_name (e : string) : bool :=
  negb (String.eqb e EmptyString) && negb (String.eqb e dot)
  && negb (String.eqb e dotdot) && no_slash e.

Definition clean_rel (rel : string) : bool :=
  forallb is_name (split_slash rel).

End GoStrings.

Import GoStrings.

(** ** [crypto/sha256] and [encoding/hex]

    [Write] content-addresses a document by [hex.EncodeToString] of
    [sha256.Sum256(data)].  Words are 32-bit, kept in [Z] with the wrap-around
    written out. *)

Module Sha256.

Definition mask32 : Z := 0xFFFFFFFF.
Definition w32 (x : Z) : Z := Z.land x mask32.
Definition add32 (x y : Z) : Z := w32 (x + y).
Definition rotr (n x : Z) : Z :=
  Z.lor (Z.shiftr x n) (w32 (Z.shiftl x (32 - n))).
Definition shr (n x : Z) : Z := Z.shiftr x n.
Definition not32 (x : Z) : Z := Z.lxor x mask32.

Definition Ch (x y z : Z) : Z := Z.lxor (Z.land x y) (Z.land (not32 x) z).
Definition Maj (x y z : Z) : Z :=
  Z.lxor (Z.lxor (Z.land x y) (Z.land x z)) (Z.land y z).
Definition bsig0 (x : Z) : Z := Z.lxor (Z.lxor (rotr 2 x) (rotr 13 x)) (rotr 22 x).
Definition bsig1 (x : Z) : Z := Z.lxor (Z.lxor (rotr 6 x) (rotr 11 x)) (rotr 25 x).
Definition ssig0 (x : Z) : Z := Z.lxor (Z.lxor (rotr 7 x) (rotr 18 x)) (shr 3 x).
Definition ssig1 (x : Z) : Z := Z.lxor (Z.lxor (rotr 17 x) (rotr 19 x)) (shr 10 x).

(** The round constants are the first 32 bits of the fractional parts of
    the cube roots of the first 64 primes; the initial chaining values are
    the same for the square roots of the first 8. *)
Definition primes : list Z :=
  [ 2; 3; 5; 7; 11; 13; 17; 19; 23; 29; 31; 37; 41; 43; 47; 53; 59; 61; 67;
    71; 73; 79; 83; 89; 97; 101; 103; 107; 109; 113; 127; 131; 137; 139; 149;
    151; 157; 163; 167; 173; 179; 181; 191; 193; 197; 199; 211; 223; 227;
    229; 233; 239; 241; 251; 257; 263; 269; 271; 277; 281; 283; 293; 307;
    311 ].

(** The integer cube root, by bisection of [lo, hi). *)
Fixpoint cbrt_between (fuel : nat) (lo hi n : Z) : Z :=
  match fuel with
  | O => lo
  | S fuel' =>
      if hi - lo <=? 1 then lo
      else
        let mid := (lo + hi) / 2 in
        if mid * mid * mid <=? n then cbrt_between fuel' mid hi n
        else cbrt_between fuel' lo mid n
  end.

Definition frac_cbrt32 (p : Z) : Z :=
  w32 (cbrt_between 64 0 (2 ^ 36) (p * 2 ^ 96)).

Definition frac_sqrt32 (p : Z) : Z := w32 (Z.sqrt (p * 2 ^ 64)).

Definition K : list Z := Eval vm_compute in map frac_cbrt32 primes.

(** The eight working registers / chaining values. *)
Record regs : Type := Regs {
  ra : Z; rb : Z; rc : Z; rd : Z; re : Z; rf : Z; rg : Z; rh : Z
}.

Definition init : regs :=
  Eval vm_compute in
    let h i := frac_sqrt32 (nth i primes 0) in
    Regs (h 0%nat) (h 1%nat) (h 2%nat) (h 3%nat)
         (h 4%nat) (h 5%nat) (h 6%nat) (h 7%nat).

(** Message padding: a [0x80] byte, zeros up to 56 mod 64, then the bit
    length as a 64-bit big-endian integer. *)
Definition be_bytes (n : nat) (x : Z) : list Z :=
  map (fun i => Z.land (Z.shiftr x (8 * Z.of_nat i)) 0xFF) (rev (seq 0 n)).

Definition pad (msg : list Z) : list Z :=
  let len := Z.of_nat (length msg) in
  let zeros := Z.to_nat ((55 - len) mod 64) in
  msg ++ [0x80] ++ repeat 0 zeros ++ be_bytes 8 ((8 * len) mod 2 ^ 64).

(** Big-endian 32-bit words of a byte sequence. *)
Fixpoint words (bs : list Z) : list Z :=
  match bs with
  | b0 :: b1 :: b2 :: b3 :: rest =>
      Z.lor (Z.shiftl b0 24)
        (Z.lor (Z.shiftl b1 16) (Z.lor (Z.shiftl b2 8) b3)) :: words rest
  | _ => []
  end.

(** The message schedule: [win] holds the sixteen words before the next. *)
Fixpoint schedule (n : nat) (win : list Z) : list Z :=
  match n with
  | O => []
  | S n' =>
      let w := add32 (add32 (ssig1 (nth 14 win 0)) (nth 9 win 0))
                     (add32 (ssig0 (nth 1 win 0)) (nth 0 win 0)) in
      w :: schedule n' (tl win ++ [w])
  end.

Definition round (s : regs) (kw : Z * Z) : regs :=
  let t1 := add32 (add32 (add32 (rh s) (bsig1 (re s)))
                         (add32 (Ch (re s) (rf s) (rg s)) (fst kw))) (snd kw) in
  let t2 := add32 (bsig0 (ra s)) (Maj (ra s) (rb s) (rc s)) in
  Regs (add32 t1 t2) (ra s) (rb s) (rc s) (add32 (rd s) t1) (re s) (rf s) (rg s).

Definition compress (h : regs) (block : list Z) : regs :=
  let w16 := words block in
  let w := w16 ++ schedule 48 w16 in
  let s := fold_left round (combine K w) h in
  Regs (add32 (ra h) (ra s)) (add32 (rb h) (rb s))
       (add32 (rc h) (rc s)) (add32 (rd h) (rd s))
       (add32 (re h) (re s)) (add32 (rf h) (rf s))
       (add32 (rg h) (rg s)) (add32 (rh h) (rh s)).

Fixpoint blocks (fuel : nat) (bs : list Z) : list (list Z) :=
  match fuel, bs with
  | S fuel', _ :: _ => firstn 64 bs :: blocks fuel' (skipn 64 bs)
  | _, _ => []
  end.

Definition byte_of_Z (z : Z) : byte :=
  match Byte.of_N (Z.to_N (Z.land z 0xFF)) with
  | Some b => b
  | None => x00
  end.

Definition Z_of_byte (b : byte) : Z := Z.of_N (Byte.to_N b).

Definition word_bytes (w : Z) : list byte :=
  [ byte_of_Z (Z.shiftr w 24); byte_of_Z (Z.shiftr w 16);
    byte_of_Z (Z.shiftr w 8); byte_of_Z w ].

(** [sha256.Sum256]: the 32-byte digest. *)
Definition Sum256 (data : list byte) : list byte :=
  let padded := pad (map Z_of_byte data) in
  let h := fold_left compress (blocks (length padded) padded) init in
  word_bytes (ra h) ++ word_bytes (rb h) ++ word_bytes (rc h) ++
  word_bytes (rd h) ++ word_bytes (re h) ++ word_bytes (rf h) ++
  word_bytes (rg h) ++ word_bytes (rh h).

End Sha256.

Module Hex.

Definition hextable : string := "0123456789abcdef".

Definition hexdigit (n : N) : ascii :=
  match String.get (N.to_nat n) hextable with
  | Some c => c
  | None => "0"%char
  end.

(** [hex.EncodeToString]: two table characters per byte, high nibble
    first. *)
Fixpoint EncodeToString (src : list byte) : string :=
  match src with
  | [] => EmptyString
  | v :: rest =>
      String (hexdigit (N.shiftr (Byte.to_N v) 4))
        (String (hexdigit (N.land (Byte.to_N v) 0x0f)) (EncodeToString rest))
  end.

Definition is_lower_hex (c : ascii) : bool :=
  existsb (Ascii.eqb c) (list_ascii_of_string hextable).

End Hex.

(** ** The vector-document backend *)

Module VectorFS.

Definition PluginName : string := "vectorfs".

(** *** Errors and results *)

(** Go [error] values: [fmt.Errorf] with its format string and arguments,
    [%w] wrapping, the [filesystem.ErrNotFound] sentinel, and failures
    reported by the external services. *)
Inductive error : Type :=
| Errorf (format : string) (args : list string)
| Wrapf (format : string) (cause : error)
| ErrNotFound
| ErrService (call : string).

Inductive result (A : Type) : Type :=
| Ok (a : A)
| Err (e : error).
Arguments Ok {A} a.
Arguments Err {A} e.

Definition is_ok {A} (r : result A) : bool :=
  match r with Ok _ => true | Err _ => false end.

(** *** Records of the data model *)

Definition Embedding : Type := list float.

Record FileMetadata : Type := {
  FileDigest : string;
  FileName : string;
  S3Key : string;
  FileSize : Z;
  CreatedAt : nat;
  UpdatedAt : nat
}.

Record Chunk : Type := { Index : Z; Text : string }.

Record ChunkerConfig : Type := { ChunkSize : Z; ChunkOverlap : Z }.

Record VectorSearchResult : Type := {
  vsFileName : string;
  vsChunkIndex : Z;
  vsChunkText : string;
  vsDistance : float
}.

Record CustomGrepResult : Type := {
  File : string;
  Line : Z;
  Content : string;
  Metadata : gmap string float
}.

Record MetaData : Type := { metaName : string; metaType : string }.

Record FileInfo : Type := {
  Name : string;
  Size : Z;
  Mode : Z;
  ModTime : nat;
  IsDir : bool;
  Meta : MetaData
}.

Record indexTask : Type := {
  namespace : string;
  digest : string;
  fileName : string;
  data : string
}.

(** [filesystem.WriteFlag]: a bit set. *)
Definition WriteFlag : Type := Z.
Definition WriteFlagNone : WriteFlag := 0.
Definition WriteFlagAppend : WriteFlag := 1.
Definition WriteFlagCreate : WriteFlag := 2.
Definition WriteFlagExclusive : WriteFlag := 4.
Definition WriteFlagTruncate : WriteFlag := 8.
Definition has_flag (flags f : WriteFlag) : bool :=
  negb (Z.land flags f =? 0).

(** *** The external services

    The object store, the database and the embedding service live outside
    the process.  Their state, the calls made to them and the failures
    they report are kept in [World]. *)

Record DB : Type := {
  tables : gset string;
  files : gmap (string * string) FileMetadata;
  chunks : gmap (string * string * Z) (string * Embedding)
}.

Inductive Event : Type :=
| S3Upload (key : string) (body : list byte)
| S3Download (key : string)
| DbFileExists (ns dg : string)
| DbInsertFileMetadata (ns : string) (m : FileMetadata)
| DbInsertChunk (ns dg : string) (idx : Z) (text : string)
| DbGetFileMetadataByName (ns name : string)
| DbNamespaceExists (ns : string)
| DbCreateNamespace (ns : string) (dim : Z)
| DbDeleteNamespace (ns : string)
| DbVectorSearch (ns : string) (q : Embedding) (k : Z)
| DbClose
| EmbGenerate (text : string)
| EmbGenerateBatch (texts : list string).

Record World : Type := {
  bucket : gmap string (list byte);
  db : DB;
  clock : nat;
  faults : list bool;
  trace : list Event
}.

Definition set_bucket (b : gmap string (list byte)) (w : World) : World :=
  {| bucket := b; db := db w; clock := clock w; faults := faults w;
     trace := trace w |}.
Definition set_db (d : DB) (w : World) : World :=
  {| bucket := bucket w; db := d; clock := clock w; faults := faults w;
     trace := trace w |}.
Definition set_clock (c : nat) (w : World) : World :=
  {| bucket := bucket w; db := db w; clock := c; faults := faults w;
     trace := trace w |}.
Definition set_faults (f : list bool) (w : World) : World :=
  {| bucket := bucket w; db := db w; clock := clock w; faults := f;
     trace := trace w |}.
Definition log_event (e : Event) (w : World) : World :=
  {| bucket := bucket w; db := db w; clock := clock w; faults := faults w;
     trace := trace w ++ [e] |}.

(** *** A state-and-error monad over [World] *)

Definition M (A : Type) : Type := World -> result A * World.

Definition ret {A} (a : A) : M A := fun w => (Ok a, w).
Definition fail {A} (e : error) : M A := fun w => (Err e, w).
Definition bind {A B} (m : M A) (k : A -> M B) : M B :=
  fun w => match m w with
           | (Ok a, w') => k a w'
           | (Err e, w') => (Err e, w')
           end.
(** [if err != nil { return ..., fmt.Errorf("...: %w", err) }] *)
Definition wrap {A} (format : string) (m : M A) : M A :=
  fun w => match m w with
           | (Ok a, w') => (Ok a, w')
           | (Err e, w') => (Err (Wrapf format e), w')
           end.

Notation "x <- m ;; k" := (bind m (fun x => k))
  (at level 100, m at next level, right associativity).
Notation "m ;;; k" := (bind m (fun _ => k))
  (at level 100, right associativity).

(** One call to an external service: the call is recorded, then it either
    fails (the next entry of the fault schedule is [true]) or takes
    effect. *)
Definition next_fault (w : World) : bool * World :=
  match faults w with
  | f :: rest => (f, set_faults rest w)
  | [] => (false, w)
  end.

Definition service {A} (name : string) (ev : Event) (body : M A) : M A :=
  fun w =>
    let '(failed, w1) := next_fault (log_event ev w) in
    if failed then (Err (ErrService name), w1) else body w1.

(** [time.Now()] *)
Definition now : M nat :=
  fun w => (Ok (clock w), set_clock (S (clock w)) w).

(** Go [int] arithmetic: 64-bit two's complement. *)
Definition wrap64 (x : Z) : Z := (x + 2 ^ 63) mod 2 ^ 64 - 2 ^ 63.
Definition int_add (x y : Z) : Z := wrap64 (x + y).

(** What the deployment fixes: configuration values, the README text, and
    the answers of the services whose computation is opaque (the chunker,
    the embedding model, the database's nearest-neighbour ranking). *)
Record Services : Type := {
  readme : string;
  key_prefix : string;
  dimension : Z;
  chunker_config : ChunkerConfig;
  chunk_document : string -> ChunkerConfig -> list Chunk;
  embedding_of : string -> Embedding;
  nearest : DB -> string -> Embedding -> Z -> list VectorSearchResult
}.

(** Modelled from the spec: the object-store client ([S3Client]), which is
    not among the sources.  "Object store: per-namespace key prefix; file
    keys are <prefix>/<namespace>/<digest>"; an upload replaces the whole
    object. *)
Module S3Client.

Definition buildKey (svc : Services) (ns dg : string) : string :=
  key_prefix svc +:+ "/" +:+ ns +:+ "/" +:+ dg.

Definition UploadDocument (svc : Services) (ns dg : string)
    (body : list byte) : M unit :=
  service "s3.UploadDocument" (S3Upload (buildKey svc ns dg) body)
    (fun w => (Ok tt, set_bucket (<[buildKey svc ns dg := body]> (bucket w)) w)).

Definition DownloadDocument (svc : Services) (ns dg : string)
    : M (list byte) :=
  service "s3.DownloadDocument" (S3Download (buildKey svc ns dg))
    (fun w => match bucket w !! buildKey svc ns dg with
              | Some body => (Ok body, w)
              | None => (Err (ErrService "s3: no such key"), w)
              end).

End S3Client.

(** Modelled from the spec: the database client ([TiDBClient]), which is
    not among the sources.  A namespace "corresponds to a set of database
    tables"; the files table has the unique key (namespace, file-digest);
    the chunks table has the key (digest, chunk-index) per namespace;
    [has(namespace, digest)] tests the files table; removing a namespace
    drops its tables.  The client is built from a DSN only: it has no
    handle on the object store, so its operations act on [db] alone. *)
Module TiDBClient.

Definition on_db {A} (f : DB -> result A * DB) : M A :=
  fun w => let '(r, d) := f (db w) in (r, set_db d w).

Definition with_tables {A} (ns : string) (f : DB -> result A * DB)
    : M A :=
  on_db (fun d => if decide (ns ∈ tables d) then f d
                  else (Err (ErrService "tidb: no such table"), d)).

Definition FileExists (ns dg : string) : M bool :=
  service "tidb.FileExists" (DbFileExists ns dg)
    (with_tables ns (fun d =>
       (Ok (bool_decide (is_Some (files d !! (ns, dg)))), d))).

Definition InsertFileMetadata (ns : string) (m : FileMetadata) : M unit :=
  service "tidb.InsertFileMetadata" (DbInsertFileMetadata ns m)
    (with_tables ns (fun d =>
       (Ok tt, {| tables := tables d;
                  files := <[(ns, FileDigest m) := m]> (files d);
                  chunks := chunks d |}))).

Definition InsertChunk (ns dg : string) (idx : Z) (text : string)
    (e : Embedding) : M unit :=
  service "tidb.InsertChunk" (DbInsertChunk ns dg idx text)
    (with_tables ns (fun d =>
       (Ok tt, {| tables := tables d;
                  files := files d;
                  chunks := <[(ns, dg, idx) := (text, e)]> (chunks d) |}))).

Definition GetFileMetadataByName (ns name : string) : M FileMetadata :=
  service "tidb.GetFileMetadataByName" (DbGetFileMetadataByName ns name)
    (with_tables ns (fun d =>
       match List.find (fun kv => String.eqb (fst (fst kv)) ns
                                  && String.eqb (FileName (snd kv)) name)
                       (map_to_list (files d)) with
       | Some kv => (Ok (snd kv), d)
       | None => (Err (ErrService "tidb: file not found"), d)
       end)).

Definition NamespaceExists (ns : string) : M bool :=
  service "tidb.NamespaceExists" (DbNamespaceExists ns)
    (on_db (fun d => (Ok (bool_decide (ns ∈ tables d)), d))).

Definition CreateNamespace (ns : string) (dim : Z) : M unit :=
  service "tidb.CreateNamespace" (DbCreateNamespace ns dim)
    (on_db (fun d =>
       (Ok tt, {| tables := {[ns]} ∪ tables d;
                  files := files d;
                  chunks := chunks d |}))).

Definition DeleteNamespace (ns : string) : M unit :=
  service "tidb.DeleteNamespace" (DbDeleteNamespace ns)
    (on_db (fun d =>
       (Ok tt, {| tables := tables d ∖ {[ns]};
                  files := filter (fun kv => fst (fst kv) ≠ ns) (files d);
                  chunks := filter (fun kv => fst (fst (fst kv)) ≠ ns)
                                   (chunks d) |}))).

Definition VectorSearch (svc : Services) (ns : string) (q : Embedding)
    (k : Z) : M (list VectorSearchResult) :=
  service "tidb.VectorSearch" (DbVectorSearch ns q k)
    (with_tables ns (fun d => (Ok (nearest svc d ns q k), d))).

Definition Close : M unit :=
  service "tidb.Close" DbClose (ret tt).

End TiDBClient.

(** Modelled from the spec: the embedding client, which is not among the
    sources.  "Opaque external capability: embed(text) -> vector and
    embed-batch([text]) -> [vector]". *)
Module EmbeddingClient.

Definition GetDimension (svc : Services) : Z := dimension svc.

Definition GenerateEmbedding (svc : Services) (text : string)
    : M Embedding :=
  service "embedding.GenerateEmbedding" (EmbGenerate text)
    (ret (embedding_of svc text)).

Definition GenerateBatchEmbeddings (svc : Services) (texts : list string)
    : M (list Embedding) :=
  service "embedding.GenerateBatchEmbeddings" (EmbGenerateBatch texts)
    (ret (map (embedding_of svc) texts)).

End EmbeddingClient.

(** Modelled from the spec: [plugin.ApplyRangeRead], which is not among
    the sources.  "offset normalization (clamp into [0, length]), size
    normalization (-1 -> to-end; otherwise min(size, length - offset))". *)
Definition ApplyRangeRead (bytes : list byte) (offset size : Z)
    : list byte :=
  let len := Z.of_nat (length bytes) in
  let off := Z.max 0 (Z.min offset len) in
  let n := if size =? -1 then len - off else Z.min size (len - off) in
  firstn (Z.to_nat n) (skipn (Z.to_nat off) bytes).

(** *** indexer.go *)

Module Indexer.

(** [PrepareDocument]: the synchronous phase; answers [true] when the
    digest is already registered. *)
Definition PrepareDocument (svc : Services)
    (ns dg fname content : string) : M bool :=
  exists_ <- wrap "failed to check if file exists: %w"
               (TiDBClient.FileExists ns dg) ;;
  if (exists_ : bool) then ret true
  else
    let s3Key := S3Client.buildKey svc ns dg in
    wrap "failed to upload to S3: %w"
      (S3Client.UploadDocument svc ns dg (list_byte_of_string content)) ;;;
    t <- now ;;
    let metadata :=
      {| FileDigest := dg; FileName := fname; S3Key := s3Key;
         FileSize := Z.of_nat (String.length content);
         CreatedAt := t; UpdatedAt := t |} in
    wrap "failed to insert file metadata: %w"
      (TiDBClient.InsertFileMetadata ns metadata) ;;;
    ret false.

(** The loop [for i, chunk := range chunks] of [IndexChunks], reading
    [embeddings[i]]. *)
Fixpoint insert_chunks (ns dg : string) (cs : list Chunk)
    (es : list Embedding) : M unit :=
  match cs, es with
  | [], _ => ret tt
  | c :: cs', e :: es' =>
      wrap "failed to insert chunk %d: %w"
        (TiDBClient.InsertChunk ns dg (Index c) (Text c) e) ;;;
      insert_chunks ns dg cs' es'
  | _ :: _, [] => fail (Errorf "index out of range" [])
  end.

Definition IndexChunks (svc : Services) (ns dg fname content : string)
    : M unit :=
  let chunks := chunk_document svc content (chunker_config svc) in
  let chunkTexts := map Text chunks in
  embeddings <- wrap "failed to generate embeddings: %w"
                  (EmbeddingClient.GenerateBatchEmbeddings svc chunkTexts) ;;
  insert_chunks ns dg chunks embeddings.

Definition IndexDocument (svc : Services) (ns dg fname content : string)
    : M unit :=
  alreadyExists <- PrepareDocument svc ns dg fname content ;;
  if (alreadyExists : bool) then ret tt
  else IndexChunks svc ns dg fname content.

End Indexer.

(** *** vectorfs.go: the filesystem view *)

(** [parsePath]: ["/namespace/docs/file.txt"] to
    [("namespace", "docs/file.txt")]. *)
Definition parsePath (path : string) : result (string * string) :=
  let path := Clean path in
  let path := TrimPrefix path "/" in
  if String.eqb path "" || String.eqb path "." then Ok (EmptyString, EmptyString)
  else
    match SplitN2 path with
    | [] => Err (Errorf "invalid path" [])
    | [ns] => Ok (ns, EmptyString)
    | ns :: rel :: _ => Ok (ns, rel)
    end.

Definition Create (path : string) : M unit :=
  ret tt. (* Files are created on Write *)

Definition Mkdir (svc : Services) (path : string) (perm : Z) : M unit :=
  match parsePath path with
  | Err e => fail e
  | Ok (ns, relativePath) =>
      if negb (String.eqb relativePath "") then
        if HasPrefix relativePath "docs/" then ret tt
        else fail (Errorf
          "can only create namespace directories or docs/ subdirectories" [])
      else if String.eqb ns "" then fail (Errorf "invalid namespace name" [])
      else TiDBClient.CreateNamespace ns (EmbeddingClient.GetDimension svc)
  end.

Definition Remove (path : string) : M unit :=
  fail (Errorf
    "remove not supported in vectorfs (use rm -r to delete entire namespace)" []).

Definition RemoveAll (path : string) : M unit :=
  match parsePath path with
  | Err e => fail e
  | Ok (ns, relativePath) =>
      if negb (String.eqb relativePath "") then
        fail (Errorf
          "can only remove entire namespace, not subdirectories (path: %s)"
          [path])
      else if String.eqb ns "" then
        fail (Errorf "cannot remove root directory" [])
      else TiDBClient.DeleteNamespace ns
  end.

Definition Read (svc : Services) (path : string) (offset size : Z)
    : M (list byte) :=
  if String.eqb path "/README" then
    ret (ApplyRangeRead (list_byte_of_string (readme svc)) offset size)
  else
    match parsePath path with
    | Err e => fail e
    | Ok (ns, relativePath) =>
        if String.eqb relativePath ".indexing" then
          let status := "idle" in (* TODO: get actual indexing status *)
          ret (list_byte_of_string status)
        else if negb (HasPrefix relativePath "docs/") then
          fail (Errorf "can only read files from docs/ directory" [])
        else
          let fileName := TrimPrefix relativePath "docs/" in
          if String.eqb fileName "" || String.eqb fileName "/" then
            fail (Errorf "cannot read directory, specify a file" [])
          else
            meta <- wrap "failed to get file metadata: %w"
                      (TiDBClient.GetFileMetadataByName ns fileName) ;;
            bytes <- wrap "failed to download document from S3: %w"
                       (S3Client.DownloadDocument svc ns (FileDigest meta)) ;;
            ret (ApplyRangeRead bytes offset size)
    end.

Definition mkFileInfo (name : string) (size mode : Z) (isDir : bool)
    (type : string) : M FileInfo :=
  t <- now ;;
  ret {| Name := name; Size := size; Mode := mode; ModTime := t;
         IsDir := isDir;
         Meta := {| metaName := PluginName; metaType := type |} |}.

Definition Stat (svc : Services) (path : string) : M FileInfo :=
  if String.eqb path "/" then mkFileInfo "/" 0 493 (* 0755 *) true "root"
  else if String.eqb path "/README" then
    mkFileInfo "README" (Z.of_nat (String.length (readme svc))) 292 (* 0444 *) false "doc"
  else
    match parsePath path with
    | Err e => fail e
    | Ok (ns, relativePath) =>
        if String.eqb relativePath "" then
          fun w =>
            match TiDBClient.NamespaceExists ns w with
            | (Ok true, w') => mkFileInfo ns 0 493 (* 0755 *) true "namespace" w'
            | (_, w') => (Err ErrNotFound, w')
            end
        else if String.eqb relativePath "docs" then
          mkFileInfo "docs" 0 493 (* 0755 *) true "docs"
        else if String.eqb relativePath ".indexing" then
          mkFileInfo ".indexing" 4 292 (* 0444 *) false "status"
        else fail ErrNotFound
    end.

(** The [CustomGrepResult] built for one search result. *)
Definition render_hit (ns : string) (r : VectorSearchResult)
    : CustomGrepResult :=
  {| File := ns +:+ "/docs/" +:+ vsFileName r;
     Line := int_add (vsChunkIndex r) 1; (* 1-indexed line numbers *)
     Content := vsChunkText r;
     Metadata := <["score" := (1 - vsDistance r)%float]>
                   (<["distance" := vsDistance r]> ∅) |}.

(** [VectorSearch]: embed the query, ask the database for the ten nearest
    chunks, and render every hit. *)
Definition VectorSearch (svc : Services) (ns query : string)
    : M (list CustomGrepResult) :=
  queryEmbedding <- wrap "failed to generate query embedding: %w"
                      (EmbeddingClient.GenerateEmbedding svc query) ;;
  results <- wrap "failed to perform vector search: %w"
               (TiDBClient.VectorSearch svc ns queryEmbedding 10) ;;
  ret (map (render_hit ns) results).

Definition CustomGrep (svc : Services) (path query : string)
    : M (list CustomGrepResult) :=
  match parsePath path with
  | Err e => fail e
  | Ok (ns, relativePath) =>
      if negb (HasPrefix relativePath "docs")
         && negb (String.eqb relativePath "docs") then
        fail (Errorf "vector search only supported in docs/ directory" [])
      else VectorSearch svc ns query
  end.

(** *** vectorfs.go: the plugin, its queue and its goroutines *)

(** A buffered Go channel of [indexTask]. *)
Record Chan : Type := { buf : list indexTask; cap : nat; closed : bool }.

(** A pool goroutine running [indexWorker]: parked in its [select], inside
    [IndexDocument] with the task it received, or returned. *)
Inductive Worker : Type :=
| Idle
| Busy (t : indexTask)
| Exited.

(** Where a call of [Shutdown] stands. *)
Inductive Coordinator : Type :=
| NotCalled
| SignalClosed
| QueueClosed
| Returned.

(** [VectorFSPlugin] together with the goroutines it owns.  [indexQueue]
    and [shutdown] are [None] for Go's nil channel; [shutdown] carries
    whether the signal channel is closed.  [helpers] are the detached
    goroutines of [Write], each blocked in its send.  [enqueued] and
    [executed] are history: the tasks the queue has accepted and the tasks
    for which [IndexDocument] has returned. *)
Record Plugin : Type := {
  world : World;
  indexQueue : option Chan;
  shutdown : option bool;
  workers : list Worker;
  helpers : list indexTask;
  coordinator : Coordinator;
  panicked : bool;
  enqueued : list indexTask;
  executed : list indexTask
}.

Definition set_world (w : World) (p : Plugin) : Plugin :=
  {| world := w; indexQueue := indexQueue p; shutdown := shutdown p;
     workers := workers p; helpers := helpers p;
     coordinator := coordinator p; panicked := panicked p;
     enqueued := enqueued p; executed := executed p |}.
Definition set_indexQueue (q : option Chan) (p : Plugin) : Plugin :=
  {| world := world p; indexQueue := q; shutdown := shutdown p;
     workers := workers p; helpers := helpers p;
     coordinator := coordinator p; panicked := panicked p;
     enqueued := enqueued p; executed := executed p |}.
Definition set_shutdown (c : option bool) (p : Plugin) : Plugin :=
  {| world := world p; indexQueue := indexQueue p; shutdown := c;
     workers := workers p; helpers := helpers p;
     coordinator := coordinator p; panicked := panicked p;
     enqueued := enqueued p; executed := executed p |}.
Definition set_workers (ws : list Worker) (p : Plugin) : Plugin :=
  {| world := world p; indexQueue := indexQueue p; shutdown := shutdown p;
     workers := ws; helpers := helpers p;
     coordinator := coordinator p; panicked := panicked p;
     enqueued := enqueued p; executed := executed p |}.
Definition set_helpers (hs : list indexTask) (p : Plugin) : Plugin :=
  {| world := world p; indexQueue := indexQueue p; shutdown := shutdown p;
     workers := workers p; helpers := hs;
     coordinator := coordinator p; panicked := panicked p;
     enqueued := enqueued p; executed := executed p |}.
Definition set_coordinator (c : Coordinator) (p : Plugin) : Plugin :=
  {| world := world p; indexQueue := indexQueue p; shutdown := shutdown p;
     workers := workers p; helpers := helpers p;
     coordinator := c; panicked := panicked p;
     enqueued := enqueued p; executed := executed p |}.
Definition set_panicked (p : Plugin) : Plugin :=
  {| world := world p; indexQueue := indexQueue p; shutdown := shutdown p;
     workers := workers p; helpers := helpers p;
     coordinator := coordinator p; panicked := true;
     enqueued := enqueued p; executed := executed p |}.
Definition note_enqueued (t : indexTask) (p : Plugin) : Plugin :=
  {| world := world p; indexQueue := indexQueue p; shutdown := shutdown p;
     workers := workers p; helpers := helpers p;
     coordinator := coordinator p; panicked := panicked p;
     enqueued := enqueued p ++ [t]; executed := executed p |}.
Definition note_executed (t : indexTask) (p : Plugin) : Plugin :=
  {| world := world p; indexQueue := indexQueue p; shutdown := shutdown p;
     workers := workers p; helpers := helpers p;
     coordinator := coordinator p; panicked := panicked p;
     enqueued := enqueued p; executed := executed p ++ [t] |}.

(** [NewVectorFSPlugin] *)
Definition NewVectorFSPlugin (w : World) : Plugin :=
  {| world := w; indexQueue := None; shutdown := None; workers := [];
     helpers := []; coordinator := NotCalled; panicked := false;
     enqueued := []; executed := [] |}.

(** [Initialize], from "Initialize worker pool for async indexing" on:
    [make(chan indexTask, 100)], [make(chan struct{})], and [workerCount]
    goroutines. *)
Definition Initialize (workerCount : Z) (p : Plugin) : Plugin :=
  set_workers (repeat Idle (Z.to_nat workerCount))
    (set_shutdown (Some false)
       (set_indexQueue (Some {| buf := []; cap := 100; closed := false |}) p)).

(** The channel operation [ch <- t] when it can proceed without
    blocking. *)
Definition push (t : indexTask) (ch : Chan) : Chan :=
  {| buf := buf ch ++ [t]; cap := cap ch; closed := closed ch |}.
Definition has_room (ch : Chan) : bool := (length (buf ch) <? cap ch)%nat.
Definition close (ch : Chan) : Chan :=
  {| buf := buf ch; cap := cap ch; closed := true |}.

(** The task [Write] submits: the digest is the lowercase-hex SHA-256 of
    the bytes written. *)
Definition file_digest (bytes : list byte) : string :=
  let hash := Sha256.Sum256 bytes in
  Hex.EncodeToString hash.

Definition mkTask (ns name : string) (bytes : list byte) : indexTask :=
  {| namespace := ns; digest := file_digest bytes; fileName := name;
     data := string_of_list_byte bytes |}.

(** What a call does: it returns, or it panics. *)
Inductive outcome (A : Type) : Type :=
| Returns (r : result A)
| Panics.
Arguments Returns {A} r.
Arguments Panics {A}.

(** [Write].  The [select] with a [default] branch sends when the send can
    proceed, and otherwise starts a goroutine that performs the blocking
    send.  A send on a closed channel panics; a send on a nil channel
    never proceeds. *)
Definition Write (path : string) (bytes : list byte) (offset : Z)
    (flags : WriteFlag) (p : Plugin) : outcome Z * Plugin :=
  match parsePath path with
  | Err e => (Returns (Err e), p)
  | Ok (ns, relativePath) =>
      if negb (HasPrefix relativePath "docs/") then
        (Returns (Err (Errorf "can only write files to docs/ directory" [])), p)
      else
        let name := TrimPrefix relativePath "docs/" in
        let task := mkTask ns name bytes in
        let written := Returns (Ok (Z.of_nat (length bytes))) in
        match indexQueue p with
        | Some ch =>
            if closed ch then (Panics, set_panicked p)
            else if has_room ch then
              (written, note_enqueued task (set_indexQueue (Some (push task ch)) p))
            else (written, set_helpers (helpers p ++ [task]) p)
        | None => (written, set_helpers (helpers p ++ [task]) p)
        end
  end.

(** The zero value a receive on a closed, drained channel yields. *)
Definition zero_task : indexTask :=
  {| namespace := ""; digest := ""; fileName := ""; data := "" |}.

(** The atomic steps of the goroutines.  A task's pipeline
    ([IndexDocument]) is one step here; its service calls are taken one by
    one, and interleaved with those of other pipelines, in
    [VectorFSRest.advance] and [VectorFSRest.move]. *)
Inductive Action : Type :=
| CallWrite (path : string) (bytes : list byte) (offset : Z) (flags : WriteFlag)
| HelperSend (j : nat)
| WorkerShutdown (i : nat)
| WorkerReceive (i : nat)
| WorkerIndex (i : nat)
| ShutdownCloseSignal
| ShutdownCloseQueue
| ShutdownJoin.

Definition all_exited (ws : list Worker) : bool :=
  forallb (fun w => match w with Exited => true | _ => false end) ws.

(** [exec a p] is [None] when [a] cannot proceed in [p] (its goroutine is
    blocked, is elsewhere in its code, or the process has panicked).
    [Shutdown] is the three steps [ShutdownCloseSignal],
    [ShutdownCloseQueue], [ShutdownJoin]; on a plugin that was never
    initialized ([v.shutdown == nil], no clients) it returns at once. *)
Definition exec (svc : Services) (a : Action) (p : Plugin) : option Plugin :=
  if panicked p then None else
  match a with
  | CallWrite path bytes offset flags =>
      Some (snd (Write path bytes offset flags p))
  | HelperSend j =>
      match helpers p !! j, indexQueue p with
      | Some t, Some ch =>
          if closed ch then Some (set_panicked p)
          else if has_room ch then
            Some (note_enqueued t
                    (set_helpers (delete j (helpers p))
                       (set_indexQueue (Some (push t ch)) p)))
          else None
      | _, _ => None
      end
  | WorkerShutdown i =>              (* case <-v.shutdown: return *)
      match workers p !! i, shutdown p with
      | Some Idle, Some true => Some (set_workers (<[i := Exited]> (workers p)) p)
      | _, _ => None
      end
  | WorkerReceive i =>               (* case task := <-v.indexQueue *)
      match workers p !! i, indexQueue p with
      | Some Idle, Some ch =>
          match buf ch with
          | t :: rest =>
              Some (set_workers (<[i := Busy t]> (workers p))
                      (set_indexQueue
                         (Some {| buf := rest; cap := cap ch;
                                  closed := closed ch |}) p))
          | [] =>
              if closed ch then
                Some (set_workers (<[i := Busy zero_task]> (workers p)) p)
              else None
          end
      | _, _ => None
      end
  | WorkerIndex i =>                 (* v.indexer.IndexDocument(...) *)
      match workers p !! i with
      | Some (Busy t) =>
          let w' := snd (Indexer.IndexDocument svc (namespace t) (digest t)
                           (fileName t) (data t) (world p)) in
          Some (note_executed t
                  (set_workers (<[i := Idle]> (workers p)) (set_world w' p)))
      | _ => None
      end
  | ShutdownCloseSignal =>           (* close(v.shutdown) *)
      match coordinator p with
      | NotCalled =>
          match shutdown p with
          | Some false =>
              Some (set_coordinator SignalClosed (set_shutdown (Some true) p))
          | Some true => Some (set_panicked p)
          | None => Some (set_coordinator Returned p)
          end
      | _ => None
      end
  | ShutdownCloseQueue =>            (* close(v.indexQueue) *)
      match coordinator p with
      | SignalClosed =>
          match indexQueue p with
          | Some ch =>
              if closed ch then Some (set_panicked p)
              else Some (set_coordinator QueueClosed
                           (set_indexQueue (Some (close ch)) p))
          | None => Some (set_panicked p)
          end
      | _ => None
      end
  | ShutdownJoin =>                  (* v.workerWg.Wait() and what follows *)
      match coordinator p with
      | QueueClosed =>
          if all_exited (workers p) then
            Some (set_coordinator Returned
                    (set_world (snd (TiDBClient.Close (world p))) p))
          else None
      | _ => None
      end
  end.

Fixpoint run (svc : Services) (acts : list Action) (p : Plugin)
    : option Plugin :=
  match acts with
  | [] => Some p
  | a :: acts' =>
      match exec svc a p with
      | Some p' => run svc acts' p'
      | None => None
      end
  end.

(** Whether the two channels are closed, by the point [Shutdown] has
    reached. *)
Definition signal_is_closed (c : Coordinator) : bool :=
  match c with NotCalled => false | _ => true end.
Definition queue_is_closed (c : Coordinator) : bool :=
  match c with QueueClosed | Returned => true | _ => false end.

Definition busy_tasks (ws : list Worker) : list indexTask :=
  flat_map (fun w => match w with Busy t => [t] | _ => [] end) ws.

Definition queued (p : Plugin) : list indexTask :=
  match indexQueue p with Some ch => buf ch | None => [] end.

(** What holds of a plugin at every moment after [Initialize]: the queue
    exists and has capacity 100; the two channels are closed as far as
    [Shutdown] has got; nothing has panicked before [Shutdown] is called;
    once [Shutdown] has returned every worker has; and a task the queue has
    accepted is executed, held by a worker, or still in the buffer. *)
Definition pool_inv (p : Plugin) : Prop :=
  exists ch,
    indexQueue p = Some ch /\ cap ch = 100%nat
    /\ closed ch = queue_is_closed (coordinator p)
    /\ shutdown p = Some (signal_is_closed (coordinator p))
    /\ (coordinator p = NotCalled -> panicked p = false)
    /\ (coordinator p = Returned -> all_exited (workers p) = true)
    /\ (forall t, t ∈ enqueued p ->
          t ∈ executed p \/ t ∈ busy_tasks (workers p) \/ t ∈ buf ch).

End VectorFS.

(** ** The local backend's write

    Modelled from the spec: [LocalFS.Write].  The local backend's source
    (localfs.go) is not among the sources; its test-suite is.  The model
    follows the write semantics of the specification's LocalBackend section
    and the offset convention of its filesystem contract:
    - [Create] opens with create; [Exclusive] additionally fails if the file
      is present; [Truncate] sets the length to 0; [Exclusive] without
      [Create] is an error;
    - if no flag requests creation and the file does not exist: error, but
      for the compatibility clause: "when flags are None and offset is -1,
      auto-create";
    - an offset beyond the current length extends the file with zero bytes
      before writing; [Append] writes at the current length whatever the
      offset; offset [-1] means the beginning of the file under [Create] or
      [Truncate] and the current end otherwise (the specification fixes no
      other negative offset; the model treats them like [-1]);
    - the number of bytes written is [len(data)].
    The store holds regular files by path; directories and the containment
    check of the host directory are outside the model. *)

Module LocalFS.

Import VectorFS.

Definition zero_fill (cur : list byte) (pos : nat) : list byte :=
  cur ++ repeat x00 (pos - length cur).

(** The bytes of the file once [bytes] are written at [pos]. *)
Definition write_at (cur : list byte) (pos : nat) (bytes : list byte)
    : list byte :=
  let ext := zero_fill cur pos in
  firstn pos ext ++ bytes ++ skipn (pos + length bytes) ext.

Definition position (cur : list byte) (offset : Z) (flags : WriteFlag)
    : nat :=
  if has_flag flags WriteFlagAppend then length cur
  else if 0 <=? offset then Z.to_nat offset
  else if has_flag flags WriteFlagCreate || has_flag flags WriteFlagTruncate
       then O
       else length cur.

Definition Write (path : string) (bytes : list byte) (offset : Z)
    (flags : WriteFlag) (fs : gmap string (list byte))
    : result Z * gmap string (list byte) :=
  let store cur :=
    (Ok (Z.of_nat (length bytes)),
     <[path := write_at cur (position cur offset flags) bytes]> fs) in
  if has_flag flags WriteFlagExclusive && negb (has_flag flags WriteFlagCreate)
  then (Err (Errorf "invalid flags: exclusive without create" []), fs)
  else
    match fs !! path with
    | None =>
        if has_flag flags WriteFlagCreate
           || (flags =? WriteFlagNone) && (offset =? -1)
        then store []
        else (Err ErrNotFound, fs)
    | Some cur =>
        if has_flag flags WriteFlagExclusive then
          (Err (Errorf "file already exists: %s" [path]), fs)
        else if has_flag flags WriteFlagTruncate then store []
        else store cur
    end.

(** [Read(path, 0, -1)] *)
Definition ReadAll (path : string) (fs : gmap string (list byte))
    : result (list byte) :=
  match fs !! path with
  | Some cur => Ok cur
  | None => Err ErrNotFound
  end.

End LocalFS.

(** ** A concrete deployment, for running the model *)

Module Demo.

Import VectorFS.

(** One chunk per document; a constant embedding; the database answers a
    search with the chunks of the namespace in key order, at distance
    0.25. *)
Definition svc : Services :=
  {| readme := "VectorFS Plugin - Document Vector Search";
     key_prefix := "vectorfs";
     dimension := 1536;
     chunker_config := {| ChunkSize := 512; ChunkOverlap := 50 |};
     chunk_document := fun content _ => [ {| Index := 0; Text := content |} ];
     embedding_of := fun _ => [];
     nearest := fun d ns _ k =>
       firstn (Z.to_nat k)
         (omap (fun kv : string * string * Z * (string * Embedding) =>
                  let '(n, dg, idx, (text, _)) := kv in
                  if String.eqb n ns then
                    match files d !! (n, dg) with
                    | Some m => Some {| vsFileName := FileName m;
                                        vsChunkIndex := idx;
                                        vsChunkText := text;
                                        vsDistance := 0.25%float |}
                    | None => None
                    end
                  else None)
               (map_to_list (chunks d))) |}.

(** The services after [mkdir /ns]. *)
Definition empty_world : World :=
  {| bucket := ∅;
     db := {| tables := ∅; files := ∅; chunks := ∅ |};
     clock := O; faults := []; trace := [] |}.

Definition world_ns : World := snd (Mkdir svc "/ns" 493 empty_world).

(** A plugin initialized with the default four workers. *)
Definition plugin : Plugin := Initialize 4 (NewVectorFSPlugin world_ns).

Definition payload : list byte := list_byte_of_string "payload".

(** The plugin after a schedule of steps (the plugin itself when the
    schedule cannot run). *)
Definition after (acts : list Action) : Plugin :=
  match run svc acts plugin with
  | Some p => p
  | None => plugin
  end.

(** Scenario: the same bytes written as [a.txt] and then as [b.txt], both
    tasks indexed by worker 0. *)
Definition write_twice : list Action :=
  [ CallWrite "/ns/docs/a.txt" payload (-1) WriteFlagCreate;
    CallWrite "/ns/docs/b.txt" payload (-1) WriteFlagCreate;
    WorkerReceive 0; WorkerIndex 0; WorkerReceive 0; WorkerIndex 0 ].

(** Scenario: five writes while the four workers are busy with the first
    four; [Shutdown] is called; every worker finishes its task and then
    takes the shutdown case of its [select]. *)
Definition doc (name : string) : Action :=
  CallWrite ("/ns/docs/" +:+ name) (list_byte_of_string name) (-1)
    WriteFlagCreate.

Definition shutdown_with_backlog : list Action :=
  [ doc "1"; doc "2"; doc "3"; doc "4";
    WorkerReceive 0; WorkerReceive 1; WorkerReceive 2; WorkerReceive 3;
    doc "5";
    ShutdownCloseSignal; ShutdownCloseQueue;
    WorkerIndex 0; WorkerIndex 1; WorkerIndex 2; WorkerIndex 3;
    WorkerShutdown 0; WorkerShutdown 1; WorkerShutdown 2; WorkerShutdown 3;
    ShutdownJoin ].

(** Scenario: a hundred writes that no worker picks up. *)
Definition fill_queue : list Action := repeat (doc "x") 100.

Definition runs (acts : list Action) : bool :=
  match run svc acts plugin with Some _ => true | None => false end.

Definition indexed_world : World := world (after write_twice).

End Demo.

(** ** The rest of the plugin

    The remaining methods of vectorfs.go and indexer.go: directory listing,
    the buffering writer, document deletion, and configuration checking. *)

Module VectorFSRest.

Import VectorFS.

(** A call to a service that takes its turn in the fault schedule.  The
    trace of [World] follows the write, search and namespace paths; the
    listing and deletion calls below leave no entry in it. *)
Definition untraced {A} (name : string) (body : M A) : M A :=
  fun w =>
    let '(failed, w1) := next_fault w in
    if failed then (Err (ErrService name), w1) else body w1.

(** Modelled from the spec: the listing and deletion calls of the database
    client and the deletion call of the object-store client, which are not
    among the sources.  Listing answers the namespaces that have tables and
    the rows of a namespace's files table; deleting removes the rows of a
    digest, or the object under the key of (namespace, digest), and is not
    an error when there is nothing to remove. *)
Module Clients.

Definition ListNamespaces : M (list string) :=
  untraced "tidb.ListNamespaces"
    (TiDBClient.on_db (fun d => (Ok (elements (tables d)), d))).

Definition rows_of (ns : string) (d : DB) : list FileMetadata :=
  map snd (List.filter (fun kv => String.eqb (fst (fst kv)) ns)
             (map_to_list (files d))).

Definition ListFiles (ns : string) : M (list FileMetadata) :=
  untraced "tidb.ListFiles"
    (TiDBClient.with_tables ns (fun d => (Ok (rows_of ns d), d))).

Definition DeleteFileChunks (ns dg : string) : M unit :=
  untraced "tidb.DeleteFileChunks"
    (TiDBClient.with_tables ns (fun d =>
       (Ok tt, {| tables := tables d;
                  files := files d;
                  chunks := filter (fun kv => fst (fst kv) ≠ (ns, dg))
                                   (chunks d) |}))).

Definition DeleteFileMetadata (ns dg : string) : M unit :=
  untraced "tidb.DeleteFileMetadata"
    (TiDBClient.with_tables ns (fun d =>
       (Ok tt, {| tables := tables d;
                  files := delete (ns, dg) (files d);
                  chunks := chunks d |}))).

Definition S3DeleteDocument (svc : Services) (ns dg : string) : M unit :=
  untraced "s3.DeleteDocument"
    (fun w => (Ok tt, set_bucket (delete (S3Client.buildKey svc ns dg) (bucket w)) w)).

End Clients.

(** *** indexer.go: [DeleteDocument] *)

Definition DeleteDocument (svc : Services) (ns dg : string) : M unit :=
  wrap "failed to delete chunks: %w" (Clients.DeleteFileChunks ns dg) ;;;
  wrap "failed to delete metadata: %w" (Clients.DeleteFileMetadata ns dg) ;;;
  wrap "failed to delete from S3: %w" (Clients.S3DeleteDocument svc ns dg) ;;;
  ret tt.

(** *** vectorfs.go: [ReadDir], [Rename], [Chmod] *)

Definition info (name : string) (size mode : Z) (modTime : nat)
    (isDir : bool) (type : string) : FileInfo :=
  {| Name := name; Size := size; Mode := mode; ModTime := modTime;
     IsDir := isDir;
     Meta := {| metaName := PluginName; metaType := type |} |}.

Definition ReadDir (svc : Services) (path : string) : M (list FileInfo) :=
  match parsePath path with
  | Err e => fail e
  | Ok (ns, relativePath) =>
      t <- now ;;
      if String.eqb path "/" || String.eqb ns "" then
        let readme :=
          info "README" (Z.of_nat (String.length (readme svc)))
            292 (* 0444 *) t false "doc" in
        namespaces <- Clients.ListNamespaces ;;
        ret (readme ::
             map (fun n => info n 0 493 (* 0755 *) t true "namespace")
                 namespaces)
      else if String.eqb relativePath "" then
        ret [ info "docs" 0 493 (* 0755 *) t true "docs";
              info ".indexing" 4 292 (* 0444 *) t false "status" ]
      else if String.eqb relativePath "docs" then
        rows <- Clients.ListFiles ns ;;
        ret (map (fun f => info (FileName f) (FileSize f) 420 (* 0644 *)
                             (UpdatedAt f) false "document")
                 rows)
      else fail (Errorf "not a directory" [])
  end.

Definition Rename (oldPath newPath : string) : M unit :=
  fail (Errorf "rename not supported in vectorfs" []).

Definition Chmod (path : string) (mode : Z) : M unit :=
  fail (Errorf "chmod not supported in vectorfs" []).

(** *** vectorfs.go: [OpenWrite] and [vectorWriter] *)

Record vectorWriter : Type := { vw_path : string; vw_buf : string }.

Definition OpenWrite (path : string) : result vectorWriter :=
  Ok {| vw_path := path; vw_buf := EmptyString |}.

(** [vectorWriter.Write]: the bytes go to the buffer; the count is
    [len(p)]. *)
Definition writer_Write (vw : vectorWriter) (p : list byte)
    : Z * vectorWriter :=
  (Z.of_nat (length p),
   {| vw_path := vw_path vw;
      vw_buf := vw_buf vw +:+ string_of_list_byte p |}).

(** [vectorWriter.Close]: one [Write] of the whole buffer, with offset -1
    and [WriteFlagCreate]; only the error is kept. *)
Definition writer_Close (vw : vectorWriter) (p : Plugin)
    : outcome unit * Plugin :=
  let bytes := list_byte_of_string (vw_buf vw) in
  match Write (vw_path vw) bytes (-1) WriteFlagCreate p with
  | (Returns (Ok _), p') => (Returns (Ok tt), p')
  | (Returns (Err e), p') => (Returns (Err e), p')
  | (Panics, p') => (Panics, p')
  end.

(** *** vectorfs.go: [Validate], [GetConfigParams], and the worker count
    read by [Initialize] *)

(** A configuration value ([interface{}]): a string, an integer, or
    something else. *)
Inductive ConfigValue : Type :=
| CfgString (s : string)
| CfgInt (n : Z)
| CfgOther.





Definition GetIntConfig (cfg : gmap string ConfigValue) (key : string)
    (def : Z) : Z :=
  match cfg !! key with
  | Some (CfgInt n) => n
  | _ => def
  end.




(** [workerCount := config.GetIntConfig(cfg, "index_workers", 4)] and the
    pool [Initialize] starts with it. *)
Definition workerCount (cfg : gmap string ConfigValue) : Z :=
  GetIntConfig cfg "index_workers" 4.


(** *** Predicates on the stores and on tasks *)

(** Every registered document has its object. *)
Definition records_have_objects (svc : Services) (w : World) : Prop :=
  forall ns dg m,
    files (db w) !! (ns, dg) = Some m ->
    is_Some (bucket w !! S3Client.buildKey svc ns dg).

(** A computation that leaves the object store and the database as they
    were, whatever it returns. *)
Definition keeps_stores {A} (m : M A) : Prop :=
  forall w, bucket (snd (m w)) = bucket w /\ db (snd (m w)) = db w.

(** The digest of a task is the digest of the bytes it carries. *)
Definition well_addressed (t : indexTask) : Prop :=
  digest t = file_digest (list_byte_of_string (data t)).

(** The tasks a worker holds or has run, and the schedule that lets every
    worker return once the shutdown signal is closed. *)
Definition tasks_of (x : Worker) : list indexTask :=
  match x with Busy t => [t] | _ => [] end.

Fixpoint finish_workers (i : nat) (ws : list Worker) : list Action :=
  match ws with
  | [] => []
  | Idle :: ws' => WorkerShutdown i :: finish_workers (S i) ws'
  | Busy _ :: ws' =>
      WorkerIndex i :: WorkerShutdown i :: finish_workers (S i) ws'
  | Exited :: ws' => finish_workers (S i) ws'
  end.

Definition shutdown_schedule (ws : list Worker) : list Action :=
  [ShutdownCloseSignal; ShutdownCloseQueue] ++ finish_workers 0 ws
  ++ [ShutdownJoin].

(** The books of the pool balance: what has been executed, is held by a
    worker or waits in the buffer is what the queue has accepted, together
    with [k] zero tasks received from the closed queue. *)
Definition accounted (k : nat) (p : Plugin) : Prop :=
  executed p ++ busy_tasks (workers p) ++ queued p
  ≡ₚ enqueued p ++ repeat zero_task k.

(** Every task a [Write] has handed over, to the queue or to a goroutine,
    is addressed by the digest of its own bytes. *)
Definition submitted_well (p : Plugin) : Prop :=
  forall t, t ∈ enqueued p ++ helpers p -> well_addressed t.

(** The buffer holds no more than the capacity the queue was made with. *)
Definition within_capacity (p : Plugin) : Prop :=
  forall q, indexQueue p = Some q ->
    cap q = 100%nat /\ (length (buf q) <= cap q)%nat.

(** The queue is closed, and nothing has been accepted or has given up
    waiting since the plugin was [p0]. *)
Definition sealed (p0 p : Plugin) : Prop :=
  (exists q, indexQueue p = Some q /\ closed q = true)
  /\ enqueued p = enqueued p0 /\ helpers p = helpers p0.

(** Zero tasks appear only once the queue is closed. *)
Definition books (p : Plugin) : Prop :=
  exists k, accounted k p
    /\ (forall q, indexQueue p = Some q -> closed q = false -> k = 0%nat).

(** *** The pipeline, one service call at a time

    [IndexDocument] makes its service calls one after the other, and the
    workers run it concurrently, with no lock between them: what one worker
    does between two of its calls, another may undo or repeat.  A [Stage]
    is the place of a worker in the pipeline, named after the call it is
    about to make; [advance] makes that call.  As in [indexWorker], an
    error ends the pipeline and is otherwise dropped. *)
Inductive Stage : Type :=
| Checking                                    (* tidbClient.FileExists *)
| Uploading                                   (* s3Client.UploadDocument *)
| Registering                  (* time.Now, tidbClient.InsertFileMetadata *)
| Vectorizing              (* embeddingClient.GenerateBatchEmbeddings *)
| Inserting (cs : list Chunk) (es : list Embedding) (* tidbClient.InsertChunk *)
| Finished.

(** The loop [for i, chunk := range chunks] with the chunks [cs] left. *)
Definition inserting (cs : list Chunk) (es : list Embedding) : Stage :=
  match cs with
  | [] => Finished
  | _ :: _ => Inserting cs es
  end.

Definition advance (svc : Services) (t : indexTask) (st : Stage) (w : World)
    : Stage * World :=
  let ns := namespace t in
  let dg := digest t in
  match st with
  | Checking =>
      match TiDBClient.FileExists ns dg w with
      | (Ok false, w') => (Uploading, w')
      | (Ok true, w') => (Finished, w')
      | (Err _, w') => (Finished, w')
      end
  | Uploading =>
      match S3Client.UploadDocument svc ns dg (list_byte_of_string (data t)) w
      with
      | (Ok _, w') => (Registering, w')
      | (Err _, w') => (Finished, w')
      end
  | Registering =>
      let s3Key := S3Client.buildKey svc ns dg in
      let insert :=
        now_ <- now ;;
        TiDBClient.InsertFileMetadata ns
          {| FileDigest := dg; FileName := fileName t; S3Key := s3Key;
             FileSize := Z.of_nat (String.length (data t));
             CreatedAt := now_; UpdatedAt := now_ |} in
      match insert w with
      | (Ok _, w') => (Vectorizing, w')
      | (Err _, w') => (Finished, w')
      end
  | Vectorizing =>
      let chunks := chunk_document svc (data t) (chunker_config svc) in
      match EmbeddingClient.GenerateBatchEmbeddings svc (map Text chunks) w
      with
      | (Ok embeddings, w') => (inserting chunks embeddings, w')
      | (Err _, w') => (Finished, w')
      end
  | Inserting (c :: cs) (e :: es) =>
      match TiDBClient.InsertChunk ns dg (Index c) (Text c) e w with
      | (Ok _, w') => (inserting cs es, w')
      | (Err _, w') => (Finished, w')
      end
  | Inserting _ _ => (Finished, w)
  | Finished => (Finished, w)
  end.

(** One pipeline run on its own for [fuel] calls. *)
Fixpoint complete (svc : Services) (t : indexTask) (fuel : nat) (st : Stage)
    (w : World) : World :=
  match fuel with
  | O => w
  | S fuel' =>
      let '(st', w') := advance svc t st w in
      complete svc t fuel' st' w'
  end.

(** Pipelines in flight over the shared stores.  A pipeline begins when a
    worker has received its task, and then advances call by call; between
    two calls of one pipeline any other may advance.  Any number of
    pipelines, on any tasks, may be in flight: the pool of [Initialize]
    runs at most [workerCount] of them at a time, on tasks that [Write] has
    made, so what holds of every sequence of moves here holds of the
    pool. *)
Record Pipelines : Type := {
  store : World;
  active : list (indexTask * Stage)
}.

Inductive Move : Type :=
| Begin (t : indexTask)
| Advance (i : nat).

Definition move (svc : Services) (m : Move) (s : Pipelines)
    : option Pipelines :=
  match m with
  | Begin t =>
      Some {| store := store s; active := active s ++ [(t, Checking)] |}
  | Advance i =>
      match active s !! i with
      | Some (t, st) =>
          let '(st', w') := advance svc t st (store s) in
          Some {| store := w'; active := <[i := (t, st')]> (active s) |}
      | None => None
      end
  end.

Fixpoint moves (svc : Services) (ms : list Move) (s : Pipelines)
    : option Pipelines :=
  match ms with
  | [] => Some s
  | m :: ms' =>
      match move svc m s with
      | Some s' => moves svc ms' s'
      | None => None
      end
  end.

(** No pipeline for the document [(ns, dg)] is between its existence check
    and its end. *)
Definition quiet (ns dg : string) (s : Pipelines) : Prop :=
  forall t st, (t, st) ∈ active s ->
    namespace t = ns -> digest t = dg -> st = Checking \/ st = Finished.

End VectorFSRest.

(** Two writes of the same bytes, [a.txt] and [b.txt], whose pipelines both
    pass the existence check before either has registered the document. *)
Module Race.

Import VectorFS VectorFSRest.

Definition first : indexTask := mkTask "ns" "a.txt" Demo.payload.
Definition second : indexTask := mkTask "ns" "b.txt" Demo.payload.

Definition start : Pipelines := {| store := Demo.world_ns; active := [] |}.

Definition both_checked : list Move :=
  [ Begin first; Begin second; Advance 0; Advance 1 ].
Definition first_registers : list Move := [ Advance 0; Advance 0 ].
Definition second_registers : list Move := [ Advance 1; Advance 1 ].

(** The first write indexed to its end, on its own, and the second made
    afterwards. *)
Definition first_alone : list Move :=
  [ Begin first; Advance 0; Advance 0; Advance 0; Advance 0; Advance 0 ].
Definition second_later : list Move := [ Begin second; Advance 1; Advance 1 ].

Definition after (ms : list Move) : Pipelines :=
  match moves Demo.svc ms start with
  | Some s => s
  | None => start
  end.

Definition goes (ms : list Move) : bool :=
  match moves Demo.svc ms start with Some _ => true | None => false end.

Definition name_of (s : Pipelines) : option string :=
  FileName <$> files (db (store s)) !! ("ns"%string, file_digest Demo.payload).

End Race.

(** * Properties *)

Example Clean_ex1 : Clean "a//b/./c/.." = "a/b"%string.
Proof. reflexivity. Qed.
Example Clean_ex2 : Clean "/../a/b/../././/c" = "/a/c"%string.
Proof. reflexivity. Qed.
Example Clean_ex3 : Clean "../../a/" = "../../a"%string.
Proof. reflexivity. Qed.
Example Clean_ex4 : Clean "/" = "/"%string /\ Clean "" = "."%string /\ Clean "a/.." = "."%string.
Proof. repeat split. Qed.

Example Sum256_abc :
  Hex.EncodeToString (Sha256.Sum256 (list_byte_of_string "abc")) =
  "ba7816bf8f01cfea414140de5dae2223b00361a396177a9cb410ff61f20015ad"%string.
Proof. vm_compute. reflexivity. Qed.
Example Sum256_empty :
  Hex.EncodeToString (Sha256.Sum256 []) =
  "e3b0c44298fc1c149afbf4c8996fb92427ae41e4649b934ca495991b7852b855"%string.
Proof. vm_compute. reflexivity. Qed.
Example Sum256_two_blocks :
  Hex.EncodeToString (Sha256.Sum256 (list_byte_of_string
    "abcdbcdecdefdefgefghfghighijhijkijkljklmklmnlmnomnopnopq")) =
  "248d6a61d20638b8e5c026930c3e6039a33ce45964ff2167f6ecedd419db06c1"%string.
Proof. vm_compute. reflexivity. Qed.

(** The local-backend model against the assertions of its test-suite. *)
Section LocalFSTests.
Import VectorFS LocalFS.
Local Abbreviation bytes := list_byte_of_string.
Local Abbreviation Create_ := WriteFlagCreate.

Example TestLocalFSWriteBasic :
  let '(r, fs) := Write "/test.txt" (bytes "Hello, World!") (-1)
                    (Z.lor WriteFlagCreate WriteFlagTruncate) ∅ in
  r = Ok 13 /\ ReadAll "/test.txt" fs = Ok (bytes "Hello, World!").
Proof. vm_compute. auto. Qed.

Example TestLocalFSWriteWithOffset :
  let fs1 := snd (Write "/test.txt" (bytes "Hello, World!") (-1) Create_ ∅) in
  let fs2 := snd (Write "/test.txt" (bytes "XXXXX") 7 WriteFlagNone fs1) in
  ReadAll "/test.txt" fs2 = Ok (bytes "Hello, XXXXX!").
Proof. vm_compute. reflexivity. Qed.

Example TestLocalFSWriteAppend :
  let fs1 := snd (Write "/test.txt" (bytes "Hello") (-1) Create_ ∅) in
  let fs2 := snd (Write "/test.txt" (bytes ", World!") 0 WriteFlagAppend fs1) in
  ReadAll "/test.txt" fs2 = Ok (bytes "Hello, World!").
Proof. vm_compute. reflexivity. Qed.

Example TestLocalFSWriteTruncate :
  let fs1 := snd (Write "/test.txt" (bytes "Hello, World!") (-1) Create_ ∅) in
  let fs2 := snd (Write "/test.txt" (bytes "Hi") (-1) WriteFlagTruncate fs1) in
  ReadAll "/test.txt" fs2 = Ok (bytes "Hi").
Proof. vm_compute. reflexivity. Qed.

Example TestLocalFSWriteCreateExclusive :
  let cx := Z.lor WriteFlagCreate WriteFlagExclusive in
  let '(r1, fs1) := Write "/test.txt" (bytes "Hello") (-1) cx ∅ in
  let '(r2, fs2) := Write "/test.txt" (bytes "World") (-1) cx fs1 in
  is_ok r1 = true /\ is_ok r2 = false
  /\ ReadAll "/test.txt" fs2 = Ok (bytes "Hello").
Proof. vm_compute. auto. Qed.

Example TestLocalFSWriteNonExistent :
  let '(r1, fs1) := Write "/nonexistent.txt" (bytes "Hello") 0 WriteFlagNone ∅ in
  let '(r2, fs2) := Write "/nonexistent.txt" (bytes "Hello") (-1) Create_ fs1 in
  is_ok r1 = false /\ is_ok r2 = true.
Proof. vm_compute. auto. Qed.

Example TestLocalFSWriteExtend :
  let fs1 := snd (Write "/test.txt" (bytes "Hello") (-1) Create_ ∅) in
  let fs2 := snd (Write "/test.txt" (bytes "World") 10 WriteFlagNone fs1) in
  ReadAll "/test.txt" fs2 =
  Ok (bytes "Hello" ++ repeat x00 5 ++ bytes "World").
Proof. vm_compute. reflexivity. Qed.
End LocalFSTests.

(** ** Paths *)

Section Paths.

Lemma split_slash_nonempty (s : string) : split_slash s <> [].
Proof.
  destruct s as [|c s]; simpl; [discriminate|].
  destruct (Ascii.eqb c slash); [discriminate|].
  destruct (split_slash s); discriminate.
Qed.

Lemma join_split_slash (s : string) : join_slash (split_slash s) = s.
Proof.
  induction s as [|c s IH]; simpl; [reflexivity|].
  destruct (Ascii.eqb_spec c slash) as [->|Hc].
  - pose proof (split_slash_nonempty s) as Hne.
    destruct (split_slash s) as [|f fs]; [contradiction|].
    simpl in *. now rewrite IH.
  - destruct (split_slash s) as [|f fs]; simpl in *.
    + now rewrite <- IH.
    + destruct fs; simpl in *; now rewrite <- IH.
Qed.

Lemma split_slash_no_slash (e : string) :
  no_slash e = true -> split_slash e = [e].
Proof.
  induction e as [|c e IH]; simpl; [reflexivity|].
  intros [Hc He]%andb_prop.
  destruct (Ascii.eqb c slash); [discriminate|].
  now rewrite (IH He).
Qed.

Lemma split_slash_cons (e s : string) :
  no_slash e = true ->
  split_slash (e +:+ String slash s) = e :: split_slash s.
Proof.
  induction e as [|c e IH]; simpl; [reflexivity|].
  intros [Hc He]%andb_prop.
  destruct (Ascii.eqb c slash); [discriminate|].
  now rewrite (IH He).
Qed.

Lemma SplitN2_no_slash (e : string) :
  no_slash e = true -> SplitN2 e = [e].
Proof.
  induction e as [|c e IH]; simpl; [reflexivity|].
  intros [Hc He]%andb_prop.
  destruct (Ascii.eqb c slash); [discriminate|].
  now rewrite (IH He).
Qed.

Lemma SplitN2_cons (e s : string) :
  no_slash e = true -> SplitN2 (e +:+ String slash s) = [e; s].
Proof.
  induction e as [|c e IH]; simpl; [reflexivity|].
  intros [Hc He]%andb_prop.
  destruct (Ascii.eqb c slash); [discriminate|].
  now rewrite (IH He).
Qed.

Lemma is_name_no_slash (e : string) : is_name e = true -> no_slash e = true.
Proof. unfold is_name. now intros [_ H]%andb_prop. Qed.

Lemma clean_step_name (rooted : bool) (out : list string) (e : string) :
  is_name e = true -> clean_step rooted out e = e :: out.
Proof.
  unfold is_name, clean_step.
  intros [[[H1 H2]%andb_prop H3]%andb_prop _]%andb_prop.
  apply negb_true_iff in H1, H2, H3. now rewrite H1, H2, H3.
Qed.

Lemma fold_clean_names (rooted : bool) (es out : list string) :
  forallb is_name es = true ->
  fold_left (clean_step rooted) es out = rev es ++ out.
Proof.
  revert out. induction es as [|e es IH]; intros out; simpl; [reflexivity|].
  intros [He Hes]%andb_prop.
  rewrite (clean_step_name _ _ _ He), (IH _ Hes).
  now rewrite <- app_assoc.
Qed.

Lemma split_join_names (es : list string) :
  es <> [] -> forallb is_name es = true -> split_slash (join_slash es) = es.
Proof.
  induction es as [|e es IH]; [congruence|]. intros _.
  simpl forallb. intros [He Hes]%andb_prop.
  apply is_name_no_slash in He.
  destruct es as [|e' es]; [now apply split_slash_no_slash|].
  change (join_slash (e :: e' :: es))
    with (e +:+ String slash (join_slash (e' :: es))).
  rewrite (split_slash_cons _ _ He). f_equal. now apply IH.
Qed.

(** [filepath.Clean] leaves a rooted path of names alone. *)
Lemma Clean_rooted_names (es : list string) :
  es <> [] -> forallb is_name es = true ->
  Clean (String slash (join_slash es)) = String slash (join_slash es).
Proof.
  intros Hne Hes. unfold Clean.
  change (split_slash (String slash (join_slash es)))
    with (EmptyString :: split_slash (join_slash es)).
  rewrite (split_join_names _ Hne Hes).
  change (Ascii.eqb slash slash) with true. cbv iota.
  change (fold_left (clean_step true) (EmptyString :: es) [])
    with (fold_left (clean_step true) es []).
  rewrite (fold_clean_names _ _ _ Hes), app_nil_r, rev_involutive.
  reflexivity.
Qed.

Lemma TrimPrefix_slash (s : string) : TrimPrefix (String slash s) "/" = s.
Proof.
  unfold TrimPrefix, HasPrefix. simpl.
  destruct (ascii_dec "/" slash) as [_|Hne]; [|now elim Hne].
  now destruct s.
Qed.

Lemma name_not_empty_dot (e : string) :
  is_name e = true -> String.eqb e "" || String.eqb e "." = false.
Proof.
  unfold is_name.
  intros [[[H1 H2]%andb_prop _]%andb_prop _]%andb_prop.
  apply negb_true_iff in H1, H2. unfold dot in H2. now rewrite H1, H2.
Qed.

Lemma append_name_not_empty_dot (e s : string) :
  is_name e = true ->
  String.eqb (e +:+ String slash s) "" || String.eqb (e +:+ String slash s) "." = false.
Proof.
  intros He. pose proof (name_not_empty_dot _ He) as H.
  destruct e as [|c e]; [discriminate|].
  simpl. destruct e as [|c' e]; simpl.
  - destruct (Ascii.eqb c "."); reflexivity.
  - destruct (Ascii.eqb c "."); reflexivity.
Qed.

(** A path [/ns] or [/ns/e1/.../en] of names parses to [ns] and the
    remainder. *)
Lemma parsePath_names (ns : string) (es : list string) :
  is_name ns = true -> forallb is_name es = true ->
  VectorFS.parsePath (String slash (join_slash (ns :: es)))
  = VectorFS.Ok (ns, join_slash es).
Proof.
  intros Hns Hes. unfold VectorFS.parsePath.
  rewrite Clean_rooted_names; [|discriminate|simpl; now rewrite Hns, Hes].
  rewrite TrimPrefix_slash.
  destruct es as [|e es].
  - simpl join_slash. rewrite (name_not_empty_dot _ Hns).
    now rewrite (SplitN2_no_slash _ (is_name_no_slash _ Hns)).
  - change (join_slash (ns :: e :: es))
      with (ns +:+ String slash (join_slash (e :: es))).
    rewrite (append_name_not_empty_dot _ _ Hns).
    now rewrite (SplitN2_cons _ _ (is_name_no_slash _ Hns)).
Qed.

(** The same, for a namespace and a clean relative path written out. *)
Lemma parsePath_clean (ns rel : string) :
  is_name ns = true -> clean_rel rel = true ->
  VectorFS.parsePath ("/" +:+ ns +:+ "/" +:+ rel) = VectorFS.Ok (ns, rel).
Proof.
  intros Hns Hrel.
  pose proof (parsePath_names ns (split_slash rel) Hns Hrel) as H.
  pose proof (split_slash_nonempty rel) as Hne.
  rewrite <- (join_split_slash rel) at 1.
  rewrite <- (join_split_slash rel) at 2.
  destruct (split_slash rel) as [|e es]; [contradiction|].
  exact H.
Qed.

End Paths.

Section MorePaths.

Lemma no_slash_append_slash (a b : string) :
  no_slash (a +:+ String slash b) = false.
Proof.
  induction a as [|c a IH]; simpl; [reflexivity|].
  rewrite IH. apply andb_false_r.
Qed.

(** A path that goes below its first element is neither [/] nor
    [/README]. *)
Lemma below_root_neq (ns rest other : string) :
  no_slash other = true ->
  String.eqb (String slash (ns +:+ String slash rest)) (String slash other)
  = false.
Proof.
  intros Hother. apply String.eqb_neq. intros Heq.
  injection Heq as Heq. apply (f_equal no_slash) in Heq.
  rewrite no_slash_append_slash, Hother in Heq. discriminate.
Qed.

Lemma HasPrefix_append (p s : string) : HasPrefix (p +:+ s) p = true.
Proof.
  unfold HasPrefix. induction p as [|c p IH]; simpl.
  - now destruct s.
  - destruct (ascii_dec c c) as [_|Hne]; [exact IH|now elim Hne].
Qed.

Lemma drop_chars_append (p s : string) :
  drop_chars (String.length p) (p +:+ s) = s.
Proof. induction p as [|c p IH]; simpl; [reflexivity|exact IH]. Qed.

Lemma TrimPrefix_append (p s : string) : TrimPrefix (p +:+ s) p = s.
Proof.
  unfold TrimPrefix. rewrite HasPrefix_append. apply drop_chars_append.
Qed.

Lemma clean_rel_docs (rel : string) :
  clean_rel rel = true -> clean_rel ("docs/" +:+ rel) = true.
Proof.
  unfold clean_rel. intros Hrel.
  change ("docs/" +:+ rel) with ("docs" +:+ String slash rel).
  rewrite split_slash_cons by reflexivity.
  simpl forallb. now rewrite Hrel.
Qed.

(** A document path parses to its namespace and [docs/<rel>]. *)
Lemma parsePath_docs (ns rel : string) :
  is_name ns = true -> clean_rel rel = true ->
  VectorFS.parsePath ("/" +:+ ns +:+ "/docs/" +:+ rel)
  = VectorFS.Ok (ns, "docs/" +:+ rel).
Proof.
  intros Hns Hrel.
  exact (parsePath_clean ns ("docs/" +:+ rel) Hns (clean_rel_docs _ Hrel)).
Qed.

Lemma split_slash_fields (s : string) :
  forallb no_slash (split_slash s) = true.
Proof.
  induction s as [|c s IH]; simpl; [reflexivity|].
  destruct (Ascii.eqb c slash) eqn:Ec; simpl; [exact IH|].
  destruct (split_slash s) as [|f fs]; simpl in *; now rewrite Ec.
Qed.

Lemma clean_step_rooted_names (out : list string) (e : string) :
  forallb is_name out = true -> no_slash e = true ->
  forallb is_name (clean_step true out e) = true.
Proof.
  intros Hout He. unfold clean_step.
  destruct (String.eqb e "") eqn:E1; [exact Hout|].
  destruct (String.eqb e dot) eqn:E2; [exact Hout|].
  destruct (String.eqb e dotdot) eqn:E3.
  - destruct out as [|top below]; [reflexivity|].
    simpl in Hout. apply andb_prop in Hout as [Htop Hbelow].
    destruct (String.eqb top dotdot) eqn:E4; [|exact Hbelow].
    unfold is_name in Htop. rewrite E4 in Htop.
    rewrite andb_false_r in Htop. discriminate.
  - simpl. unfold is_name at 1. now rewrite E1, E2, E3, He, Hout.
Qed.

Lemma fold_clean_rooted_names (es out : list string) :
  forallb is_name out = true -> forallb no_slash es = true ->
  forallb is_name (fold_left (clean_step true) es out) = true.
Proof.
  revert out. induction es as [|e es IH]; intros out Hout Hes; [exact Hout|].
  simpl in *. apply andb_prop in Hes as [He Hes].
  apply IH; [|exact Hes]. now apply clean_step_rooted_names.
Qed.

Lemma forallb_rev {A} (f : A -> bool) (l : list A) :
  forallb f (rev l) = forallb f l.
Proof.
  induction l as [|x l IH]; [reflexivity|].
  simpl. rewrite forallb_app, IH. simpl. rewrite andb_true_r.
  apply andb_comm.
Qed.

(** Whatever follows the leading slash, a rooted path parses to the root,
    or to a namespace that is a name and a clean remainder. *)
Lemma parsePath_rooted (rest : string) :
  exists names,
    forallb is_name names = true
    /\ VectorFS.parsePath (String slash rest)
       = VectorFS.Ok match names with
                     | [] => (EmptyString, EmptyString)
                     | ns :: es => (ns, join_slash es)
                     end.
Proof.
  set (out := fold_left (clean_step true) (split_slash (String slash rest)) []).
  assert (forallb is_name (rev out) = true) as Hnames.
  { rewrite forallb_rev. apply fold_clean_rooted_names; [reflexivity|].
    apply split_slash_fields. }
  exists (rev out). split; [exact Hnames|].
  unfold VectorFS.parsePath.
  assert (Clean (String slash rest) = String slash (join_slash (rev out)))
    as -> by reflexivity.
  rewrite TrimPrefix_slash.
  destruct (rev out) as [|ns es]; [reflexivity|].
  simpl in Hnames. apply andb_prop in Hnames as [Hns Hes].
  destruct es as [|e es].
  - simpl join_slash. rewrite (name_not_empty_dot _ Hns).
    now rewrite (SplitN2_no_slash _ (is_name_no_slash _ Hns)).
  - change (join_slash (ns :: e :: es))
      with (ns +:+ String slash (join_slash (e :: es))).
    rewrite (append_name_not_empty_dot _ _ Hns).
    now rewrite (SplitN2_cons _ _ (is_name_no_slash _ Hns)).
Qed.

End MorePaths.

(** ** The filesystem view *)

Section View.

Import VectorFS.

Variable svc : Services.

(** C10.  In the vector backend, [Create] succeeds for every path and does
    nothing: no validation of the path, no call to a service, no change
    of the stores.  (Documents are registered by the indexing task that
    [Write] submits.) *)
Theorem C10_Create_is_a_noop (path : string) (w : World) :
  Create path w = (Ok tt, w).
Proof. reflexivity. Qed.

Lemma Read_indexing (ns : string) (offset size : Z) (w : World) :
  is_name ns = true ->
  Read svc ("/" +:+ ns +:+ "/.indexing") offset size w
  = (Ok (list_byte_of_string "idle"), w).
Proof.
  intros Hns. unfold Read.
  assert (String.eqb ("/" +:+ ns +:+ "/.indexing") "/README" = false) as ->
    by (apply (below_root_neq ns ".indexing" "README"); reflexivity).
  assert (parsePath ("/" +:+ ns +:+ "/.indexing") = Ok (ns, ".indexing"))
    as -> by (apply (parsePath_clean ns ".indexing" Hns); reflexivity).
  reflexivity.
Qed.

Lemma Stat_indexing (ns : string) (w : World) :
  is_name ns = true ->
  Stat svc ("/" +:+ ns +:+ "/.indexing") w
  = (Ok {| Name := ".indexing"; Size := 4; Mode := 292;
           ModTime := clock w; IsDir := false;
           Meta := {| metaName := PluginName; metaType := "status" |} |},
     set_clock (S (clock w)) w).
Proof.
  intros Hns. unfold Stat.
  assert (String.eqb ("/" +:+ ns +:+ "/.indexing") "/" = false) as ->
    by (apply (below_root_neq ns ".indexing" ""); reflexivity).
  assert (String.eqb ("/" +:+ ns +:+ "/.indexing") "/README" = false) as ->
    by (apply (below_root_neq ns ".indexing" "README"); reflexivity).
  assert (parsePath ("/" +:+ ns +:+ "/.indexing") = Ok (ns, ".indexing"))
    as -> by (apply (parsePath_clean ns ".indexing" Hns); reflexivity).
  reflexivity.
Qed.

(** C7.  For a namespace [ns], reading [/ns/.indexing] returns exactly
    the bytes "idle" whatever the offset, the size and the state of the
    services (the queue and the workers are not even consulted), and
    [Stat] reports a 4-byte file that is not a directory. *)
Theorem C7_indexing_status_is_idle (ns : string) (offset size : Z)
    (w : World) :
  is_name ns = true ->
  Read svc ("/" +:+ ns +:+ "/.indexing") offset size w
  = (Ok (list_byte_of_string "idle"), w)
  /\ exists info,
       fst (Stat svc ("/" +:+ ns +:+ "/.indexing") w) = Ok info
       /\ Size info = 4 /\ IsDir info = false.
Proof.
  intros Hns. split; [now apply Read_indexing|].
  rewrite (Stat_indexing ns w Hns). eexists. simpl. auto.
Qed.

End View.

Lemma C7_witness :
  is_name "ns" = true /\
  VectorFS.Read Demo.svc "/ns/.indexing" 2 1 Demo.world_ns
  = (VectorFS.Ok (list_byte_of_string "idle"), Demo.world_ns)
  /\ exists info,
       fst (VectorFS.Stat Demo.svc "/ns/.indexing" Demo.world_ns)
       = VectorFS.Ok info
       /\ VectorFS.Size info = 4 /\ VectorFS.IsDir info = false.
Proof.
  split; [reflexivity|].
  apply (C7_indexing_status_is_idle Demo.svc "ns" 2 1 Demo.world_ns).
  reflexivity.
Defined.

(** ** Calls to the services *)

Section ServiceCalls.

Import VectorFS.

(** A call either fails, leaving the stores alone, or runs its body on
    stores it has not touched; either way it is recorded. *)
Lemma service_inv {A} (name : string) (ev : Event) (body : M A) (w : World) :
  exists w1,
    bucket w1 = bucket w /\ db w1 = db w /\ clock w1 = clock w
    /\ trace w1 = trace w ++ [ev]
    /\ (service name ev body w = (Err (ErrService name), w1)
        \/ service name ev body w = body w1).
Proof.
  unfold service, next_fault.
  destruct (faults (log_event ev w)) as [|[] rest] eqn:E.
  - exists (log_event ev w). repeat split. now right.
  - exists (set_faults rest (log_event ev w)). repeat split. now left.
  - exists (set_faults rest (log_event ev w)). repeat split. now right.
Qed.

Lemma service_no_fault {A} (name : string) (ev : Event) (body : M A)
    (w : World) :
  faults w = [] -> service name ev body w = body (log_event ev w).
Proof. unfold service, next_fault. simpl. now intros ->. Qed.

End ServiceCalls.

(** ** Namespaces: removal and creation *)

Section Removal.

Import VectorFS.

Lemma DeleteNamespace_ok (ns : string) (w w' : World) :
  TiDBClient.DeleteNamespace ns w = (Ok tt, w') ->
  tables (db w') = tables (db w) ∖ {[ns]}
  /\ (forall dg, files (db w') !! (ns, dg) = None)
  /\ (forall dg idx, chunks (db w') !! (ns, dg, idx) = None)
  /\ bucket w' = bucket w.
Proof.
  unfold TiDBClient.DeleteNamespace.
  destruct (service_inv "tidb.DeleteNamespace" (DbDeleteNamespace ns)
    (TiDBClient.on_db (fun d =>
       (Ok tt, {| tables := tables d ∖ {[ns]};
                  files := filter (fun kv => fst (fst kv) ≠ ns) (files d);
                  chunks := filter (fun kv => fst (fst (fst kv)) ≠ ns)
                                   (chunks d) |}))) w)
    as (w1 & Hb & Hd & _ & _ & [-> | ->]); [discriminate|].
  unfold TiDBClient.on_db. intros [= <-]. simpl. rewrite Hd, Hb.
  repeat split.
  - intros dg. apply map_lookup_filter_None. right. intros m _. simpl. tauto.
  - intros dg idx. apply map_lookup_filter_None. right. intros m _. simpl. tauto.
Qed.

(** C4 (as amended).  [Remove] is refused for every path.  [RemoveAll]
    succeeds only on a namespace root (non-empty namespace, empty relative
    path); it then drops the namespace's tables (no row of its files and
    chunks tables remains) and leaves the object store as it was.  On the
    root and on any deeper path it returns an error and changes
    nothing. *)
Theorem C4_remove_policy (path : string) (w : World) :
  (exists e, Remove path w = (Err e, w))
  /\ (forall w', RemoveAll path w = (Ok tt, w') ->
        exists ns, ns <> EmptyString /\ parsePath path = Ok (ns, EmptyString)
          /\ tables (db w') = tables (db w) ∖ {[ns]}
          /\ (forall dg, files (db w') !! (ns, dg) = None)
          /\ (forall dg idx, chunks (db w') !! (ns, dg, idx) = None)
          /\ bucket w' = bucket w)
  /\ (forall ns rel, parsePath path = Ok (ns, rel) ->
        ns = EmptyString \/ rel <> EmptyString ->
        exists e, RemoveAll path w = (Err e, w)).
Proof.
  split; [eexists; reflexivity|]. split.
  - intros w'. unfold RemoveAll.
    destruct (parsePath path) as [[ns rel]|e]; [|discriminate].
    destruct (String.eqb_spec rel "") as [->|Hrel]; [|discriminate].
    destruct (String.eqb_spec ns "") as [->|Hns]; [discriminate|].
    simpl. intros H. exists ns. split; [exact Hns|]. split; [reflexivity|].
    now apply DeleteNamespace_ok.
  - intros ns rel Hp Hor. unfold RemoveAll. rewrite Hp.
    destruct (String.eqb_spec rel "") as [->|Hrel]; simpl.
    + destruct Hor as [->|Hor]; [|congruence]. eexists; reflexivity.
    + eexists; reflexivity.
Qed.

(** Namespaces come from [Mkdir]; on a rooted path it creates nothing, or
    the tables of a namespace whose name is a path element. *)
Lemma Mkdir_creates_a_name (svc : Services) (rest : string) (perm : Z)
    (w w' : World) :
  Mkdir svc (String slash rest) perm w = (Ok tt, w') ->
  tables (db w') = tables (db w)
  \/ exists ns, is_name ns = true /\ tables (db w') = {[ns]} ∪ tables (db w).
Proof.
  unfold Mkdir.
  destruct (parsePath_rooted rest) as (names & Hnames & ->).
  destruct names as [|ns es]; [discriminate|].
  simpl in Hnames. apply andb_prop in Hnames as [Hns _].
  destruct (String.eqb (join_slash es) ""); simpl.
  - destruct (String.eqb ns ""); [discriminate|].
    unfold TiDBClient.CreateNamespace. intros H.
    destruct (service_inv "tidb.CreateNamespace"
                (DbCreateNamespace ns (EmbeddingClient.GetDimension svc))
                (TiDBClient.on_db (fun d =>
                   (Ok tt, {| tables := {[ns]} ∪ tables d;
                              files := files d;
                              chunks := chunks d |}))) w)
      as (w1 & _ & Hd & _ & _ & [Hs|Hs]); rewrite Hs in H; [discriminate|].
    unfold TiDBClient.on_db in H. injection H as <-. simpl.
    right. exists ns. now rewrite Hd.
  - destruct (HasPrefix (join_slash es) "docs/"); [|discriminate].
    intros [= <-]. now left.
Qed.

End Removal.

(** The object that [RemoveAll] leaves behind: after [a.txt] is indexed in
    namespace [ns], [RemoveAll "/ns"] succeeds and drops the tables, and the
    document's object is still in the bucket. *)
Lemma C4_counterexample :
  let key := VectorFS.S3Client.buildKey Demo.svc "ns"
               (VectorFS.file_digest Demo.payload) in
  let gone := VectorFS.RemoveAll "/ns" Demo.indexed_world in
  VectorFS.bucket Demo.indexed_world !! key = Some Demo.payload
  /\ fst gone = VectorFS.Ok tt
  /\ VectorFS.bucket (snd gone) !! key = Some Demo.payload.
Proof. vm_compute. auto. Qed.

Lemma C4_witness :
  let w' := snd (VectorFS.RemoveAll "/ns" Demo.indexed_world) in
  VectorFS.RemoveAll "/ns" Demo.indexed_world = (VectorFS.Ok tt, w')
  /\ exists ns, ns <> EmptyString
       /\ VectorFS.parsePath "/ns" = VectorFS.Ok (ns, EmptyString)
       /\ VectorFS.tables (VectorFS.db w')
          = VectorFS.tables (VectorFS.db Demo.indexed_world) ∖ {[ns]}
       /\ (forall dg, VectorFS.files (VectorFS.db w') !! (ns, dg) = None)
       /\ (forall dg idx, VectorFS.chunks (VectorFS.db w') !! (ns, dg, idx) = None)
       /\ VectorFS.bucket w' = VectorFS.bucket Demo.indexed_world.
Proof.
  intros w'.
  assert (VectorFS.RemoveAll "/ns" Demo.indexed_world = (VectorFS.Ok tt, w'))
    as H.
  { rewrite (surjective_pairing (VectorFS.RemoveAll "/ns" Demo.indexed_world)).
    replace (fst (VectorFS.RemoveAll "/ns" Demo.indexed_world))
      with (@VectorFS.Ok unit tt) by (vm_compute; reflexivity).
    reflexivity. }
  split; [exact H|].
  exact (proj1 (proj2 (C4_remove_policy "/ns" Demo.indexed_world)) w' H).
Defined.

(** ** The index queue and the worker pool *)

Section Pool.

Import VectorFS.

Variable svc : Services.

Lemma elem_of_busy_tasks (ws : list Worker) (t : indexTask) :
  t ∈ busy_tasks ws <-> Busy t ∈ ws.
Proof.
  unfold busy_tasks. induction ws as [|x ws IH]; simpl.
  - split; intros H; inversion H.
  - rewrite elem_of_app, elem_of_cons, IH. split.
    + intros [H|H]; [|now right]. left.
      destruct x as [|t0|]; simpl in H; [inversion H| |inversion H].
      apply list_elem_of_singleton in H. now subst.
    + intros [<-|H]; [|now right]. left. simpl. now left.
Qed.

Lemma elem_of_insert_inv {A} (l : list A) (i : nat) (x y : A) :
  y ∈ <[i := x]> l -> y = x \/ y ∈ l.
Proof.
  intros [j Hj]%list_elem_of_lookup.
  destruct (decide (i = j)) as [->|Hne].
  - destruct (decide (j < length l)%nat) as [Hlt|Hge].
    + rewrite list_lookup_insert_eq in Hj by exact Hlt. left. congruence.
    + rewrite list_insert_ge in Hj by lia. right.
      apply list_elem_of_lookup. eauto.
  - rewrite list_lookup_insert_ne in Hj by exact Hne. right.
    apply list_elem_of_lookup. eauto.
Qed.

Lemma elem_of_insert_keep {A} (l : list A) (i : nat) (old x y : A) :
  l !! i = Some old -> y ∈ l -> y = old \/ y ∈ <[i := x]> l.
Proof.
  intros Hi [j Hj]%list_elem_of_lookup.
  destruct (decide (i = j)) as [->|Hne].
  - left. congruence.
  - right. apply list_elem_of_lookup. exists j.
    now rewrite list_lookup_insert_ne.
Qed.

Lemma elem_of_insert_new {A} (l : list A) (i : nat) (old x : A) :
  l !! i = Some old -> x ∈ <[i := x]> l.
Proof.
  intros Hi. apply list_elem_of_lookup. exists i.
  apply list_lookup_insert_eq. now apply lookup_lt_Some in Hi.
Qed.

Lemma all_exited_lookup (ws : list Worker) (i : nat) (x : Worker) :
  all_exited ws = true -> ws !! i = Some x -> x = Exited.
Proof.
  unfold all_exited. rewrite forallb_forall. intros Hall Hi.
  assert (In x ws) as Hin.
  { apply list_elem_of_In, list_elem_of_lookup. eauto. }
  specialize (Hall x Hin). now destruct x.
Qed.

Lemma pool_inv_Initialize (n : Z) (w : World) :
  pool_inv (Initialize n (NewVectorFSPlugin w)).
Proof.
  eexists. simpl. repeat split; try reflexivity; try discriminate.
  intros t H. inversion H.
Qed.

Ltac pool_open H :=
  destruct H as (ch & Hq & Hcap & Hcl & Hsd & Hpk & Hjoin & Henq).

Lemma pool_inv_panicked (p : Plugin) :
  pool_inv p -> coordinator p <> NotCalled -> pool_inv (set_panicked p).
Proof.
  intros Hinv Hc. pool_open Hinv. exists ch. simpl.
  repeat split; auto. intros Hc'. contradiction.
Qed.

Lemma closed_not_NotCalled (c : Coordinator) :
  queue_is_closed c = true -> c <> NotCalled.
Proof. now intros H ->. Qed.

Lemma pool_inv_enqueue (p : Plugin) (q : Chan) (t : indexTask)
    (hs : list indexTask) :
  pool_inv p -> indexQueue p = Some q ->
  pool_inv (note_enqueued t (set_helpers hs (set_indexQueue (Some (push t q)) p))).
Proof.
  intros Hinv Hq'. pool_open Hinv.
  assert (q = ch) as -> by congruence. clear Hq'.
  exists (push t ch). simpl. repeat split; auto.
  intros t' [Ht'|Ht']%elem_of_app.
  - destruct (Henq _ Ht') as [H|[H|H]]; auto.
    right; right. apply elem_of_app. now left.
  - right; right. apply elem_of_app. now right.
Qed.

Lemma pool_inv_helpers (p : Plugin) (hs : list indexTask) :
  pool_inv p -> pool_inv (set_helpers hs p).
Proof. intros Hinv. pool_open Hinv. exists ch. simpl. auto 10. Qed.

Lemma Write_inv (path : string) (bytes : list byte) (offset : Z)
    (flags : WriteFlag) (p : Plugin) :
  pool_inv p -> pool_inv (snd (Write path bytes offset flags p)).
Proof.
  intros Hinv. unfold Write.
  destruct (parsePath path) as [[ns rel]|e]; simpl; [|exact Hinv].
  destruct (HasPrefix rel "docs/"); simpl; [|exact Hinv].
  pose proof Hinv as Hinv'. pool_open Hinv'. rewrite Hq.
  destruct (closed ch) eqn:Ecl; simpl.
  - apply pool_inv_panicked; [exact Hinv|].
    apply closed_not_NotCalled. congruence.
  - destruct (has_room ch); simpl.
    + replace p with (set_helpers (helpers p) p) at 2 by now destruct p.
      now apply pool_inv_enqueue.
    + now apply pool_inv_helpers.
Qed.

(** Every step of every goroutine preserves the invariant. *)
Lemma exec_inv (a : Action) (p p' : Plugin) :
  pool_inv p -> exec svc a p = Some p' -> pool_inv p'.
Proof.
  intros Hinv. unfold exec.
  destruct (panicked p) eqn:Epk; [discriminate|].
  destruct a as [path bytes offset flags|j|i|i|i| | |].
  - intros [= <-]. now apply Write_inv.
  - pose proof Hinv as Hinv'. pool_open Hinv'. rewrite Hq.
    destruct (helpers p !! j) as [t|]; [|discriminate].
    destruct (closed ch) eqn:Ecl.
    + intros [= <-]. apply pool_inv_panicked; [exact Hinv|].
      apply closed_not_NotCalled. congruence.
    + destruct (has_room ch); [|discriminate]. intros [= <-].
      now apply pool_inv_enqueue.
  - pool_open Hinv.
    destruct (workers p !! i) as [[| |]|] eqn:Ei; try discriminate.
    destruct (shutdown p) as [[|]|] eqn:Esd; try discriminate.
    intros [= <-]. exists ch. simpl. repeat split; auto; try congruence.
    + intros Hc. specialize (Hjoin Hc).
      discriminate (all_exited_lookup _ _ _ Hjoin Ei).
    + intros t Ht. destruct (Henq _ Ht) as [H|[H|H]]; auto.
      right; left. apply elem_of_busy_tasks.
      apply elem_of_busy_tasks in H.
      destruct (elem_of_insert_keep _ i Idle Exited _ Ei H) as [?|?];
        [discriminate|assumption].
  - pool_open Hinv. rewrite Hq.
    destruct (workers p !! i) as [[| |]|] eqn:Ei; try discriminate.
    assert (forall c, coordinator p = Returned -> c) as Hnot.
    { intros c Hc. specialize (Hjoin Hc).
      discriminate (all_exited_lookup _ _ _ Hjoin Ei). }
    destruct (buf ch) as [|t rest] eqn:Ebuf.
    + destruct (closed ch) eqn:Ecl; [|discriminate].
      intros [= <-]. exists ch. simpl. repeat split; auto; try congruence.
      * intros Hc. now apply Hnot.
      * intros t Ht. destruct (Henq _ Ht) as [H|[H|H]]; auto.
        -- right; left. apply elem_of_busy_tasks.
           apply elem_of_busy_tasks in H.
           destruct (elem_of_insert_keep _ i Idle (Busy zero_task) _ Ei H)
             as [?|?]; [discriminate|assumption].
        -- inversion H.
    + intros [= <-].
      exists {| buf := rest; cap := cap ch; closed := closed ch |}.
      simpl. repeat split; auto; try congruence.
      * intros Hc. now apply Hnot.
      * intros t' Ht'. destruct (Henq _ Ht') as [H|[H|H]]; auto.
        -- right; left. apply elem_of_busy_tasks.
           apply elem_of_busy_tasks in H.
           destruct (elem_of_insert_keep _ i Idle (Busy t) _ Ei H)
             as [?|?]; [discriminate|assumption].
        -- apply elem_of_cons in H as [->|H]; auto.
           right; left. apply elem_of_busy_tasks.
           now apply (elem_of_insert_new _ _ Idle).
  - pool_open Hinv.
    destruct (workers p !! i) as [[|t|]|] eqn:Ei; try discriminate.
    intros [= <-]. exists ch. simpl. repeat split; auto; try congruence.
    + intros Hc. specialize (Hjoin Hc).
      discriminate (all_exited_lookup _ _ _ Hjoin Ei).
    + intros t' Ht'. rewrite elem_of_app.
      destruct (Henq _ Ht') as [H|[H|H]]; auto.
      apply elem_of_busy_tasks in H.
      destruct (elem_of_insert_keep _ i (Busy t) Idle _ Ei H) as [Heq|Hin].
      * injection Heq as ->. left; right. now apply list_elem_of_singleton.
      * right; left. now apply elem_of_busy_tasks.
  - pool_open Hinv.
    destruct (coordinator p) eqn:Ec; try discriminate.
    rewrite Hsd. simpl. intros [= <-]. exists ch. simpl.
    repeat split; auto; discriminate.
  - pool_open Hinv.
    destruct (coordinator p) eqn:Ec; try discriminate.
    rewrite Hq, Hcl. simpl. intros [= <-]. exists (close ch). simpl.
    repeat split; auto; discriminate.
  - pool_open Hinv.
    destruct (coordinator p) eqn:Ec; try discriminate.
    destruct (all_exited (workers p)) eqn:Eall; [|discriminate].
    intros [= <-]. exists ch. simpl.
    repeat split; auto; discriminate.
Qed.

Lemma run_inv (acts : list Action) (p p' : Plugin) :
  pool_inv p -> run svc acts p = Some p' -> pool_inv p'.
Proof.
  revert p. induction acts as [|a acts IH]; intros p Hinv; simpl.
  - now intros [= <-].
  - destruct (exec svc a p) as [p1|] eqn:E; [|discriminate].
    apply IH. now apply (exec_inv a p).
Qed.

(** A document path is accepted while the queue is open: the task goes
    into the buffer when there is room, and to a detached goroutine
    otherwise. *)
Lemma Write_docs (ns rel : string) (bytes : list byte) (offset : Z)
    (flags : WriteFlag) (p : Plugin) (q : Chan) :
  is_name ns = true -> clean_rel rel = true ->
  indexQueue p = Some q -> closed q = false ->
  Write ("/" +:+ ns +:+ "/docs/" +:+ rel) bytes offset flags p
  = (Returns (Ok (Z.of_nat (length bytes))),
     if has_room q
     then note_enqueued (mkTask ns rel bytes)
            (set_indexQueue (Some (push (mkTask ns rel bytes) q)) p)
     else set_helpers (helpers p ++ [mkTask ns rel bytes]) p).
Proof.
  intros Hns Hrel Hq Hcl. unfold Write.
  rewrite (parsePath_docs ns rel Hns Hrel).
  rewrite HasPrefix_append, TrimPrefix_append. simpl.
  rewrite Hq, Hcl. now destruct (has_room q).
Qed.

Lemma hexdigit_lower (n : N) : Hex.is_lower_hex (Hex.hexdigit n) = true.
Proof.
  unfold Hex.hexdigit. destruct (N.to_nat n) as [|m]; [reflexivity|].
  do 15 (destruct m as [|m]; [reflexivity|]). reflexivity.
Qed.

Lemma EncodeToString_hex (bs : list byte) :
  String.length (Hex.EncodeToString bs) = (2 * length bs)%nat
  /\ forallb Hex.is_lower_hex (list_ascii_of_string (Hex.EncodeToString bs))
     = true.
Proof.
  induction bs as [|b bs [IHl IHf]]; [split; reflexivity|].
  split.
  - cbn [Hex.EncodeToString String.length length]. rewrite IHl. lia.
  - cbn [Hex.EncodeToString list_ascii_of_string forallb].
    now rewrite !hexdigit_lower, IHf.
Qed.

Lemma Sum256_length (bytes : list byte) :
  length (Sha256.Sum256 bytes) = 32%nat.
Proof. reflexivity. Qed.

(** The digest of a task is 64 characters of [0-9a-f]. *)
Lemma file_digest_hex (bytes : list byte) :
  String.length (file_digest bytes) = 64%nat
  /\ forallb Hex.is_lower_hex (list_ascii_of_string (file_digest bytes))
     = true.
Proof.
  unfold file_digest.
  destruct (EncodeToString_hex (Sha256.Sum256 bytes)) as [Hl Hf].
  split; [|exact Hf]. now rewrite Hl, Sum256_length.
Qed.

(** As long as [Shutdown] has not closed the queue nothing has panicked. *)
Lemma exec_alive (a : Action) (p p' : Plugin) :
  pool_inv p ->
  (queue_is_closed (coordinator p) = false -> panicked p = false) ->
  exec svc a p = Some p' ->
  queue_is_closed (coordinator p') = false -> panicked p' = false.
Proof.
  intros Hinv Halive. pool_open Hinv. unfold exec.
  destruct (panicked p) eqn:Epk; [discriminate|].
  destruct a as [path bytes offset flags|j|i|i|i| | |].
  - intros [= <-]. unfold Write.
    destruct (parsePath path) as [[ns rel]|e]; [|now intros _].
    destruct (negb (HasPrefix rel "docs/")); [now intros _|].
    rewrite Hq. destruct (closed ch) eqn:Ecl.
    + simpl. intros Hc. congruence.
    + now destruct (has_room ch).
  - rewrite Hq. destruct (helpers p !! j) as [t|]; [|discriminate].
    destruct (closed ch) eqn:Ecl.
    + intros [= <-]. simpl. intros Hc. congruence.
    + destruct (has_room ch); [|discriminate]. now intros [= <-].
  - destruct (workers p !! i) as [[| |]|]; try discriminate.
    destruct (shutdown p) as [[|]|]; try discriminate. now intros [= <-].
  - destruct (workers p !! i) as [[| |]|]; try discriminate.
    rewrite Hq. destruct (buf ch) as [|t rest].
    + destruct (closed ch); [|discriminate]. now intros [= <-].
    + now intros [= <-].
  - destruct (workers p !! i) as [[|t|]|]; try discriminate.
    now intros [= <-].
  - destruct (coordinator p) eqn:Ec; try discriminate.
    rewrite Hsd. simpl. now intros [= <-].
  - destruct (coordinator p) eqn:Ec; try discriminate.
    rewrite Hq. simpl in Hcl. rewrite Hcl. intros [= <-]. discriminate.
  - destruct (coordinator p) eqn:Ec; try discriminate.
    destruct (all_exited (workers p)); [|discriminate].
    intros [= <-]. discriminate.
Qed.

Lemma run_alive (acts : list Action) (p p' : Plugin) :
  pool_inv p ->
  (queue_is_closed (coordinator p) = false -> panicked p = false) ->
  run svc acts p = Some p' ->
  queue_is_closed (coordinator p') = false -> panicked p' = false.
Proof.
  revert p. induction acts as [|a acts IH]; intros p Hinv Halive; simpl.
  - now intros [= <-].
  - destruct (exec svc a p) as [p1|] eqn:E; [|discriminate].
    apply IH; [now apply (exec_inv a p)|now apply (exec_alive a p)].
Qed.

(** C2 (as amended).  On an initialized plugin, as long as [Shutdown] has
    not closed the index queue, every write to [/<ns>/docs/<rel>] returns
    [int64(len(data))] with no error.  Its task, [{ns, lowercase-hex
    SHA-256 of data, rel, data}], is appended to the buffer of the index
    queue, whose capacity is 100, when the buffer holds fewer than 100
    tasks; otherwise the buffer is left as it is and the task is handed to
    a detached goroutine, whose send cannot proceed while the buffer is
    full.  [Write] itself is a function of the plugin state: it does not
    wait.  Once [Shutdown] has closed the queue, such a write panics. *)
Theorem C2_write_acknowledged (n : Z) (w : World) (acts : list Action)
    (p : Plugin) (ns rel : string) (bytes : list byte) (offset : Z)
    (flags : WriteFlag) :
  run svc acts (Initialize n (NewVectorFSPlugin w)) = Some p ->
  is_name ns = true -> clean_rel rel = true ->
  let path := "/" +:+ ns +:+ "/docs/" +:+ rel in
  let task := {| namespace := ns;
                 digest := Hex.EncodeToString (Sha256.Sum256 bytes);
                 fileName := rel;
                 data := string_of_list_byte bytes |} in
  let out := Write path bytes offset flags p in
  let p' := snd out in
  exists q,
    indexQueue p = Some q /\ cap q = 100%nat
    /\ closed q = queue_is_closed (coordinator p)
    /\ String.length (digest task) = 64%nat
    /\ forallb Hex.is_lower_hex (list_ascii_of_string (digest task)) = true
    /\ (closed q = false ->
          panicked p = false
          /\ fst out = Returns (Ok (Z.of_nat (length bytes)))
          /\ panicked p' = false
          /\ world p' = world p /\ workers p' = workers p
          /\ executed p' = executed p
          /\ if (length (buf q) <? 100)%nat
             then queued p' = buf q ++ [task]
                  /\ enqueued p' = enqueued p ++ [task]
                  /\ helpers p' = helpers p
             else queued p' = buf q
                  /\ enqueued p' = enqueued p
                  /\ helpers p' = helpers p ++ [task]
                  /\ exec svc (HelperSend (length (helpers p))) p' = None)
    /\ (closed q = true ->
          fst out = Panics /\ panicked p' = true
          /\ queued p' = buf q /\ enqueued p' = enqueued p
          /\ helpers p' = helpers p).
Proof.
  intros Hrun Hns Hrel path task out p'.
  pose proof (pool_inv_Initialize n w) as Hinit.
  pose proof (run_inv acts _ p Hinit Hrun) as Hinv.
  assert (queue_is_closed (coordinator p) = false -> panicked p = false)
    as Halive.
  { apply (run_alive acts _ p Hinit); [|exact Hrun]. reflexivity. }
  pool_open Hinv.
  exists ch. split; [exact Hq|]. split; [exact Hcap|]. split; [exact Hcl|].
  split; [exact (proj1 (file_digest_hex bytes))|].
  split; [exact (proj2 (file_digest_hex bytes))|].
  subst p' out path. split.
  - intros Hopen.
    rewrite (Write_docs ns rel bytes offset flags p ch Hns Hrel Hq Hopen).
    assert (panicked p = false) as Hpk' by (apply Halive; congruence).
    split; [exact Hpk'|]. split; [reflexivity|].
    unfold has_room. rewrite Hcap. simpl snd.
    destruct (length (buf ch) <? 100)%nat eqn:Eroom.
    + unfold queued. simpl. now repeat split.
    + unfold queued. simpl. rewrite Hq.
      split; [exact Hpk'|]. repeat split.
      unfold exec. simpl. rewrite Hpk', Hq.
      rewrite lookup_app_r by lia. rewrite Nat.sub_diag. simpl.
      rewrite Hopen. unfold has_room. now rewrite Hcap, Eroom.
  - intros Hclosed. unfold Write.
    rewrite (parsePath_docs ns rel Hns Hrel).
    rewrite HasPrefix_append. simpl negb. cbv iota.
    rewrite Hq, Hclosed. unfold queued. simpl. now rewrite Hq.
Qed.

Lemma all_exited_no_busy (ws : list Worker) :
  all_exited ws = true ->
  Forall (fun x => x = Exited) ws /\ busy_tasks ws = [].
Proof.
  induction ws as [|x ws IH]; simpl; [now split|].
  destruct x; try discriminate. intros H. destruct (IH H) as [H1 H2].
  split; [now constructor|exact H2].
Qed.

(** C3 (as amended).  After [Initialize], whatever the goroutines do: the
    index queue is closed only once the shutdown signal is closed; and
    when [Shutdown] has returned, both channels are closed, every worker
    has returned and none holds a task, so every task the queue accepted
    has either been executed or is still sitting in the closed queue,
    where no worker will read it. *)
Theorem C3_shutdown_joins_workers (n : Z) (w : World) (acts : list Action)
    (p : Plugin) :
  run svc acts (Initialize n (NewVectorFSPlugin w)) = Some p ->
  (forall q, indexQueue p = Some q -> closed q = true ->
     shutdown p = Some true)
  /\ (coordinator p = Returned ->
        shutdown p = Some true
        /\ (exists q, indexQueue p = Some q /\ closed q = true)
        /\ Forall (fun x => x = Exited) (workers p)
        /\ busy_tasks (workers p) = []
        /\ forall t, t ∈ enqueued p -> t ∈ executed p \/ t ∈ queued p).
Proof.
  intros Hrun.
  pose proof (run_inv acts _ p (pool_inv_Initialize n w) Hrun) as Hinv.
  pool_open Hinv. split.
  - intros q Hq' Hclosed. assert (q = ch) as -> by congruence.
    rewrite Hsd. rewrite Hclosed in Hcl.
    now destruct (coordinator p).
  - intros Hc. rewrite Hc in *. simpl in *.
    destruct (all_exited_no_busy _ (Hjoin eq_refl)) as [Hall Hbusy].
    split; [exact Hsd|]. split; [now exists ch|].
    split; [exact Hall|]. split; [exact Hbusy|].
    intros t Ht. unfold queued. rewrite Hq.
    destruct (Henq _ Ht) as [H|[H|H]]; auto.
    rewrite Hbusy in H. inversion H.
Qed.


End Pool.

Lemma run_after (acts : list VectorFS.Action) :
  Demo.runs acts = true ->
  VectorFS.run Demo.svc acts
    (VectorFS.Initialize 4 (VectorFS.NewVectorFSPlugin Demo.world_ns))
  = Some (Demo.after acts).
Proof.
  unfold Demo.runs, Demo.after, Demo.plugin.
  now destruct (VectorFS.run Demo.svc acts _).
Qed.

(** Once [Shutdown] has closed the queue, a write to a document path
    panics instead of returning. *)
Lemma C2_counterexample :
  let p := Demo.after Demo.shutdown_with_backlog in
  Demo.runs Demo.shutdown_with_backlog = true
  /\ is_name "ns" = true /\ clean_rel "y" = true
  /\ VectorFS.coordinator p = VectorFS.Returned
  /\ fst (VectorFS.Write "/ns/docs/y" Demo.payload (-1)
            VectorFS.WriteFlagCreate p)
     = VectorFS.Panics.
Proof. vm_compute. auto 10. Qed.

Lemma C2_witness :
  let acts := Demo.fill_queue in
  let p := Demo.after acts in
  let path := "/ns/docs/a.txt"%string in
  let task := VectorFS.mkTask "ns" "a.txt" Demo.payload in
  let out := VectorFS.Write path Demo.payload (-1) VectorFS.WriteFlagCreate p in
  let p' := snd out in
  (VectorFS.run Demo.svc acts
     (VectorFS.Initialize 4 (VectorFS.NewVectorFSPlugin Demo.world_ns)) = Some p
   /\ is_name "ns" = true /\ clean_rel "a.txt" = true)
  /\ exists q,
       VectorFS.indexQueue p = Some q /\ VectorFS.cap q = 100%nat
       /\ VectorFS.closed q
          = VectorFS.queue_is_closed (VectorFS.coordinator p)
       /\ String.length (VectorFS.digest task) = 64%nat
       /\ forallb Hex.is_lower_hex
            (list_ascii_of_string (VectorFS.digest task)) = true
       /\ (VectorFS.closed q = false ->
             VectorFS.panicked p = false
             /\ fst out = VectorFS.Returns (VectorFS.Ok 7)
             /\ VectorFS.panicked p' = false
             /\ VectorFS.world p' = VectorFS.world p
             /\ VectorFS.workers p' = VectorFS.workers p
             /\ VectorFS.executed p' = VectorFS.executed p
             /\ if (length (VectorFS.buf q) <? 100)%nat
                then VectorFS.queued p' = VectorFS.buf q ++ [task]
                     /\ VectorFS.enqueued p' = VectorFS.enqueued p ++ [task]
                     /\ VectorFS.helpers p' = VectorFS.helpers p
                else VectorFS.queued p' = VectorFS.buf q
                     /\ VectorFS.enqueued p' = VectorFS.enqueued p
                     /\ VectorFS.helpers p' = VectorFS.helpers p ++ [task]
                     /\ VectorFS.exec Demo.svc
                          (VectorFS.HelperSend (length (VectorFS.helpers p))) p'
                        = None)
       /\ (VectorFS.closed q = true ->
             fst out = VectorFS.Panics /\ VectorFS.panicked p' = true
             /\ VectorFS.queued p' = VectorFS.buf q
             /\ VectorFS.enqueued p' = VectorFS.enqueued p
             /\ VectorFS.helpers p' = VectorFS.helpers p).
Proof.
  intros acts p path task out p'.
  assert (Demo.runs acts = true) as Hruns by (vm_compute; reflexivity).
  split; [split; [exact (run_after _ Hruns)|split; reflexivity]|].
  exact (C2_write_acknowledged Demo.svc 4 Demo.world_ns acts p "ns" "a.txt"
           Demo.payload (-1) VectorFS.WriteFlagCreate
           (run_after _ Hruns) eq_refl eq_refl).
Defined.

(** Five tasks are accepted by the queue; [Shutdown] returns; the fifth,
    accepted before [Shutdown] was called, has not been executed and sits in
    the closed queue. *)
Lemma C3_counterexample :
  let p := Demo.after Demo.shutdown_with_backlog in
  Demo.runs Demo.shutdown_with_backlog = true
  /\ VectorFS.coordinator p = VectorFS.Returned
  /\ map VectorFS.fileName (VectorFS.enqueued p) = ["1"; "2"; "3"; "4"; "5"]
  /\ map VectorFS.fileName (VectorFS.executed p) = ["1"; "2"; "3"; "4"]
  /\ map VectorFS.fileName (VectorFS.queued p) = ["5"].
Proof. vm_compute. auto 10. Qed.

Lemma C3_witness :
  let p := Demo.after Demo.shutdown_with_backlog in
  VectorFS.run Demo.svc Demo.shutdown_with_backlog
    (VectorFS.Initialize 4 (VectorFS.NewVectorFSPlugin Demo.world_ns)) = Some p
  /\ (forall q, VectorFS.indexQueue p = Some q -> VectorFS.closed q = true ->
        VectorFS.shutdown p = Some true)
  /\ (VectorFS.coordinator p = VectorFS.Returned ->
        VectorFS.shutdown p = Some true
        /\ (exists q, VectorFS.indexQueue p = Some q /\ VectorFS.closed q = true)
        /\ Forall (fun x => x = VectorFS.Exited) (VectorFS.workers p)
        /\ VectorFS.busy_tasks (VectorFS.workers p) = []
        /\ forall t, t ∈ VectorFS.enqueued p ->
             t ∈ VectorFS.executed p \/ t ∈ VectorFS.queued p).
Proof.
  intros p.
  assert (Demo.runs Demo.shutdown_with_backlog = true) as Hruns
    by (vm_compute; reflexivity).
  split; [exact (run_after _ Hruns)|].
  exact (C3_shutdown_joins_workers Demo.svc 4 Demo.world_ns
           Demo.shutdown_with_backlog p (run_after _ Hruns)).
Defined.



(** With a hundred tasks buffered, the next write is still acknowledged; its
    task is not in the buffer but with a detached goroutine, which is
    blocked. *)
Example Write_on_full_queue :
  let p := Demo.after Demo.fill_queue in
  let out := VectorFS.Write "/ns/docs/y" Demo.payload (-1)
               VectorFS.WriteFlagCreate p in
  length (VectorFS.queued p) = 100%nat
  /\ fst out = VectorFS.Returns (VectorFS.Ok 7)
  /\ length (VectorFS.queued (snd out)) = 100%nat
  /\ map VectorFS.fileName (VectorFS.helpers (snd out)) = ["y"]
  /\ match VectorFS.exec Demo.svc (VectorFS.HelperSend 0) (snd out) with
     | Some _ => false
     | None => true
     end = true.
Proof. vm_compute. auto 10. Qed.

(** Once [Shutdown] has closed the queue, a write panics (a send on a closed
    channel): the acknowledgement of writes is a property of a running
    plugin. *)
Example Write_after_Shutdown :
  fst (VectorFS.Write "/ns/docs/y" Demo.payload (-1) VectorFS.WriteFlagCreate
         (Demo.after Demo.shutdown_with_backlog))
  = VectorFS.Panics.
Proof. vm_compute. reflexivity. Qed.

(** ** Inversion of monadic code *)

Section Inversion.

Import VectorFS.

Lemma bind_ok {A B} (m : M A) (k : A -> M B) (w w' : World) (b : B) :
  bind m k w = (Ok b, w') ->
  exists a w1, m w = (Ok a, w1) /\ k a w1 = (Ok b, w').
Proof.
  unfold bind. destruct (m w) as [[a|e] w1]; [|discriminate]. eauto.
Qed.

Lemma wrap_ok {A} (format : string) (m : M A) (w w' : World) (a : A) :
  wrap format m w = (Ok a, w') -> m w = (Ok a, w').
Proof.
  unfold wrap. destruct (m w) as [[a'|e] w1]; [|discriminate].
  now intros [= -> ->].
Qed.

Lemma service_ok {A} (name : string) (ev : Event) (body : M A)
    (w w' : World) (a : A) :
  service name ev body w = (Ok a, w') ->
  exists w1,
    bucket w1 = bucket w /\ db w1 = db w /\ clock w1 = clock w
    /\ trace w1 = trace w ++ [ev] /\ body w1 = (Ok a, w').
Proof.
  intros H.
  destruct (service_inv name ev body w) as (w1 & Hb & Hd & Hc & Ht & [Hs|Hs]);
    rewrite Hs in H; [discriminate|].
  exists w1. auto.
Qed.

Lemma with_tables_ok {A} (ns : string) (f : DB -> result A * DB)
    (w w' : World) (a : A) :
  TiDBClient.with_tables ns f w = (Ok a, w') ->
  ns ∈ tables (db w) /\ f (db w) = (Ok a, db w')
  /\ bucket w' = bucket w /\ clock w' = clock w /\ trace w' = trace w
  /\ faults w' = faults w.
Proof.
  unfold TiDBClient.with_tables, TiDBClient.on_db.
  destruct (decide (ns ∈ tables (db w))) as [Hin|Hout]; [|discriminate].
  destruct (f (db w)) as [r d]. intros [= -> <-]. simpl.
  repeat split; auto.
Qed.

End Inversion.

(** ** Content search *)

Section Search.

Import VectorFS.

Variable svc : Services.

(** What a successful search has done: the guard that let it through is
    [HasPrefix(relativePath, "docs")]; one embedding was requested, for
    the query; one nearest-neighbour search was issued, with K = 10; and
    the hits are the database's answers, rendered. *)
Lemma CustomGrep_ok (path query : string) (w w' : World)
    (hits : list CustomGrepResult) :
  CustomGrep svc path query w = (Ok hits, w') ->
  exists ns rel,
    parsePath path = Ok (ns, rel)
    /\ HasPrefix rel "docs" = true
    /\ trace w' = trace w ++ [EmbGenerate query;
                              DbVectorSearch ns (embedding_of svc query) 10]
    /\ hits = map (render_hit ns)
                (nearest svc (db w) ns (embedding_of svc query) 10).
Proof.
  unfold CustomGrep.
  destruct (parsePath path) as [[ns rel]|e]; [|discriminate].
  destruct (HasPrefix rel "docs") eqn:Epre.
  2:{ destruct (String.eqb_spec rel "docs") as [->|Hne];
        [discriminate Epre|discriminate]. }
  simpl. intros H. exists ns, rel. split; [reflexivity|]. split; [exact Epre|].
  unfold VectorSearch in H.
  apply bind_ok in H as (q & w1 & H1 & H).
  apply wrap_ok, service_ok in H1 as (w0 & Hb0 & Hd0 & _ & Ht0 & H1).
  injection H1 as <- <-.
  apply bind_ok in H as (rs & w2 & H2 & H).
  apply wrap_ok, service_ok in H2 as (w3 & Hb3 & Hd3 & _ & Ht3 & H2).
  apply with_tables_ok in H2 as (_ & Hf & _ & _ & Ht2 & _).
  injection Hf as <- _. injection H as <- <-.
  rewrite Ht2, Ht3, Ht0, Hd3, Hd0, <- app_assoc. auto.
Qed.

(** The rendering of a hit. *)
Lemma render_hit_fields (ns : string) (r : VectorSearchResult) :
  File (render_hit ns r) = ns +:+ "/docs/" +:+ vsFileName r
  /\ (- 2 ^ 63 <= vsChunkIndex r < 2 ^ 63 - 1 ->
      Line (render_hit ns r) = vsChunkIndex r + 1)
  /\ Content (render_hit ns r) = vsChunkText r
  /\ Metadata (render_hit ns r) !! "distance" = Some (vsDistance r)
  /\ Metadata (render_hit ns r) !! "score" = Some (1 - vsDistance r)%float.
Proof.
  repeat split.
  intros Hr. simpl. unfold int_add, wrap64.
  rewrite Z.mod_small; lia.
Qed.

End Search.

(** C5 (the slip).  A path outside [docs/] on which the search goes
    through: [/ns/docs-old/a.txt] parses to the relative path
    [docs-old/a.txt], which does not start with [docs/] and is not [docs],
    and [CustomGrep] answers with the hit of the indexed document. *)
Theorem C5_search_outside_docs :
  VectorFS.parsePath "/ns/docs-old/a.txt"
  = VectorFS.Ok ("ns"%string, "docs-old/a.txt"%string)
  /\ HasPrefix "docs-old/a.txt" "docs/" = false
  /\ String.eqb "docs-old/a.txt" "docs" = false
  /\ option_map
       (map (fun h => (VectorFS.File h, VectorFS.Line h, VectorFS.Content h,
                       VectorFS.Metadata h !! "score"%string)))
       (match fst (VectorFS.CustomGrep Demo.svc "/ns/docs-old/a.txt"
                     "payload" Demo.indexed_world) with
        | VectorFS.Ok hits => Some hits
        | VectorFS.Err _ => None
        end)
     = Some [("ns/docs/a.txt"%string, 1, "payload"%string, Some 0.75%float)].
Proof. vm_compute. auto. Qed.

(** ** Deduplication *)

Section Dedup.

Import VectorFS.

Variable svc : Services.

(** The prepare phase of a digest that is not yet registered: one
    object is put under the key of (namespace, digest), and one row is
    inserted, carrying the file name of the task. *)
Lemma PrepareDocument_fresh (ns dg fname content : string) (w w1 : World) :
  Indexer.PrepareDocument svc ns dg fname content w = (Ok false, w1) ->
  ns ∈ tables (db w1)
  /\ bucket w1 = <[S3Client.buildKey svc ns dg := list_byte_of_string content]>
                   (bucket w)
  /\ exists m, FileName m = fname /\ FileDigest m = dg
       /\ files (db w1) = <[(ns, dg) := m]> (files (db w)).
Proof.
  unfold Indexer.PrepareDocument. intros H.
  apply bind_ok in H as (ex & wa & H1 & H).
  apply wrap_ok, service_ok in H1 as (w0 & Hb0 & Hd0 & _ & _ & H1).
  apply with_tables_ok in H1 as (_ & Hf & Hba & _ & _ & _).
  injection Hf as <- Hda.
  destruct (bool_decide _); [discriminate H|].
  apply bind_ok in H as ([] & wb & H2 & H).
  apply wrap_ok, service_ok in H2 as (w2 & Hb2 & Hd2 & _ & _ & H2).
  injection H2 as <-.
  apply bind_ok in H as (t & wc & H3 & H).
  injection H3 as <- <-.
  apply bind_ok in H as ([] & wd & H4 & H).
  apply wrap_ok, service_ok in H4 as (w4 & Hb4 & Hd4 & _ & _ & H4).
  apply with_tables_ok in H4 as (Hin & Hf & Hb5 & _ & _ & _).
  injection Hf as Hd5. injection H as <-.
  simpl in *. rewrite <- Hd5. simpl.
  split; [exact Hin|].
  split; [now rewrite Hb5, Hb4, Hb2, Hba, Hb0|].
  eexists. split; [|split]; [| |rewrite Hd4, Hd2, <- Hda, Hd0; reflexivity];
    reflexivity.
Qed.

(** The pipeline of a digest that is already registered: the existence
    check is the only call; nothing is uploaded and nothing is inserted. *)
Lemma IndexDocument_registered (ns dg fname content : string) (w : World) :
  ns ∈ tables (db w) -> is_Some (files (db w) !! (ns, dg)) ->
  let w' := snd (Indexer.IndexDocument svc ns dg fname content w) in
  bucket w' = bucket w /\ db w' = db w
  /\ trace w' = trace w ++ [DbFileExists ns dg].
Proof.
  intros Hin Hsome.
  unfold Indexer.IndexDocument, Indexer.PrepareDocument, bind, wrap,
    TiDBClient.FileExists.
  match goal with
  | |- context [service ?n ?e ?b w] =>
      destruct (service_inv n e b w) as (w1 & Hb & Hd & _ & Ht & [Hs|Hs]);
        rewrite Hs
  end.
  - simpl. auto.
  - unfold TiDBClient.with_tables, TiDBClient.on_db. rewrite Hd.
    destruct (decide (ns ∈ tables (db w))) as [_|Hout]; [|contradiction].
    rewrite (bool_decide_eq_true_2 _ Hsome). simpl.
    rewrite <- Hd. split; [exact Hb|]. split; [|exact Ht].
    now destruct w1.
Qed.

(** C1 (as amended).  Two writes of the same bytes into a namespace give
    tasks with the same digest.  Once the prepare phase of the first has
    registered the document, the pipeline of the second makes one call,
    the existence check: it uploads nothing and inserts nothing, so the
    two tasks have put exactly one object into the bucket, and the
    document record keeps the file name of the first write. *)
Theorem C1_same_content_is_stored_once (ns f1 f2 : string)
    (bytes : list byte) (w w1 : World) :
  let t1 := mkTask ns f1 bytes in
  let t2 := mkTask ns f2 bytes in
  Indexer.PrepareDocument svc (namespace t1) (digest t1) (fileName t1)
    (data t1) w = (Ok false, w1) ->
  let w2 := snd (Indexer.IndexDocument svc (namespace t2) (digest t2)
                   (fileName t2) (data t2) w1) in
  digest t2 = digest t1
  /\ bucket w1 = <[S3Client.buildKey svc ns (digest t1) := bytes]> (bucket w)
  /\ bucket w2 = bucket w1
  /\ db w2 = db w1
  /\ trace w2 = trace w1 ++ [DbFileExists ns (digest t2)]
  /\ FileName <$> (files (db w2) !! (ns, digest t1)) = Some f1.
Proof.
  intros t1 t2 H w2. simpl in H.
  apply PrepareDocument_fresh in H as (Hin & Hb & m & Hname & _ & Hfiles).
  rewrite list_byte_of_string_of_list_byte in Hb.
  assert (is_Some (files (db w1) !! (ns, file_digest bytes))) as Hsome.
  { rewrite Hfiles, lookup_insert_eq. eauto. }
  destruct (IndexDocument_registered ns (file_digest bytes) f2
              (string_of_list_byte bytes) w1 Hin Hsome) as (Hb2 & Hd2 & Ht2).
  split; [reflexivity|]. split; [exact Hb|]. split; [exact Hb2|].
  split; [exact Hd2|]. split; [exact Ht2|].
  subst w2. simpl. rewrite Hd2, Hfiles, lookup_insert_eq. simpl.
  now rewrite Hname.
Qed.

End Dedup.

(** The same bytes written as [a.txt] and then as [b.txt]: the bucket holds
    one object, and the one document record is named [a.txt], not
    [b.txt]. *)
Lemma C1_counterexample :
  let w := Demo.indexed_world in
  let dg := VectorFS.file_digest Demo.payload in
  Demo.runs Demo.write_twice = true
  /\ map VectorFS.fileName (VectorFS.executed (Demo.after Demo.write_twice))
     = ["a.txt"; "b.txt"]
  /\ size (VectorFS.bucket w) = 1%nat
  /\ VectorFS.FileName <$> (VectorFS.files (VectorFS.db w) !! ("ns", dg))
     = Some "a.txt"
  /\ VectorFS.FileName <$> (VectorFS.files (VectorFS.db w) !! ("ns", dg))
     <> Some "b.txt".
Proof. vm_compute. repeat split. discriminate. Qed.

Lemma C1_witness :
  let t1 := VectorFS.mkTask "ns" "a.txt" Demo.payload in
  let t2 := VectorFS.mkTask "ns" "b.txt" Demo.payload in
  let w1 := snd (VectorFS.Indexer.PrepareDocument Demo.svc "ns"
                   (VectorFS.digest t1) "a.txt" "payload" Demo.world_ns) in
  let w2 := snd (VectorFS.Indexer.IndexDocument Demo.svc "ns"
                   (VectorFS.digest t2) "b.txt" "payload" w1) in
  VectorFS.Indexer.PrepareDocument Demo.svc "ns" (VectorFS.digest t1) "a.txt"
    "payload" Demo.world_ns = (VectorFS.Ok false, w1)
  /\ VectorFS.digest t2 = VectorFS.digest t1
  /\ VectorFS.bucket w1
     = <[VectorFS.S3Client.buildKey Demo.svc "ns" (VectorFS.digest t1)
         := Demo.payload]> (VectorFS.bucket Demo.world_ns)
  /\ VectorFS.bucket w2 = VectorFS.bucket w1
  /\ VectorFS.db w2 = VectorFS.db w1
  /\ VectorFS.trace w2
     = VectorFS.trace w1 ++ [VectorFS.DbFileExists "ns" (VectorFS.digest t2)]
  /\ VectorFS.FileName <$>
       (VectorFS.files (VectorFS.db w2) !! ("ns", VectorFS.digest t1))
     = Some "a.txt".
Proof.
  intros t1 t2 w1 w2.
  assert (VectorFS.Indexer.PrepareDocument Demo.svc "ns" (VectorFS.digest t1)
            "a.txt" "payload" Demo.world_ns = (VectorFS.Ok false, w1)) as H.
  { subst w1.
    rewrite (surjective_pairing
               (VectorFS.Indexer.PrepareDocument Demo.svc "ns"
                  (VectorFS.digest t1) "a.txt" "payload" Demo.world_ns)).
    replace (fst (VectorFS.Indexer.PrepareDocument Demo.svc "ns"
                    (VectorFS.digest t1) "a.txt" "payload" Demo.world_ns))
      with (VectorFS.Ok false) by (vm_compute; reflexivity).
    reflexivity. }
  split; [exact H|].
  exact (C1_same_content_is_stored_once Demo.svc "ns" "a.txt" "b.txt"
           Demo.payload Demo.world_ns w1 H).
Defined.

(** ** The local backend's write *)

Section LocalWrite.

Import VectorFS LocalFS.

Lemma has_flag_None (f : WriteFlag) : has_flag WriteFlagNone f = false.
Proof. reflexivity. Qed.

Lemma write_at_empty (bytes : list byte) : write_at [] 0 bytes = bytes.
Proof.
  unfold write_at, zero_fill. simpl. now rewrite skipn_nil, app_nil_r.
Qed.

Lemma write_at_beyond (cur bytes : list byte) (pos : nat) :
  (length cur <= pos)%nat ->
  write_at cur pos bytes = cur ++ repeat x00 (pos - length cur) ++ bytes.
Proof.
  intros Hle. unfold write_at, zero_fill.
  assert (length (cur ++ repeat x00 (pos - length cur)) = pos) as Hlen.
  { rewrite length_app, repeat_length. lia. }
  rewrite firstn_all2 by lia. rewrite skipn_all2 by lia.
  now rewrite app_nil_r, <- app_assoc.
Qed.

Lemma lookup_repeat {A} (x : A) (n i : nat) :
  (i < n)%nat -> repeat x n !! i = Some x.
Proof.
  revert i. induction n as [|n IH]; intros i Hi; [lia|].
  destruct i as [|i]; [reflexivity|]. simpl. apply IH. lia.
Qed.

(** C8.  A write to a path that holds no file, with flags that do not
    request creation, fails and changes nothing, except for the
    compatibility clause: when the flags are exactly [None] and the offset
    is [-1] the file is created with the bytes written and the write
    succeeds. *)
Theorem C8_write_to_missing_file (path : string) (bytes : list byte)
    (offset : Z) (flags : WriteFlag) (fs : gmap string (list byte)) :
  fs !! path = None ->
  has_flag flags WriteFlagCreate = false ->
  (flags = WriteFlagNone /\ offset = -1 ->
     Write path bytes offset flags fs
     = (Ok (Z.of_nat (length bytes)), <[path := bytes]> fs))
  /\ (~ (flags = WriteFlagNone /\ offset = -1) ->
        is_ok (fst (Write path bytes offset flags fs)) = false
        /\ snd (Write path bytes offset flags fs) = fs).
Proof.
  intros Hnone Hcreate. split.
  - intros [-> ->]. unfold Write. rewrite Hnone. simpl.
    unfold position. rewrite !has_flag_None. simpl.
    now rewrite write_at_empty.
  - intros Hnot. unfold Write. rewrite Hnone, Hcreate.
    destruct (has_flag flags WriteFlagExclusive); simpl; [now split|].
    destruct (Z.eqb_spec flags WriteFlagNone) as [Hf|Hf]; simpl; [|now split].
    destruct (Z.eqb_spec offset (-1)) as [Ho|Ho]; simpl; [|now split].
    exfalso. apply Hnot. now split.
Qed.

(** C9.  A write with flags [None] at an offset beyond the end of an
    existing file succeeds; the file becomes its old bytes, zero bytes up
    to the offset, then the bytes written, [off + len(data)] bytes in
    all. *)
Theorem C9_offset_hole_fill (path : string) (cur bytes : list byte)
    (off : Z) (fs : gmap string (list byte)) :
  fs !! path = Some cur ->
  Z.of_nat (length cur) < off ->
  let new := cur ++ repeat x00 (Z.to_nat off - length cur) ++ bytes in
  Write path bytes off WriteFlagNone fs
  = (Ok (Z.of_nat (length bytes)), <[path := new]> fs)
  /\ Z.of_nat (length new) = off + Z.of_nat (length bytes)
  /\ firstn (length cur) new = cur
  /\ (forall i, (length cur <= i < Z.to_nat off)%nat -> new !! i = Some x00)
  /\ skipn (Z.to_nat off) new = bytes.
Proof.
  intros Hcur Hoff new. split; [|split; [|split; [|split]]].
  - unfold Write. rewrite Hcur. simpl.
    unfold position. rewrite !has_flag_None.
    assert ((0 <=? off) = true) as -> by lia.
    rewrite write_at_beyond by lia. reflexivity.
  - subst new. rewrite !length_app, repeat_length. lia.
  - subst new. rewrite firstn_app, Nat.sub_diag, firstn_all. simpl.
    now rewrite app_nil_r.
  - intros i Hi. subst new.
    rewrite lookup_app_r by lia. rewrite lookup_app_l.
    + apply lookup_repeat. lia.
    + rewrite repeat_length. lia.
  - subst new. rewrite app_assoc. rewrite skipn_app.
    rewrite skipn_all2 by (rewrite length_app, repeat_length; lia).
    rewrite length_app, repeat_length.
    replace (Z.to_nat off - (length cur + (Z.to_nat off - length cur)))%nat
      with O by lia.
    reflexivity.
Qed.

End LocalWrite.

Lemma C8_witness :
  let bytes := list_byte_of_string "Hello" in
  let fs : gmap string (list byte) := ∅ in
  (fs !! "/nonexistent.txt" = None
   /\ VectorFS.has_flag VectorFS.WriteFlagNone VectorFS.WriteFlagCreate = false)
  /\ (VectorFS.WriteFlagNone = VectorFS.WriteFlagNone /\ -1 = -1 ->
        LocalFS.Write "/nonexistent.txt" bytes (-1) VectorFS.WriteFlagNone fs
        = (VectorFS.Ok (Z.of_nat (length bytes)),
           <["/nonexistent.txt" := bytes]> fs))
  /\ (~ (VectorFS.WriteFlagNone = VectorFS.WriteFlagNone /\ -1 = -1) ->
        VectorFS.is_ok (fst (LocalFS.Write "/nonexistent.txt" bytes (-1)
                               VectorFS.WriteFlagNone fs)) = false
        /\ snd (LocalFS.Write "/nonexistent.txt" bytes (-1)
                  VectorFS.WriteFlagNone fs) = fs).
Proof.
  intros bytes fs. split; [split; reflexivity|].
  exact (C8_write_to_missing_file "/nonexistent.txt" bytes (-1)
           VectorFS.WriteFlagNone fs eq_refl eq_refl).
Defined.

Lemma C9_witness :
  let hello := list_byte_of_string "Hello" in
  let world := list_byte_of_string "World" in
  let fs : gmap string (list byte) := <["/a" := hello]> ∅ in
  let new := hello ++ repeat x00 (Z.to_nat 10 - length hello) ++ world in
  (fs !! "/a" = Some hello /\ Z.of_nat (length hello) < 10)
  /\ LocalFS.Write "/a" world 10 VectorFS.WriteFlagNone fs
     = (VectorFS.Ok (Z.of_nat (length world)), <["/a" := new]> fs)
  /\ Z.of_nat (length new) = 10 + Z.of_nat (length world)
  /\ firstn (length hello) new = hello
  /\ (forall i, (length hello <= i < Z.to_nat 10)%nat -> new !! i = Some x00)
  /\ skipn (Z.to_nat 10) new = world.
Proof.
  intros hello world fs new.
  assert (fs !! "/a" = Some hello) as Hcur by apply lookup_insert_eq.
  assert (Z.of_nat (length hello) < 10) as Hoff by (simpl; lia).
  split; [split; assumption|].
  exact (C9_offset_hole_fill "/a" hello world 10 fs Hcur Hoff).
Defined.

(** * Further properties of the plugin *)

(** ** Paths, in general *)

Section PathsInGeneral.

Import VectorFS.

Lemma SplitN2_head (s : string) :
  exists f fs, SplitN2 s = f :: fs /\ no_slash f = true.
Proof.
  induction s as [|c s (f & fs & IH & Hf)]; simpl.
  - now exists EmptyString, [].
  - destruct (Ascii.eqb c slash) eqn:Ec.
    + now exists EmptyString, [s].
    + rewrite IH. exists (String c f), fs. simpl. now rewrite Ec, Hf.
Qed.


(** X1.  [parsePath] returns no error, whatever the path: the "invalid
    path" branch cannot be taken, and the namespace it answers holds no slash.
    On a path that starts with a slash the namespace is empty (the root,
    with an empty relative path) or a path element, and the relative path
    is empty or a clean sequence of elements. *)
Theorem parsePath_shape (path rest : string) :
  (exists ns rel, parsePath path = Ok (ns, rel) /\ no_slash ns = true)
  /\ (exists ns rel,
        parsePath (String slash rest) = Ok (ns, rel)
        /\ ((ns = EmptyString /\ rel = EmptyString) \/ is_name ns = true)
        /\ (rel = EmptyString \/ clean_rel rel = true)).
Proof.
  split.
  - unfold parsePath.
    destruct (_ || _); [now exists EmptyString, EmptyString|].
    destruct (SplitN2_head (TrimPrefix (Clean path) "/"))
      as (f & fs & -> & Hf).
    destruct fs as [|r fs]; eauto.
  - destruct (parsePath_rooted rest) as (names & Hnames & ->).
    destruct names as [|ns es]; [exists EmptyString, EmptyString; auto|].
    simpl in Hnames. apply andb_prop in Hnames as [Hns Hes].
    exists ns, (join_slash es). split; [reflexivity|]. split; [now right|].
    destruct es as [|e es]; [now left|]. right.
    unfold clean_rel. rewrite split_join_names; [exact Hes|discriminate|exact Hes].
Qed.


End PathsInGeneral.

Example parsePath_untidy :
  VectorFS.parsePath "//ns/./docs/x/../a.txt/"
  = VectorFS.parsePath "/ns/docs/a.txt".
Proof. reflexivity. Qed.

(** ** The tree the view shows *)

Section Tree.

Import VectorFS VectorFSRest.

Variable svc : Services.

Lemma untraced_no_fault {A} (name : string) (body : M A) (w : World) :
  faults w = [] -> untraced name body w = body w.
Proof. unfold untraced, next_fault. now intros ->. Qed.

Lemma untraced_inv {A} (name : string) (body : M A) (w : World) :
  exists w1,
    bucket w1 = bucket w /\ db w1 = db w /\ clock w1 = clock w
    /\ trace w1 = trace w
    /\ (untraced name body w = (Err (ErrService name), w1)
        \/ untraced name body w = body w1).
Proof.
  unfold untraced, next_fault.
  destruct (faults w) as [|[] rest] eqn:E.
  - exists w. repeat split. now right.
  - exists (set_faults rest w). repeat split. now left.
  - exists (set_faults rest w). repeat split. now right.
Qed.

Lemma clean_rel_not_empty (rel : string) :
  clean_rel rel = true ->
  String.eqb rel "" = false /\ String.eqb rel "/" = false.
Proof.
  intros H. split; apply String.eqb_neq; intros ->; discriminate H.
Qed.

Lemma docs_rel_eqb (rel : string) :
  String.eqb ("docs/" +:+ rel) "" = false
  /\ String.eqb ("docs/" +:+ rel) "docs" = false
  /\ String.eqb ("docs/" +:+ rel) ".indexing" = false.
Proof. repeat split. Qed.

Lemma document_path_neq (ns rel : string) :
  String.eqb ("/" +:+ ns +:+ "/docs/" +:+ rel) "/" = false
  /\ String.eqb ("/" +:+ ns +:+ "/docs/" +:+ rel) "/README" = false.
Proof.
  split.
  - now apply (below_root_neq ns ("docs/" +:+ rel) "").
  - now apply (below_root_neq ns ("docs/" +:+ rel) "README").
Qed.

(** X3.  [Stat] never finds anything below [docs/]: for every namespace and
    every clean relative path, [Stat] of [/<ns>/docs/<rel>] answers
    [ErrNotFound] without consulting any service, whether or not a
    document of that name is registered and readable. *)
Theorem Stat_below_docs_not_found (ns rel : string) (w : World) :
  is_name ns = true -> clean_rel rel = true ->
  Stat svc ("/" +:+ ns +:+ "/docs/" +:+ rel) w = (Err ErrNotFound, w).
Proof.
  intros Hns Hrel. unfold Stat.
  destruct (document_path_neq ns rel) as [-> ->].
  rewrite (parsePath_docs ns rel Hns Hrel).
  destruct (docs_rel_eqb rel) as (-> & -> & ->). reflexivity.
Qed.

Lemma namespace_path_eqb (ns : string) :
  is_name ns = true ->
  String.eqb ("/" +:+ ns) "/" = false /\ String.eqb ns "" = false.
Proof.
  intros Hns. destruct ns as [|c ns]; [discriminate|]. now split.
Qed.

Lemma parsePath_namespace (ns : string) :
  is_name ns = true -> parsePath ("/" +:+ ns) = Ok (ns, EmptyString).
Proof. intros Hns. exact (parsePath_names ns [] Hns eq_refl). Qed.

Lemma parsePath_entry (ns e : string) :
  is_name ns = true -> is_name e = true ->
  parsePath ("/" +:+ ns +:+ "/" +:+ e) = Ok (ns, e).
Proof.
  intros Hns He. apply parsePath_clean; [exact Hns|].
  unfold clean_rel. rewrite split_slash_no_slash by now apply is_name_no_slash.
  simpl. now rewrite He.
Qed.

Lemma Stat_docs (ns : string) (w : World) :
  is_name ns = true ->
  Stat svc ("/" +:+ ns +:+ "/docs") w
  = (Ok (info "docs" 0 493 (clock w) true "docs"), set_clock (S (clock w)) w).
Proof.
  intros Hns. unfold Stat.
  assert (String.eqb ("/" +:+ ns +:+ "/docs") "/" = false) as ->
    by (apply (below_root_neq ns "docs" ""); reflexivity).
  assert (String.eqb ("/" +:+ ns +:+ "/docs") "/README" = false) as ->
    by (apply (below_root_neq ns "docs" "README"); reflexivity).
  assert (parsePath ("/" +:+ ns +:+ "/docs") = Ok (ns, "docs")) as ->
    by (apply (parsePath_entry ns "docs" Hns); reflexivity).
  reflexivity.
Qed.

(** X4.  The listing of a namespace directory is fixed: [docs], a
    directory, and [.indexing], a 4-byte file, whether or not the namespace
    exists (no service is asked).  [Stat] of each listed entry agrees with
    the listing on name, size, mode, kind and metadata. *)
Theorem ReadDir_namespace (ns : string) (w : World) :
  is_name ns = true ->
  let t := clock w in
  let w' := set_clock (S t) w in
  ReadDir svc ("/" +:+ ns) w
  = (Ok [ info "docs" 0 493 t true "docs";
          info ".indexing" 4 292 t false "status" ], w')
  /\ fst (Stat svc ("/" +:+ ns +:+ "/docs") w')
     = Ok (info "docs" 0 493 (S t) true "docs")
  /\ fst (Stat svc ("/" +:+ ns +:+ "/.indexing") w')
     = Ok (info ".indexing" 4 292 (S t) false "status").
Proof.
  intros Hns t w'. split; [|split].
  - unfold ReadDir. rewrite (parsePath_namespace ns Hns).
    destruct (namespace_path_eqb ns Hns) as [-> ->]. reflexivity.
  - now rewrite (Stat_docs ns w' Hns).
  - now rewrite (Stat_indexing svc ns w' Hns).
Qed.

(** X5.  When the database answers, the listing of the root is the README
    entry followed by exactly one directory entry per namespace that has
    tables: the entries after the README are those of a list of names
    without repetition, whose members are the existing namespaces. *)
Theorem ReadDir_root (w : World) :
  faults w = [] ->
  let t := clock w in
  exists names,
    fst (ReadDir svc "/" w)
    = Ok (info "README" (Z.of_nat (String.length (readme svc))) 292 t false
            "doc"
          :: map (fun n => info n 0 493 t true "namespace") names)
    /\ NoDup names
    /\ (forall n, n ∈ names <-> n ∈ tables (db w)).
Proof.
  intros Hf t. exists (elements (tables (db w))). split; [|split].
  - unfold ReadDir. simpl. unfold bind, now, Clients.ListNamespaces.
    rewrite untraced_no_fault by exact Hf. simpl. reflexivity.
  - apply NoDup_elements.
  - intros n. apply elem_of_elements.
Qed.

(** X6.  Below [docs/] a directory can be made and never seen: for every
    clean relative path, [Mkdir] of [/<ns>/docs/<rel>] succeeds and changes
    nothing, and [ReadDir] of the same path answers "not a directory". *)
Theorem Mkdir_below_docs_is_virtual (ns rel : string) (perm : Z) (w : World) :
  is_name ns = true -> clean_rel rel = true ->
  Mkdir svc ("/" +:+ ns +:+ "/docs/" +:+ rel) perm w = (Ok tt, w)
  /\ fst (ReadDir svc ("/" +:+ ns +:+ "/docs/" +:+ rel) w)
     = Err (Errorf "not a directory" []).
Proof.
  intros Hns Hrel. split.
  - unfold Mkdir. rewrite (parsePath_docs ns rel Hns Hrel).
    destruct (docs_rel_eqb rel) as (-> & _ & _). simpl.
    now rewrite HasPrefix_append.
  - unfold ReadDir. rewrite (parsePath_docs ns rel Hns Hrel).
    destruct (document_path_neq ns rel) as [-> _].
    destruct (namespace_path_eqb ns Hns) as [_ ->].
    destruct (docs_rel_eqb rel) as (-> & -> & _). reflexivity.
Qed.

End Tree.

(** ** Namespaces and read-only operations *)

Section Namespaces.

Import VectorFS VectorFSRest.

Variable svc : Services.

Lemma Mkdir_namespace (ns : string) (perm : Z) (w : World) :
  faults w = [] -> is_name ns = true ->
  Mkdir svc ("/" +:+ ns) perm w
  = (Ok tt,
     set_db {| tables := {[ns]} ∪ tables (db w);
               files := files (db w);
               chunks := chunks (db w) |}
       (log_event (DbCreateNamespace ns (dimension svc)) w)).
Proof.
  intros Hf Hns. unfold Mkdir. rewrite (parsePath_namespace ns Hns). simpl.
  destruct (namespace_path_eqb ns Hns) as [_ ->].
  unfold TiDBClient.CreateNamespace. now rewrite service_no_fault.
Qed.

Lemma RemoveAll_namespace (ns : string) (w : World) :
  faults w = [] -> is_name ns = true ->
  RemoveAll ("/" +:+ ns) w
  = (Ok tt,
     set_db {| tables := tables (db w) ∖ {[ns]};
               files := filter (fun kv => fst (fst kv) ≠ ns) (files (db w));
               chunks := filter (fun kv => fst (fst (fst kv)) ≠ ns)
                                (chunks (db w)) |}
       (log_event (DbDeleteNamespace ns) w)).
Proof.
  intros Hf Hns. unfold RemoveAll. rewrite (parsePath_namespace ns Hns). simpl.
  destruct (namespace_path_eqb ns Hns) as [_ ->].
  unfold TiDBClient.DeleteNamespace. now rewrite service_no_fault.
Qed.

Lemma namespace_not_README (ns : string) :
  ns <> "README"%string -> String.eqb ("/" +:+ ns) "/README" = false.
Proof.
  intros Hne. apply String.eqb_neq. intros Heq. injection Heq as Heq.
  contradiction.
Qed.

(** X7.  [Stat] of a namespace directory never reports a failure of the
    database.  Its answer is determined by the existence check: when the
    check fails the answer is [ErrNotFound]; when it succeeds the answer is
    the directory entry of the namespace if the namespace exists, and
    [ErrNotFound] if it does not. *)
Theorem Stat_namespace_masks_failures (ns : string) (w : World) :
  is_name ns = true -> ns <> "README"%string ->
  fst (Stat svc ("/" +:+ ns) w)
  = match faults w with
    | true :: _ => Err ErrNotFound
    | _ => if bool_decide (ns ∈ tables (db w))
           then Ok (info ns 0 493 (clock w) true "namespace")
           else Err ErrNotFound
    end.
Proof.
  intros Hns Hne. unfold Stat.
  destruct (namespace_path_eqb ns Hns) as [-> _].
  rewrite (namespace_not_README ns Hne), (parsePath_namespace ns Hns).
  simpl. unfold TiDBClient.NamespaceExists, service, next_fault. simpl.
  destruct (faults w) as [|[] rest]; simpl; [|reflexivity|];
    unfold TiDBClient.on_db; simpl;
    now destruct (bool_decide (ns ∈ tables (db w))).
Qed.

(** X8.  A namespace called README can be made but not seen: [Mkdir] of
    [/README] creates its tables, and [Stat] of [/README] still answers the
    README file, which is not a directory. *)
Theorem README_namespace_is_shadowed (perm : Z) (w : World) :
  faults w = [] ->
  let w1 := snd (Mkdir svc "/README" perm w) in
  fst (Mkdir svc "/README" perm w) = Ok tt
  /\ "README"%string ∈ tables (db w1)
  /\ fst (Stat svc "/README" w1)
     = Ok (info "README" (Z.of_nat (String.length (readme svc))) 292
             (clock w) false "doc").
Proof.
  intros Hf w1. subst w1.
  pose proof (Mkdir_namespace "README" perm w Hf eq_refl) as HM.
  change ("/" +:+ "README") with "/README" in HM. rewrite HM. simpl.
  split; [reflexivity|].
  split; [apply elem_of_union_l; now apply elem_of_singleton|reflexivity].
Qed.

(** X9.  Making a namespace, looking at it, and removing it: when the
    database answers, [Mkdir] of [/<ns>] makes [Stat] of [/<ns>] answer a
    directory, and [RemoveAll] of [/<ns>] makes it answer [ErrNotFound]
    again. *)
Theorem namespace_round_trip (ns : string) (perm : Z) (w : World) :
  faults w = [] -> is_name ns = true -> ns <> "README"%string ->
  let w1 := snd (Mkdir svc ("/" +:+ ns) perm w) in
  let w2 := snd (RemoveAll ("/" +:+ ns) w1) in
  fst (Mkdir svc ("/" +:+ ns) perm w) = Ok tt
  /\ fst (Stat svc ("/" +:+ ns) w1)
     = Ok (info ns 0 493 (clock w) true "namespace")
  /\ fst (RemoveAll ("/" +:+ ns) w1) = Ok tt
  /\ fst (Stat svc ("/" +:+ ns) w2) = Err ErrNotFound.
Proof.
  intros Hf Hns Hne w1 w2. subst w2 w1.
  rewrite (Mkdir_namespace ns perm w Hf Hns). simpl.
  rewrite RemoveAll_namespace by (exact Hf || exact Hns). simpl.
  split; [reflexivity|].
  assert (forall w', faults w' = [] ->
            fst (Stat svc ("/" +:+ ns) w')
            = if bool_decide (ns ∈ tables (db w'))
              then Ok (info ns 0 493 (clock w') true "namespace")
              else Err ErrNotFound) as HStat.
  { intros w' Hf'. unfold Stat.
    destruct (namespace_path_eqb ns Hns) as [-> _].
    rewrite (namespace_not_README ns Hne), (parsePath_namespace ns Hns).
    simpl. unfold TiDBClient.NamespaceExists.
    rewrite service_no_fault by exact Hf'. unfold TiDBClient.on_db. simpl.
    now destruct (bool_decide (ns ∈ tables (db w'))). }
  split; [|split; [reflexivity|]].
  - rewrite HStat by exact Hf. simpl.
    rewrite bool_decide_eq_true_2; [reflexivity|].
    apply elem_of_union_l. now apply elem_of_singleton.
  - rewrite HStat by exact Hf. simpl.
    rewrite bool_decide_eq_false_2; [reflexivity|].
    intros [_ Hn]%elem_of_difference. apply Hn. now apply elem_of_singleton.
Qed.

End Namespaces.

(** ** Operations that only read *)

Section ReadOnly.

Import VectorFS VectorFSRest.

Variable svc : Services.

Lemma keeps_ret {A} (a : A) : keeps_stores (ret a).
Proof. now intros w. Qed.

Lemma keeps_fail {A} (e : error) : keeps_stores (@fail A e).
Proof. now intros w. Qed.

Lemma keeps_now : keeps_stores now.
Proof. now intros w. Qed.

Lemma keeps_bind {A B} (m : M A) (k : A -> M B) :
  keeps_stores m -> (forall a, keeps_stores (k a)) -> keeps_stores (bind m k).
Proof.
  intros Hm Hk w. unfold bind. specialize (Hm w).
  destruct (m w) as [[a|e] w1]; simpl in *; [|exact Hm].
  destruct (Hk a w1) as [Hb Hd]. destruct Hm as [Hb1 Hd1].
  split; congruence.
Qed.

Lemma keeps_wrap {A} (format : string) (m : M A) :
  keeps_stores m -> keeps_stores (wrap format m).
Proof.
  intros Hm w. unfold wrap. specialize (Hm w).
  now destruct (m w) as [[a|e] w1].
Qed.

Lemma keeps_service {A} (name : string) (ev : Event) (body : M A) :
  keeps_stores body -> keeps_stores (service name ev body).
Proof.
  intros Hbody w.
  destruct (service_inv name ev body w) as (w1 & Hb & Hd & _ & _ & [Hs|Hs]);
    rewrite Hs; [now split|].
  destruct (Hbody w1) as [Hb1 Hd1]. split; congruence.
Qed.

Lemma keeps_untraced {A} (name : string) (body : M A) :
  keeps_stores body -> keeps_stores (untraced name body).
Proof.
  intros Hbody w.
  destruct (untraced_inv name body w) as (w1 & Hb & Hd & _ & _ & [Hs|Hs]);
    rewrite Hs; [now split|].
  destruct (Hbody w1) as [Hb1 Hd1]. split; congruence.
Qed.

Lemma keeps_query {A} (f : DB -> result A) :
  keeps_stores (TiDBClient.on_db (fun d => (f d, d))).
Proof. intros w. unfold TiDBClient.on_db. simpl. split; [reflexivity|]. now destruct w. Qed.

Lemma keeps_table_query {A} (ns : string) (f : DB -> result A) :
  keeps_stores (TiDBClient.with_tables ns (fun d => (f d, d))).
Proof.
  intros w. unfold TiDBClient.with_tables, TiDBClient.on_db.
  destruct (decide (ns ∈ tables (db w))); simpl;
    (split; [reflexivity|now destruct w]).
Qed.

Lemma keeps_mkFileInfo (name : string) (size mode : Z) (isDir : bool)
    (type : string) :
  keeps_stores (mkFileInfo name size mode isDir type).
Proof. now intros w. Qed.

Lemma keeps_Read (path : string) (offset size : Z) :
  keeps_stores (Read svc path offset size).
Proof.
  unfold Read. destruct (String.eqb path "/README"); [apply keeps_ret|].
  destruct (parsePath path) as [[ns rel]|e]; [|apply keeps_fail].
  destruct (String.eqb rel ".indexing"); [apply keeps_ret|].
  destruct (negb (HasPrefix rel "docs/")); [apply keeps_fail|].
  destruct (_ || _); [apply keeps_fail|].
  apply keeps_bind.
  - apply keeps_wrap, keeps_service.
    intros w. unfold TiDBClient.with_tables, TiDBClient.on_db.
    destruct (decide (ns ∈ tables (db w))); simpl;
      [|split; [reflexivity|now destruct w]].
    destruct (List.find _ _); simpl; (split; [reflexivity|now destruct w]).
  - intros meta. apply keeps_bind; [|intros; apply keeps_ret].
    apply keeps_wrap, keeps_service. intros w.
    now destruct (bucket w !! _).
Qed.

Lemma keeps_Stat (path : string) : keeps_stores (Stat svc path).
Proof.
  unfold Stat. destruct (String.eqb path "/"); [apply keeps_mkFileInfo|].
  destruct (String.eqb path "/README"); [apply keeps_mkFileInfo|].
  destruct (parsePath path) as [[ns rel]|e]; [|apply keeps_fail].
  destruct (String.eqb rel "").
  - intros w.
    pose proof (keeps_service "tidb.NamespaceExists" (DbNamespaceExists ns)
                  (TiDBClient.on_db (fun d =>
                     (Ok (bool_decide (ns ∈ tables d)), d)))
                  (keeps_query _) w) as Hk.
    unfold TiDBClient.NamespaceExists.
    destruct (service _ _ _ w) as [[[|]|e] w1]; exact Hk.
  - destruct (String.eqb rel "docs"); [apply keeps_mkFileInfo|].
    destruct (String.eqb rel ".indexing");
      [apply keeps_mkFileInfo|apply keeps_fail].
Qed.

Lemma keeps_ReadDir (path : string) : keeps_stores (ReadDir svc path).
Proof.
  unfold ReadDir.
  destruct (parsePath path) as [[ns rel]|e]; [|apply keeps_fail].
  apply keeps_bind; [apply keeps_now|]. intros t.
  destruct (_ || _).
  - apply keeps_bind; [|intros; apply keeps_ret].
    apply keeps_untraced, (keeps_query (fun d => Ok (elements (tables d)))).
  - destruct (String.eqb rel ""); [apply keeps_ret|].
    destruct (String.eqb rel "docs"); [|apply keeps_fail].
    apply keeps_bind; [|intros; apply keeps_ret].
    apply keeps_untraced, (keeps_table_query ns (fun d => Ok (Clients.rows_of ns d))).
Qed.

Lemma keeps_CustomGrep (path query : string) :
  keeps_stores (CustomGrep svc path query).
Proof.
  unfold CustomGrep.
  destruct (parsePath path) as [[ns rel]|e]; [|apply keeps_fail].
  destruct (_ && _); [apply keeps_fail|].
  unfold VectorSearch. apply keeps_bind.
  - apply keeps_wrap, keeps_service, keeps_ret.
  - intros q. apply keeps_bind; [|intros; apply keeps_ret].
    apply keeps_wrap, keeps_service.
    apply (keeps_table_query ns (fun d => Ok (nearest svc d ns q 10))).
Qed.

(** X10.  The operations that read never write: whatever the path, the
    arguments and the failures of the services, [Read], [Stat], [ReadDir]
    and [CustomGrep] leave the object store and the database exactly as
    they found them. *)
Theorem reading_keeps_the_stores (path query : string) (offset size : Z) :
  keeps_stores (Read svc path offset size)
  /\ keeps_stores (Stat svc path)
  /\ keeps_stores (ReadDir svc path)
  /\ keeps_stores (CustomGrep svc path query).
Proof.
  split; [apply keeps_Read|]. split; [apply keeps_Stat|].
  split; [apply keeps_ReadDir|apply keeps_CustomGrep].
Qed.

End ReadOnly.

(** ** What the indexing pipeline does to the stores *)

Section Pipeline.

Import VectorFS VectorFSRest.

Variable svc : Services.

Lemma FileExists_cases (ns dg : string) (w : World) :
  exists w1,
    bucket w1 = bucket w /\ db w1 = db w
    /\ ((exists e, TiDBClient.FileExists ns dg w = (Err e, w1))
        \/ (ns ∈ tables (db w)
            /\ TiDBClient.FileExists ns dg w
               = (Ok (bool_decide (is_Some (files (db w) !! (ns, dg)))), w1))).
Proof.
  unfold TiDBClient.FileExists.
  match goal with
  | |- context [service ?n ?e ?b w] =>
      destruct (service_inv n e b w) as (w1 & Hb & Hd & _ & _ & [Hs|Hs]);
        rewrite Hs
  end.
  - exists w1. eauto 6.
  - unfold TiDBClient.with_tables, TiDBClient.on_db. rewrite Hd.
    exists (set_db (db w) w1).
    destruct (decide (ns ∈ tables (db w))) as [Hin|Hout]; simpl; eauto 6.
Qed.

Lemma UploadDocument_cases (ns dg : string) (body : list byte) (w : World) :
  exists w1,
    db w1 = db w
    /\ ((exists e, S3Client.UploadDocument svc ns dg body w = (Err e, w1)
                   /\ bucket w1 = bucket w)
        \/ (S3Client.UploadDocument svc ns dg body w = (Ok tt, w1)
            /\ bucket w1 = <[S3Client.buildKey svc ns dg := body]> (bucket w))).
Proof.
  unfold S3Client.UploadDocument.
  match goal with
  | |- context [service ?n ?e ?b w] =>
      destruct (service_inv n e b w) as (w1 & Hb & Hd & _ & _ & [Hs|Hs]);
        rewrite Hs
  end.
  - exists w1. eauto 6.
  - exists (set_bucket (<[S3Client.buildKey svc ns dg := body]> (bucket w1)) w1).
    simpl. split; [exact Hd|]. right. split; [reflexivity|]. now rewrite Hb.
Qed.

Lemma InsertFileMetadata_cases (ns : string) (m : FileMetadata) (w : World) :
  exists w1,
    bucket w1 = bucket w /\ tables (db w1) = tables (db w)
    /\ chunks (db w1) = chunks (db w)
    /\ ((exists e, TiDBClient.InsertFileMetadata ns m w = (Err e, w1)
                   /\ files (db w1) = files (db w))
        \/ (ns ∈ tables (db w)
            /\ TiDBClient.InsertFileMetadata ns m w = (Ok tt, w1)
            /\ files (db w1) = <[(ns, FileDigest m) := m]> (files (db w)))).
Proof.
  unfold TiDBClient.InsertFileMetadata.
  match goal with
  | |- context [service ?n ?e ?b w] =>
      destruct (service_inv n e b w) as (w1 & Hb & Hd & _ & _ & [Hs|Hs]);
        rewrite Hs
  end.
  - exists w1. rewrite Hd. eauto 8.
  - unfold TiDBClient.with_tables, TiDBClient.on_db. rewrite Hd.
    destruct (decide (ns ∈ tables (db w))) as [Hin|Hout].
    + exists (set_db {| tables := tables (db w);
                        files := <[(ns, FileDigest m) := m]> (files (db w));
                        chunks := chunks (db w) |} w1).
      simpl. repeat split; [exact Hb|]. right. auto.
    + exists (set_db (db w) w1).
      simpl. repeat split; [exact Hb|]. left. eauto.
Qed.

Lemma InsertChunk_cases (ns dg : string) (idx : Z) (text : string)
    (e : Embedding) (w : World) :
  let w1 := snd (TiDBClient.InsertChunk ns dg idx text e w) in
  bucket w1 = bucket w /\ tables (db w1) = tables (db w)
  /\ files (db w1) = files (db w).
Proof.
  unfold TiDBClient.InsertChunk.
  match goal with
  | |- context [service ?n ?e ?b w] =>
      destruct (service_inv n e b w) as (w1 & Hb & Hd & _ & _ & [Hs|Hs])
  end; rewrite Hs; simpl; [now rewrite Hd|].
  unfold TiDBClient.with_tables, TiDBClient.on_db. rewrite Hd.
  destruct (decide (ns ∈ tables (db w))); simpl; auto.
Qed.

(** The three things the prepare phase can have done when it returns:
    nothing; the upload alone (and then it has failed); or the upload and
    the registration of a digest that was not yet registered. *)
Lemma PrepareDocument_effect (ns dg fname content : string) (w : World) :
  let out := Indexer.PrepareDocument svc ns dg fname content w in
  let key := S3Client.buildKey svc ns dg in
  let body := list_byte_of_string content in
  tables (db (snd out)) = tables (db w)
  /\ chunks (db (snd out)) = chunks (db w)
  /\ ((bucket (snd out) = bucket w /\ files (db (snd out)) = files (db w)
       /\ fst out <> Ok false)
      \/ (bucket (snd out) = <[key := body]> (bucket w)
          /\ files (db (snd out)) = files (db w)
          /\ is_ok (fst out) = false)
      \/ (bucket (snd out) = <[key := body]> (bucket w)
          /\ files (db w) !! (ns, dg) = None
          /\ ns ∈ tables (db w)
          /\ fst out = Ok false
          /\ exists m, FileName m = fname /\ FileDigest m = dg
               /\ S3Key m = key
               /\ FileSize m = Z.of_nat (String.length content)
               /\ files (db (snd out)) = <[(ns, dg) := m]> (files (db w)))).
Proof.
  intros out key body. subst out key body.
  unfold Indexer.PrepareDocument, bind, wrap.
  destruct (FileExists_cases ns dg w) as (w1 & Hb1 & Hd1 & [[e He]|[Hin He]]);
    rewrite He; simpl.
  { rewrite Hd1. repeat split. left. now rewrite Hb1. }
  destruct (bool_decide_reflect (is_Some (files (db w) !! (ns, dg))))
    as [Hsome|Hnone]; simpl.
  { rewrite Hd1. repeat split. left. now rewrite Hb1. }
  assert (files (db w) !! (ns, dg) = None) as Hfresh.
  { destruct (files (db w) !! (ns, dg)) eqn:E; [|reflexivity].
    exfalso. apply Hnone. eauto. }
  destruct (UploadDocument_cases ns dg (list_byte_of_string content) w1)
    as (w2 & Hd2 & [(e & He2 & Hb2)|[He2 Hb2]]); rewrite He2; simpl.
  { rewrite Hd2, Hd1. repeat split. left. now rewrite Hb2, Hb1. }
  match goal with
  | |- context [TiDBClient.InsertFileMetadata ns ?m ?w0] =>
      destruct (InsertFileMetadata_cases ns m w0)
        as (w3 & Hb3 & Ht3 & Hc3 & [(e & He3 & Hf3)|(Hin3 & He3 & Hf3)]);
        rewrite He3; simpl in *
  end.
  - rewrite Ht3, Hc3, Hd2, Hd1. repeat split. right; left.
    rewrite Hb3, Hb2, Hb1, Hf3, Hd2, Hd1. auto.
  - rewrite Ht3, Hc3, Hd2, Hd1. repeat split. right; right.
    rewrite Hb3, Hb2, Hb1. repeat split; auto.
    eexists. repeat split; [..|rewrite Hf3, Hd2, Hd1; reflexivity];
      reflexivity.
Qed.

Lemma insert_chunks_frame (ns dg : string) (cs : list Chunk)
    (es : list Embedding) (w : World) :
  let w1 := snd (Indexer.insert_chunks ns dg cs es w) in
  bucket w1 = bucket w /\ tables (db w1) = tables (db w)
  /\ files (db w1) = files (db w).
Proof.
  revert es w. induction cs as [|c cs IH]; intros es w; [now simpl|].
  destruct es as [|e es]; [now simpl|].
  simpl. unfold bind, wrap.
  pose proof (InsertChunk_cases ns dg (Index c) (Text c) e w) as H.
  destruct (TiDBClient.InsertChunk ns dg (Index c) (Text c) e w)
    as [[[]|err] w1]; simpl in *; [|exact H].
  destruct (IH es w1) as (Hb & Ht & Hf). destruct H as (Hb1 & Ht1 & Hf1).
  repeat split; congruence.
Qed.

(** The index phase touches the chunks table only. *)
Lemma IndexChunks_frame (ns dg fname content : string) (w : World) :
  let w1 := snd (Indexer.IndexChunks svc ns dg fname content w) in
  bucket w1 = bucket w /\ tables (db w1) = tables (db w)
  /\ files (db w1) = files (db w).
Proof.
  unfold Indexer.IndexChunks, bind, wrap,
    EmbeddingClient.GenerateBatchEmbeddings.
  match goal with
  | |- context [service ?n ?e ?b w] =>
      destruct (service_inv n e b w) as (w1 & Hb & Hd & _ & _ & [Hs|Hs]);
        rewrite Hs; simpl
  end; [now rewrite Hd|].
  match goal with
  | |- context [Indexer.insert_chunks ns dg ?cs ?es w1] =>
      destruct (insert_chunks_frame ns dg cs es w1) as (Hb2 & Ht2 & Hf2)
  end.
  rewrite Hb2, Ht2, Hf2, Hb, Hd. auto.
Qed.

(** What [IndexDocument] can have done to the object store and the files
    table: nothing, an upload alone, or an upload and the registration of a
    digest that was not registered. *)
Lemma IndexDocument_effect (ns dg fname content : string) (w : World) :
  let w' := snd (Indexer.IndexDocument svc ns dg fname content w) in
  let key := S3Client.buildKey svc ns dg in
  let body := list_byte_of_string content in
  tables (db w') = tables (db w)
  /\ ((bucket w' = bucket w /\ files (db w') = files (db w))
      \/ (bucket w' = <[key := body]> (bucket w)
          /\ files (db w') = files (db w))
      \/ (bucket w' = <[key := body]> (bucket w)
          /\ files (db w) !! (ns, dg) = None
          /\ exists m, FileName m = fname /\ FileDigest m = dg
               /\ files (db w') = <[(ns, dg) := m]> (files (db w)))).
Proof.
  intros w' key body. subst w'. unfold Indexer.IndexDocument, bind.
  pose proof (PrepareDocument_effect ns dg fname content w) as H.
  destruct (Indexer.PrepareDocument svc ns dg fname content w)
    as [[[|]|e] w1]; simpl in *.
  - destruct H as (Ht & _ & [(Hb & Hf & _)|[(Hb & Hf & _)|(Hb & Hfr & _ & _ & m & Hn & Hdg & _ & _ & Hf)]]);
      split; eauto 10.
  - pose proof (IndexChunks_frame ns dg fname content w1) as (Hb2 & Ht2 & Hf2).
    rewrite Hb2, Ht2, Hf2.
    destruct H as (Ht & _ & [(Hb & Hf & _)|[(Hb & Hf & _)|(Hb & Hfr & _ & _ & m & Hn & Hdg & _ & _ & Hf)]]);
      split; eauto 10.
  - destruct H as (Ht & _ & [(Hb & Hf & _)|[(Hb & Hf & _)|(Hb & Hfr & _ & _ & m & Hn & Hdg & _ & _ & Hf)]]);
      split; eauto 10.
Qed.

End Pipeline.

(** ** Invariants of the stores under indexing *)

Section StoreInvariants.

Import VectorFS VectorFSRest.

Variable svc : Services.

Lemma DB_eq (d d' : DB) :
  tables d = tables d' -> files d = files d' -> chunks d = chunks d' ->
  d = d'.
Proof. destruct d, d'. simpl. now intros -> -> ->. Qed.

(** X11.  A prepare phase that does not answer "newly registered" has
    registered nothing: the database is untouched (an upload may have
    happened, and its object stays).  When it answers "already exists" the
    object store is untouched as well. *)
Theorem PrepareDocument_registers_only_on_success
    (ns dg fname content : string) (w : World) :
  let out := Indexer.PrepareDocument svc ns dg fname content w in
  fst out <> Ok false ->
  db (snd out) = db w
  /\ (fst out = Ok true -> bucket (snd out) = bucket w)
  /\ (bucket (snd out) = bucket w
      \/ bucket (snd out)
         = <[S3Client.buildKey svc ns dg := list_byte_of_string content]>
             (bucket w)).
Proof.
  intros out Hne.
  destruct (PrepareDocument_effect svc ns dg fname content w)
    as (Ht & Hc & [(Hb & Hf & _)|[(Hb & Hf & Herr)|(_ & _ & _ & Hok & _)]]);
    [| |contradiction].
  - split; [|split; [intros _; exact Hb|now left]].
    now apply DB_eq.
  - split; [|split; [|now right]].
    + now apply DB_eq.
    + intros Hok. fold out in Herr. rewrite Hok in Herr. discriminate.
Qed.

Lemma insert_is_Some {V} (b : gmap string V) (k k' : string) (v : V) :
  is_Some (b !! k') -> is_Some (<[k := v]> b !! k').
Proof.
  intros H. destruct (decide (k = k')) as [->|Hne].
  - rewrite lookup_insert_eq. eauto.
  - now rewrite lookup_insert_ne.
Qed.

Lemma IndexDocument_keeps_objects (ns dg fname content : string) (w : World) :
  records_have_objects svc w ->
  records_have_objects svc
    (snd (Indexer.IndexDocument svc ns dg fname content w)).
Proof.
  intros Hinv ns' dg' m' Hrec.
  destruct (IndexDocument_effect svc ns dg fname content w)
    as (_ & [(Hb & Hf)|[(Hb & Hf)|(Hb & _ & m & _ & _ & Hf)]]);
    rewrite Hb; rewrite Hf in Hrec.
  - eauto.
  - apply insert_is_Some. eauto.
  - destruct (decide ((ns, dg) = (ns', dg'))) as [Heq|Hne].
    + injection Heq as <- <-. rewrite lookup_insert_eq. eauto.
    + rewrite lookup_insert_ne in Hrec by exact Hne.
      apply insert_is_Some. eauto.
Qed.

Lemma Write_world (path : string) (bytes : list byte) (offset : Z)
    (flags : WriteFlag) (p : Plugin) :
  world (snd (Write path bytes offset flags p)) = world p.
Proof.
  unfold Write. destruct (parsePath path) as [[ns rel]|e]; [|reflexivity].
  destruct (negb _); [reflexivity|].
  destruct (indexQueue p) as [ch|]; [|reflexivity].
  destruct (closed ch); [reflexivity|]. now destruct (has_room ch).
Qed.

Lemma Close_stores (w : World) :
  bucket (snd (TiDBClient.Close w)) = bucket w
  /\ db (snd (TiDBClient.Close w)) = db w.
Proof.
  unfold TiDBClient.Close.
  destruct (service_inv "tidb.Close" DbClose (ret tt) w)
    as (w1 & Hb & Hd & _ & _ & [Hs|Hs]); rewrite Hs; now split.
Qed.

(** A property of the stores that every task pipeline preserves is
    preserved by whatever the goroutines of the plugin do. *)
Lemma run_stores (P : World -> Prop) :
  (forall w w', bucket w' = bucket w -> db w' = db w -> P w -> P w') ->
  (forall ns dg fname content w,
     P w -> P (snd (Indexer.IndexDocument svc ns dg fname content w))) ->
  forall acts p p', run svc acts p = Some p' -> P (world p) -> P (world p').
Proof.
  intros Hstores Hindex acts.
  induction acts as [|a acts IH]; intros p p'; simpl.
  - now intros [= <-].
  - destruct (exec svc a p) as [p1|] eqn:E; [|discriminate].
    intros Hrun HP. apply (IH p1 p' Hrun). clear IH Hrun.
    unfold exec in E. destruct (panicked p); [discriminate|].
    destruct a as [path bytes offset flags|j|i|i|i| | |].
    + injection E as <-. now rewrite Write_world.
    + destruct (helpers p !! j); [|discriminate].
      destruct (indexQueue p) as [ch|]; [|discriminate].
      destruct (closed ch); [now injection E as <-|].
      destruct (has_room ch); [|discriminate]. now injection E as <-.
    + destruct (workers p !! i) as [[| |]|]; try discriminate.
      destruct (shutdown p) as [[|]|]; try discriminate.
      now injection E as <-.
    + destruct (workers p !! i) as [[| |]|]; try discriminate.
      destruct (indexQueue p) as [ch|]; [|discriminate].
      destruct (buf ch); [|now injection E as <-].
      destruct (closed ch); [|discriminate]. now injection E as <-.
    + destruct (workers p !! i) as [[|t|]|]; try discriminate.
      injection E as <-. simpl. now apply Hindex.
    + destruct (coordinator p); try discriminate.
      destruct (shutdown p) as [[|]|]; now injection E as <-.
    + destruct (coordinator p); try discriminate.
      destruct (indexQueue p) as [ch|]; [|now injection E as <-].
      destruct (closed ch); now injection E as <-.
    + destruct (coordinator p); try discriminate.
      destruct (all_exited (workers p)); [|discriminate].
      injection E as <-. simpl.
      destruct (Close_stores (world p)) as [Hb Hd].
      now apply (Hstores (world p)).
Qed.

(** X12.  Upload comes before registration, so a registered document always
    has its object: if every document record has an object in the bucket
    before, then so it is after any activity of the plugin (writes,
    workers, failures of the services at any call, shutdown). *)
Theorem registered_documents_have_objects (acts : list Action)
    (p p' : Plugin) :
  run svc acts p = Some p' ->
  records_have_objects svc (world p) ->
  records_have_objects svc (world p').
Proof.
  apply (run_stores (records_have_objects svc)).
  - intros w w' Hb Hd H ns dg m. rewrite Hb, Hd. apply H.
  - intros. now apply IndexDocument_keeps_objects.
Qed.

End StoreInvariants.

(** ** Reading and listing documents *)

Section Documents.

Import VectorFS VectorFSRest.

Variable svc : Services.

Lemma find_record (ns fname dg : string) (m : FileMetadata)
    (fs : gmap (string * string) FileMetadata) :
  fs !! (ns, dg) = Some m -> FileName m = fname ->
  (forall dg' m', fs !! (ns, dg') = Some m' -> FileName m' = fname ->
                  dg' = dg) ->
  exists kv,
    List.find (fun kv => String.eqb (fst (fst kv)) ns
                         && String.eqb (FileName (snd kv)) fname)
              (map_to_list fs) = Some kv
    /\ snd kv = m.
Proof.
  intros Hrec Hname Huniq.
  destruct (List.find _ (map_to_list fs)) as [[[ns' dg'] m']|] eqn:E.
  - exists (ns', dg', m'). split; [reflexivity|].
    apply find_some in E as [Hin Hp]. simpl in Hp.
    apply andb_prop in Hp as [Hns Hf].
    apply String.eqb_eq in Hns, Hf. subst ns'.
    apply list_elem_of_In, elem_of_map_to_list in Hin.
    rewrite (Huniq dg' m' Hin Hf) in Hin. simpl. congruence.
  - exfalso.
    assert (In (ns, dg, m) (map_to_list fs)) as Hin
      by now apply list_elem_of_In, elem_of_map_to_list.
    apply (find_none _ _ E) in Hin. simpl in Hin.
    now rewrite String.eqb_refl, Hname, String.eqb_refl in Hin.
Qed.

(** X14.  What was written can be read: once the prepare phase has
    registered a document under a name that no other document of the
    namespace bears, and while the services answer, [Read] of
    [/<ns>/docs/<name>] returns the bytes of the document, cut to the
    requested range. *)
Theorem Read_after_prepare (ns dg fname content : string) (offset size : Z)
    (w w1 : World) :
  is_name ns = true -> clean_rel fname = true ->
  Indexer.PrepareDocument svc ns dg fname content w = (Ok false, w1) ->
  (forall dg' m', files (db w) !! (ns, dg') = Some m' ->
                  FileName m' <> fname) ->
  faults w1 = [] ->
  fst (Read svc ("/" +:+ ns +:+ "/docs/" +:+ fname) offset size w1)
  = Ok (ApplyRangeRead (list_byte_of_string content) offset size).
Proof.
  intros Hns Hrel Hprep Hfresh Hfaults.
  apply PrepareDocument_fresh in Hprep as (Hin & Hb & m & Hname & Hdg & Hfiles).
  unfold Read.
  destruct (document_path_neq ns fname) as [_ ->].
  rewrite (parsePath_docs ns fname Hns Hrel).
  destruct (docs_rel_eqb fname) as (_ & _ & ->).
  rewrite HasPrefix_append, TrimPrefix_append.
  destruct (clean_rel_not_empty fname Hrel) as [-> ->].
  change (negb true) with false. change (false || false) with false.
  cbv iota.
  assert (exists kv,
            List.find (fun kv => String.eqb (fst (fst kv)) ns
                                 && String.eqb (FileName (snd kv)) fname)
                      (map_to_list (files (db w1))) = Some kv
            /\ snd kv = m) as (kv & Hfind & Hkv).
  { apply (find_record ns fname dg m).
    - rewrite Hfiles. apply lookup_insert_eq.
    - exact Hname.
    - intros dg' m' Hrec Hn. destruct (decide (dg' = dg)) as [->|Hne];
        [reflexivity|].
      rewrite Hfiles, lookup_insert_ne in Hrec by congruence.
      now destruct (Hfresh dg' m' Hrec). }
  unfold bind, wrap, TiDBClient.GetFileMetadataByName.
  rewrite service_no_fault by exact Hfaults.
  unfold TiDBClient.with_tables, TiDBClient.on_db. simpl db.
  destruct (decide (ns ∈ tables (db w1))) as [_|Hout]; [|contradiction].
  rewrite Hfind, Hkv, Hdg. simpl.
  unfold S3Client.DownloadDocument.
  rewrite service_no_fault by exact Hfaults. simpl.
  rewrite Hb, lookup_insert_eq. reflexivity.
Qed.

Lemma elem_of_rows_of (ns : string) (d : DB) (m : FileMetadata) :
  m ∈ Clients.rows_of ns d <-> exists dg, files d !! (ns, dg) = Some m.
Proof.
  unfold Clients.rows_of. rewrite list_elem_of_fmap. split.
  - intros ([[ns' dg] m'] & -> & Hin). simpl.
    apply list_elem_of_In, filter_In in Hin as [Hin Hp]. simpl in Hp.
    apply String.eqb_eq in Hp. subst ns'.
    apply list_elem_of_In, elem_of_map_to_list in Hin. eauto.
  - intros [dg Hrec]. exists (ns, dg, m). split; [reflexivity|].
    apply list_elem_of_In, filter_In. split.
    + now apply list_elem_of_In, elem_of_map_to_list.
    + simpl. apply String.eqb_refl.
Qed.

Lemma NoDup_List_filter {A} (f : A -> bool) (l : list A) :
  NoDup l -> NoDup (List.filter f l).
Proof.
  induction 1 as [|x l Hx Hl IH]; simpl; [constructor|].
  destruct (f x); [|exact IH]. constructor; [|exact IH].
  intros Hin. apply Hx.
  apply list_elem_of_In, filter_In in Hin as [Hin _].
  now apply list_elem_of_In.
Qed.

(** X15.  The listing of [docs/] is the files table of the namespace: when
    the database answers and the namespace exists, [ReadDir] of
    [/<ns>/docs] returns exactly one regular-file entry per document
    record, with the record's name (sub-path included), size and update
    time.  The entries are those of a list of (digest, record) rows in
    which no digest occurs twice and whose members are the records of the
    namespace. *)
Theorem ReadDir_docs (ns : string) (w : World) :
  faults w = [] -> is_name ns = true -> ns ∈ tables (db w) ->
  exists rows : list (string * FileMetadata),
    fst (ReadDir svc ("/" +:+ ns +:+ "/docs") w)
    = Ok (map (fun r => info (FileName (snd r)) (FileSize (snd r)) 420
                          (UpdatedAt (snd r)) false "document") rows)
    /\ NoDup (map fst rows)
    /\ (forall dg m, (dg, m) ∈ rows <-> files (db w) !! (ns, dg) = Some m).
Proof.
  intros Hf Hns Hin.
  set (hits := List.filter
                 (fun kv : string * string * FileMetadata =>
                    String.eqb (fst (fst kv)) ns)
                 (map_to_list (files (db w)))).
  assert (forall kv, kv ∈ hits <->
            fst (fst kv) = ns /\ files (db w) !! fst kv = Some (snd kv))
    as Hhits.
  { intros [[ns' dg] m]. subst hits. simpl.
    rewrite list_elem_of_In, filter_In, <- list_elem_of_In,
      elem_of_map_to_list. simpl. rewrite String.eqb_eq. tauto. }
  exists (map (fun kv => (snd (fst kv), snd kv)) hits). split; [|split].
  - unfold ReadDir.
    assert (parsePath ("/" +:+ ns +:+ "/docs") = Ok (ns, "docs")) as ->
      by (apply (parsePath_entry ns "docs" Hns); reflexivity).
    assert (String.eqb ("/" +:+ ns +:+ "/docs") "/" = false) as ->
      by (apply (below_root_neq ns "docs" ""); reflexivity).
    destruct (namespace_path_eqb ns Hns) as [_ ->]. simpl.
    unfold bind. simpl. unfold Clients.ListFiles.
    rewrite untraced_no_fault by exact Hf.
    unfold TiDBClient.with_tables, TiDBClient.on_db. simpl db.
    destruct (decide (ns ∈ tables (db w))) as [_|Hout]; [|contradiction].
    simpl. unfold Clients.rows_of. fold hits.
    now rewrite !map_map.
  - rewrite map_map. simpl. apply NoDup_fmap_2_strong.
    + intros [[n1 d1] m1] [[n2 d2] m2] H1 H2. simpl. intros <-.
      apply Hhits in H1 as [E1 R1]. apply Hhits in H2 as [E2 R2].
      simpl in *. subst n1 n2. congruence.
    + subst hits. apply NoDup_List_filter, NoDup_map_to_list.
  - intros dg m. rewrite list_elem_of_fmap. split.
    + intros ([[ns' dg'] m'] & [= -> ->] & [E R]%Hhits). simpl in *.
      now subst ns'.
    + intros Hrec. exists (ns, dg, m). split; [reflexivity|].
      apply Hhits. now split.
Qed.

End Documents.

(** ** The books of the worker pool *)

Section PoolAccounting.

Import VectorFS VectorFSRest.

Variable svc : Services.

Lemma run_invariant (Q : Plugin -> Prop) :
  (forall a p p', Q p -> exec svc a p = Some p' -> Q p') ->
  forall acts p p', Q p -> run svc acts p = Some p' -> Q p'.
Proof.
  intros Hstep acts. induction acts as [|a acts IH]; intros p p' HQ; simpl.
  - now intros [= <-].
  - destruct (exec svc a p) as [p1|] eqn:E; [|discriminate].
    apply IH. now apply (Hstep a p).
Qed.

Lemma busy_tasks_app (ws1 ws2 : list Worker) :
  busy_tasks (ws1 ++ ws2) = busy_tasks ws1 ++ busy_tasks ws2.
Proof. unfold busy_tasks. apply flat_map_app. Qed.

Lemma busy_tasks_insert (ws : list Worker) (i : nat) (x y : Worker) :
  ws !! i = Some y ->
  exists l1 l2,
    busy_tasks ws = l1 ++ tasks_of y ++ l2
    /\ busy_tasks (<[i := x]> ws) = l1 ++ tasks_of x ++ l2.
Proof.
  intros Hi.
  exists (busy_tasks (take i ws)), (busy_tasks (drop (S i) ws)). split.
  - rewrite <- (take_drop_middle ws i y Hi) at 1.
    now rewrite busy_tasks_app.
  - rewrite insert_take_drop by (apply lookup_lt_is_Some; eauto).
    now rewrite busy_tasks_app.
Qed.

(** Associate to the right and bring every consed element to the front. *)
Ltac perm_front :=
  repeat (progress (rewrite <- ?app_assoc; simpl;
                    rewrite <- ?Permutation_middle)).

Lemma books_enqueue (t : indexTask) (q : Chan) (hs : list indexTask)
    (p : Plugin) :
  indexQueue p = Some q -> closed q = false ->
  books p ->
  books (note_enqueued t (set_helpers hs (set_indexQueue (Some (push t q)) p))).
Proof.
  intros Hq Hcl (k & Hacc & Hk). exists k. split.
  - unfold accounted, queued in *. simpl. rewrite Hq in Hacc.
    rewrite !app_assoc. rewrite <- (app_assoc (executed p)), Hacc.
    rewrite <- !app_assoc. f_equiv. apply Permutation_app_comm.
  - intros _ _ _. now apply (Hk q).
Qed.

Lemma exec_books (a : Action) (p p' : Plugin) :
  books p -> exec svc a p = Some p' -> books p'.
Proof.
  intros Hb. unfold exec.
  destruct (panicked p); [discriminate|].
  destruct a as [path bytes offset flags|j|i|i|i| | |].
  - intros [= <-]. unfold Write.
    destruct (parsePath path) as [[ns rel]|e]; [|exact Hb].
    destruct (negb (HasPrefix rel "docs/")); [exact Hb|].
    destruct (indexQueue p) as [q|] eqn:Hq; [|exact Hb].
    destruct (closed q) eqn:Hcl; [exact Hb|].
    destruct (has_room q); [|exact Hb]. simpl.
    now apply (books_enqueue _ q (helpers p) p).
  - destruct (helpers p !! j) as [t|]; [|discriminate].
    destruct (indexQueue p) as [q|] eqn:Hq; [|discriminate].
    destruct (closed q) eqn:Hcl; [now intros [= <-]|].
    destruct (has_room q); [|discriminate]. intros [= <-].
    now apply (books_enqueue _ q).
  - destruct (workers p !! i) as [[| |]|] eqn:Ei; try discriminate.
    destruct (shutdown p) as [[|]|]; try discriminate.
    intros [= <-]. destruct Hb as (k & Hacc & Hk). exists k. split; [|exact Hk].
    destruct (busy_tasks_insert _ i Exited _ Ei) as (l1 & l2 & H1 & H2).
    simpl in H1, H2. unfold accounted, queued in *. simpl.
    now rewrite H2, <- H1.
  - destruct (workers p !! i) as [[| |]|] eqn:Ei; try discriminate.
    destruct (indexQueue p) as [q|] eqn:Hq; [|discriminate].
    destruct Hb as (k & Hacc & Hk).
    destruct (busy_tasks_insert (workers p) i (Busy zero_task) _ Ei)
      as (l1 & l2 & H1 & H2).
    destruct (buf q) as [|t rest] eqn:Hbuf.
    + destruct (closed q) eqn:Hcl; [|discriminate]. intros [= <-].
      exists (S k). split.
      * unfold accounted, queued in *. simpl. rewrite Hq, Hbuf in *.
        rewrite H2. rewrite H1 in Hacc. simpl in *.
        rewrite <- !app_assoc in Hacc. perm_front. now rewrite Hacc.
      * simpl. intros q' Hq'. rewrite Hq in Hq'. injection Hq' as <-.
        congruence.
    + intros [= <-].
      destruct (busy_tasks_insert (workers p) i (Busy t) _ Ei)
        as (l3 & l4 & H3 & H4).
      exists k. split.
      * unfold accounted, queued in *. simpl. rewrite Hq, Hbuf in *.
        rewrite H4. rewrite H3 in Hacc. simpl in *.
        rewrite <- Hacc. now perm_front.
      * simpl. intros q' [= <-]. simpl. now apply Hk.
  - destruct (workers p !! i) as [[|t|]|] eqn:Ei; try discriminate.
    intros [= <-]. destruct Hb as (k & Hacc & Hk). exists k. split; [|exact Hk].
    destruct (busy_tasks_insert (workers p) i Idle _ Ei)
      as (l1 & l2 & H1 & H2).
    unfold accounted, queued in *. simpl.
    rewrite H2. rewrite H1 in Hacc. simpl in *.
    rewrite <- Hacc. now perm_front.
  - destruct (coordinator p); try discriminate.
    destruct (shutdown p) as [[|]|]; now intros [= <-].
  - destruct (coordinator p); try discriminate.
    destruct (indexQueue p) as [q|] eqn:Hq; [|now intros [= <-]].
    destruct (closed q) eqn:Hcl; [now intros [= <-]|]. intros [= <-].
    destruct Hb as (k & Hacc & Hk). exists k. split.
    + unfold accounted, queued in *. simpl. now rewrite Hq in Hacc.
    + simpl. intros q' [= <-]. discriminate.
  - destruct (coordinator p); try discriminate.
    destruct (all_exited (workers p)); [|discriminate]. now intros [= <-].
Qed.

Lemma books_Initialize (n : Z) (w : World) :
  books (Initialize n (NewVectorFSPlugin w)).
Proof.
  exists 0%nat. split; [|reflexivity].
  unfold accounted, queued. simpl.
  assert (busy_tasks (repeat Idle (Z.to_nat n)) = []) as ->; [|reflexivity].
  induction (Z.to_nat n) as [|m IH]; [reflexivity|exact IH].
Qed.

Lemma reachable_books (n : Z) (w : World)
    (acts : list Action) (p : Plugin) :
  run svc acts (Initialize n (NewVectorFSPlugin w)) = Some p -> books p.
Proof.
  intros Hrun.
  exact (run_invariant books exec_books acts _ p (books_Initialize n w) Hrun).
Qed.

(** X16.  No task is lost or run twice by the pool: at every moment after
    [Initialize], the tasks executed, held by a worker or waiting in the
    buffer are, counted with multiplicity, the tasks the queue has
    accepted, together with some zero tasks; and there is no zero task as
    long as the queue is open (a worker receives them from the closed
    queue). *)
Theorem accepted_tasks_are_accounted (n : Z) (w : World)
    (acts : list Action) (p : Plugin) :
  run svc acts (Initialize n (NewVectorFSPlugin w)) = Some p ->
  exists k,
    executed p ++ busy_tasks (workers p) ++ queued p
    ≡ₚ enqueued p ++ repeat zero_task k
    /\ (forall q, indexQueue p = Some q -> closed q = false -> k = 0%nat).
Proof.
  intros Hrun. exact (reachable_books n w acts p Hrun).
Qed.

Lemma exec_within_capacity (a : Action) (p p' : Plugin) :
  within_capacity p -> exec svc a p = Some p' -> within_capacity p'.
Proof.
  intros Hb. unfold exec.
  destruct (panicked p); [discriminate|].
  destruct a as [path bytes offset flags|j|i|i|i| | |].
  - intros [= <-]. unfold Write.
    destruct (parsePath path) as [[ns rel]|e]; [|exact Hb].
    destruct (negb (HasPrefix rel "docs/")); [exact Hb|].
    destruct (indexQueue p) as [q|] eqn:Hq; [|exact Hb].
    destruct (closed q) eqn:Hcl; [exact Hb|].
    destruct (has_room q) eqn:Hroom; [|exact Hb].
    intros q' [= <-]. simpl. destruct (Hb q Hq) as [Hcap _].
    split; [exact Hcap|]. rewrite length_app. simpl.
    apply Nat.ltb_lt in Hroom. lia.
  - destruct (helpers p !! j) as [t|]; [|discriminate].
    destruct (indexQueue p) as [q|] eqn:Hq; [|discriminate].
    destruct (closed q) eqn:Hcl; [now intros [= <-]|].
    destruct (has_room q) eqn:Hroom; [|discriminate]. intros [= <-].
    intros q' [= <-]. simpl. destruct (Hb q Hq) as [Hcap _].
    split; [exact Hcap|]. rewrite length_app. simpl.
    apply Nat.ltb_lt in Hroom. lia.
  - destruct (workers p !! i) as [[| |]|]; try discriminate.
    destruct (shutdown p) as [[|]|]; try discriminate. now intros [= <-].
  - destruct (workers p !! i) as [[| |]|]; try discriminate.
    destruct (indexQueue p) as [q|] eqn:Hq; [|discriminate].
    destruct (Hb q Hq) as [Hcap Hlen].
    destruct (buf q) as [|t rest] eqn:Hbuf.
    + destruct (closed q); [|discriminate]. intros [= <-].
      intros q' Hq'. simpl in Hq'. rewrite Hq in Hq'. injection Hq' as <-.
      rewrite Hbuf. simpl. split; [exact Hcap|lia].
    + intros [= <-]. intros q' [= <-]. simpl in *. split; [exact Hcap|lia].
  - destruct (workers p !! i) as [[|t|]|]; try discriminate.
    now intros [= <-].
  - destruct (coordinator p); try discriminate.
    destruct (shutdown p) as [[|]|]; now intros [= <-].
  - destruct (coordinator p); try discriminate.
    destruct (indexQueue p) as [q|] eqn:Hq; [|now intros [= <-]].
    destruct (closed q); [now intros [= <-]|]. intros [= <-].
    intros q' [= <-]. simpl. exact (Hb q Hq).
  - destruct (coordinator p); try discriminate.
    destruct (all_exited (workers p)); [|discriminate]. now intros [= <-].
Qed.

(** X17.  The buffer of the index queue is bounded: at every moment after
    [Initialize] it holds at most 100 tasks, however many writes arrive and
    whatever the workers do. *)
Theorem queue_never_exceeds_capacity (n : Z) (w : World)
    (acts : list Action) (p : Plugin) :
  run svc acts (Initialize n (NewVectorFSPlugin w)) = Some p ->
  (length (queued p) <= 100)%nat.
Proof.
  intros Hrun.
  assert (within_capacity (Initialize n (NewVectorFSPlugin w))) as H0.
  { intros q [= <-]. simpl. split; [reflexivity|lia]. }
  pose proof (run_invariant within_capacity exec_within_capacity acts _ p
                H0 Hrun) as Hb.
  unfold queued. destruct (indexQueue p) as [q|] eqn:Hq; [|simpl; lia].
  destruct (Hb q Hq) as [Hcap Hlen]. lia.
Qed.

Lemma well_addressed_mkTask (ns name : string) (bytes : list byte) :
  well_addressed (mkTask ns name bytes).
Proof.
  unfold well_addressed, mkTask. simpl.
  now rewrite list_byte_of_string_of_list_byte.
Qed.

Lemma exec_submitted_well (a : Action) (p p' : Plugin) :
  submitted_well p -> exec svc a p = Some p' -> submitted_well p'.
Proof.
  intros Hb. unfold exec.
  destruct (panicked p); [discriminate|].
  destruct a as [path bytes offset flags|j|i|i|i| | |].
  - intros [= <-]. unfold Write.
    destruct (parsePath path) as [[ns rel]|e]; [|exact Hb].
    destruct (negb (HasPrefix rel "docs/")); [exact Hb|].
    assert (submitted_well
              (set_helpers (helpers p ++ [mkTask ns (TrimPrefix rel "docs/")
                                            bytes]) p)) as Hhelper.
    { intros t. simpl. rewrite app_assoc, elem_of_app.
      intros [Ht|Ht%list_elem_of_singleton]; [now apply Hb|].
      subst t. apply well_addressed_mkTask. }
    destruct (indexQueue p) as [q|] eqn:Hq; [|exact Hhelper].
    destruct (closed q) eqn:Hcl; [exact Hb|].
    destruct (has_room q); [|exact Hhelper].
    intros t. simpl. rewrite !elem_of_app.
    intros [[Ht|Ht%list_elem_of_singleton]|Ht].
    + apply Hb, elem_of_app. now left.
    + subst t. apply well_addressed_mkTask.
    + apply Hb, elem_of_app. now right.
  - destruct (helpers p !! j) as [t|] eqn:Hj; [|discriminate].
    destruct (indexQueue p) as [q|] eqn:Hq; [|discriminate].
    destruct (closed q) eqn:Hcl; [now intros [= <-]|].
    destruct (has_room q); [|discriminate]. intros [= <-].
    intros t'. simpl. rewrite !elem_of_app.
    intros [[Ht|Ht%list_elem_of_singleton]|Ht].
    + apply Hb, elem_of_app. now left.
    + subst t'. apply Hb, elem_of_app. right.
      apply list_elem_of_lookup. eauto.
    + apply Hb, elem_of_app. right.
      apply list_elem_of_lookup in Ht as [j' Hj'].
      apply list_elem_of_lookup.
      destruct (decide (j' < j)%nat).
      * exists j'. now rewrite list_lookup_delete_lt in Hj' by assumption.
      * exists (S j'). now rewrite list_lookup_delete_ge in Hj' by lia.
  - destruct (workers p !! i) as [[| |]|]; try discriminate.
    destruct (shutdown p) as [[|]|]; try discriminate. now intros [= <-].
  - destruct (workers p !! i) as [[| |]|]; try discriminate.
    destruct (indexQueue p) as [q|] eqn:Hq; [|discriminate].
    destruct (buf q) as [|t rest].
    + destruct (closed q); [|discriminate]. now intros [= <-].
    + now intros [= <-].
  - destruct (workers p !! i) as [[|t|]|]; try discriminate.
    now intros [= <-].
  - destruct (coordinator p); try discriminate.
    destruct (shutdown p) as [[|]|]; now intros [= <-].
  - destruct (coordinator p); try discriminate.
    destruct (indexQueue p) as [q|] eqn:Hq; [|now intros [= <-]].
    destruct (closed q); now intros [= <-].
  - destruct (coordinator p); try discriminate.
    destruct (all_exited (workers p)); [|discriminate]. now intros [= <-].
Qed.

(** X18.  The indexer is only ever run on content-addressed tasks: at every
    moment after [Initialize], a task that has been executed or is held by
    a worker is the zero task (received from the closed queue) or carries
    as its digest the lowercase-hex SHA-256 of the very bytes it carries. *)
Theorem indexed_tasks_are_content_addressed (n : Z) (w : World)
    (acts : list Action) (p : Plugin) (t : indexTask) :
  run svc acts (Initialize n (NewVectorFSPlugin w)) = Some p ->
  t ∈ executed p ++ busy_tasks (workers p) ->
  t = zero_task
  \/ digest t
     = Hex.EncodeToString (Sha256.Sum256 (list_byte_of_string (data t))).
Proof.
  intros Hrun Ht.
  assert (submitted_well (Initialize n (NewVectorFSPlugin w))) as H0.
  { intros t' Ht'. simpl in Ht'. inversion Ht'. }
  pose proof (run_invariant submitted_well exec_submitted_well acts _ p
                H0 Hrun) as Hwell.
  destruct (reachable_books n w acts p Hrun)
    as (k & Hacc & _).
  assert (t ∈ enqueued p ++ repeat zero_task k) as Hin.
  { rewrite <- Hacc. rewrite app_assoc, elem_of_app. now left. }
  apply elem_of_app in Hin as [Hin|Hin].
  - right. apply Hwell, elem_of_app. now left.
  - left. apply list_elem_of_In in Hin. now apply repeat_spec in Hin.
Qed.

End PoolAccounting.

(** ** Shutdown *)

Section ShutdownProgress.

Import VectorFS VectorFSRest.

Variable svc : Services.

Lemma exec_sealed (p0 : Plugin) (a : Action) (p p' : Plugin) :
  sealed p0 p -> exec svc a p = Some p' -> sealed p0 p'.
Proof.
  intros ((q & Hq & Hcl) & He & Hh). unfold exec.
  destruct (panicked p); [discriminate|].
  assert (sealed p0 (set_panicked p)) as Hpanic.
  { split; [now exists q|now split]. }
  destruct a as [path bytes offset flags|j|i|i|i| | |].
  - intros [= <-]. unfold Write.
    destruct (parsePath path) as [[ns rel]|e];
      [|split; [now exists q|now split]].
    destruct (negb (HasPrefix rel "docs/"));
      [split; [now exists q|now split]|].
    rewrite Hq, Hcl. exact Hpanic.
  - destruct (helpers p !! j) as [t|]; [|discriminate].
    rewrite Hq, Hcl. now intros [= <-].
  - destruct (workers p !! i) as [[| |]|]; try discriminate.
    destruct (shutdown p) as [[|]|]; try discriminate. intros [= <-].
    split; [now exists q|now split].
  - destruct (workers p !! i) as [[| |]|]; try discriminate.
    rewrite Hq, Hcl. destruct (buf q) as [|t rest]; intros [= <-].
    + split; [now exists q|now split].
    + split; [|now split]. eexists. split; reflexivity.
  - destruct (workers p !! i) as [[|t|]|]; try discriminate.
    intros [= <-]. split; [now exists q|now split].
  - destruct (coordinator p); try discriminate.
    destruct (shutdown p) as [[|]|]; intros [= <-];
      (split; [now exists q|now split]).
  - destruct (coordinator p); try discriminate.
    rewrite Hq, Hcl. now intros [= <-].
  - destruct (coordinator p); try discriminate.
    destruct (all_exited (workers p)); [|discriminate]. intros [= <-].
    split; [now exists q|now split].
Qed.

(** X19.  Once the index queue is closed nothing is accepted any more:
    whatever happens next, the list of accepted tasks stays as it is, and
    so does the list of pending sends.  A write that was acknowledged while
    the buffer was full, and whose task has not been enqueued by then, is
    never indexed: the step of its goroutine is a panic. *)
Theorem nothing_is_accepted_after_close (acts : list Action)
    (p p' : Plugin) (q : Chan) :
  indexQueue p = Some q -> closed q = true ->
  run svc acts p = Some p' ->
  enqueued p' = enqueued p /\ helpers p' = helpers p
  /\ (forall j t, helpers p' !! j = Some t -> panicked p' = false ->
        exec svc (HelperSend j) p' = Some (set_panicked p')).
Proof.
  intros Hq Hcl Hrun.
  assert (sealed p p) as H0 by (split; [now exists q|now split]).
  destruct (run_invariant svc (sealed p) (exec_sealed p) acts p p' H0 Hrun)
    as ((q' & Hq' & Hcl') & He & Hh).
  split; [exact He|]. split; [exact Hh|].
  intros j t Hj Hpk. unfold exec. now rewrite Hpk, Hj, Hq', Hcl'.
Qed.

Lemma run_app (acts1 acts2 : list Action) (p : Plugin) :
  run svc (acts1 ++ acts2) p
  = match run svc acts1 p with
    | Some p1 => run svc acts2 p1
    | None => None
    end.
Proof.
  revert p. induction acts1 as [|a acts1 IH]; intros p; simpl;
    [reflexivity|].
  destruct (exec svc a p) as [p1|]; [apply IH|reflexivity].
Qed.

Lemma all_exited_repeat (pre : list Worker) (m : nat) :
  all_exited pre = true -> all_exited (pre ++ repeat Exited m) = true.
Proof.
  unfold all_exited. rewrite forallb_app. intros ->. simpl.
  induction m as [|m IH]; [reflexivity|exact IH].
Qed.

(** The workers from position [length pre] on finish what they hold and
    take the shutdown case of their [select]. *)
Lemma finish_workers_run (ws pre : list Worker) (p : Plugin) :
  panicked p = false -> shutdown p = Some true ->
  workers p = pre ++ ws ->
  exists p',
    run svc (finish_workers (length pre) ws) p = Some p'
    /\ panicked p' = false /\ shutdown p' = Some true
    /\ workers p' = pre ++ repeat Exited (length ws)
    /\ executed p' = executed p ++ busy_tasks ws
    /\ indexQueue p' = indexQueue p /\ enqueued p' = enqueued p
    /\ helpers p' = helpers p /\ coordinator p' = coordinator p.
Proof.
  revert pre p. induction ws as [|x ws IH]; intros pre p Hpk Hsd Hws.
  - exists p. simpl. rewrite !app_nil_r. rewrite app_nil_r in Hws.
    now repeat split.
  - assert (length (pre ++ [Exited]) = S (length pre)) as Hlen
      by (rewrite length_app; simpl; lia).
    assert (forall y, <[length pre := y]> (pre ++ x :: ws)
                      = pre ++ y :: ws) as Hins.
    { intros y. rewrite insert_app_r_alt by lia.
      now rewrite Nat.sub_diag. }
    assert (forall y, (pre ++ y :: ws) !! length pre = Some y) as Hlook
      by (intros y; now apply list_lookup_middle).
    destruct x as [|t|]; simpl finish_workers.
    + set (p1 := set_workers (pre ++ Exited :: ws) p).
      destruct (IH (pre ++ [Exited]) p1) as (p' & Hrun & H); auto.
      { subst p1. simpl. now rewrite <- app_assoc. }
      exists p'. split.
      * simpl. unfold exec at 1. rewrite Hpk, Hws, Hlook, Hsd, Hins.
        fold p1. now rewrite <- Hlen.
      * destruct H as (H1 & H2 & H3 & H4 & H5 & H6 & H7 & H8).
        rewrite H3, <- app_assoc. now repeat split.
    + set (w' := snd (Indexer.IndexDocument svc (namespace t) (digest t)
                        (fileName t) (data t) (world p))).
      set (p1 := note_executed t
                   (set_workers (pre ++ Idle :: ws) (set_world w' p))).
      set (p2 := set_workers (pre ++ Exited :: ws) p1).
      destruct (IH (pre ++ [Exited]) p2) as (p' & Hrun & H); auto.
      { subst p2 p1. simpl. now rewrite <- app_assoc. }
      exists p'. split.
      * simpl. unfold exec at 1. rewrite Hpk, Hws, Hlook, Hins.
        fold w'. fold p1.
        unfold exec at 1. simpl panicked. rewrite Hpk. simpl workers.
        rewrite Hlook. simpl shutdown. rewrite Hsd.
        assert (<[length pre := Exited]> (pre ++ Idle :: ws)
                = pre ++ Exited :: ws) as ->.
        { rewrite insert_app_r_alt by lia. now rewrite Nat.sub_diag. }
        fold p2. now rewrite <- Hlen.
      * destruct H as (H1 & H2 & H3 & H4 & H5 & H6 & H7 & H8).
        subst p2 p1. simpl in H4, H5, H6, H7, H8.
        rewrite H3, H4, <- !app_assoc. now repeat split.
    + destruct (IH (pre ++ [Exited]) p) as (p' & Hrun & H); auto.
      { now rewrite <- app_assoc. }
      exists p'. split.
      * now rewrite <- Hlen.
      * destruct H as (H1 & H2 & H3 & H4 & H5 & H6 & H7 & H8).
        rewrite H3, <- app_assoc. now repeat split.
Qed.

(** X20.  [Shutdown] can always be carried through: from any state the
    plugin reaches after [Initialize] in which [Shutdown] has not been
    called, the schedule in which it closes the two channels, every worker
    finishes the task it holds and takes the shutdown case, and the join
    returns, runs to the end.  Along it the tasks in flight are executed,
    and the tasks in the buffer and the pending sends are left where they
    are. *)
Theorem Shutdown_can_return (n : Z) (w : World) (acts : list Action)
    (p : Plugin) :
  run svc acts (Initialize n (NewVectorFSPlugin w)) = Some p ->
  coordinator p = NotCalled ->
  exists p',
    run svc (shutdown_schedule (workers p)) p = Some p'
    /\ coordinator p' = Returned /\ panicked p' = false
    /\ executed p' = executed p ++ busy_tasks (workers p)
    /\ queued p' = queued p /\ enqueued p' = enqueued p
    /\ helpers p' = helpers p.
Proof.
  intros Hrun Hc.
  destruct (run_inv svc acts _ p (pool_inv_Initialize n w) Hrun)
    as (ch & Hq & Hcap & Hcl & Hsd & Hpk & Hjoin & Henq).
  rewrite Hc in Hcl, Hsd. simpl in Hcl, Hsd. specialize (Hpk Hc).
  set (p1 := set_coordinator SignalClosed (set_shutdown (Some true) p)).
  set (p2 := set_coordinator QueueClosed
               (set_indexQueue (Some (close ch)) p1)).
  destruct (finish_workers_run (workers p) [] p2)
    as (p3 & Hrun3 & Hpk3 & Hsd3 & Hws3 & Hex3 & Hq3 & Henq3 & Hh3 & Hc3);
    try reflexivity; try exact Hpk.
  simpl in Hws3, Hrun3.
  exists (set_coordinator Returned
            (set_world (snd (TiDBClient.Close (world p3))) p3)).
  split.
  - unfold shutdown_schedule. simpl app. simpl run.
    unfold exec at 1. rewrite Hpk, Hc, Hsd. fold p1.
    unfold exec at 1. simpl panicked. rewrite Hpk. simpl coordinator.
    simpl indexQueue. rewrite Hq, Hcl. fold p2.
    rewrite run_app, Hrun3. simpl.
    unfold exec. rewrite Hpk3, Hc3. simpl coordinator.
    rewrite Hws3.
    pose proof (all_exited_repeat [] (length (workers p)) eq_refl) as Hall.
    simpl in Hall. now rewrite Hall.
  - simpl. unfold queued. simpl. rewrite Hq3. simpl.
    unfold queued. rewrite Hq. now repeat split.
Qed.

End ShutdownProgress.

(** ** Chunks *)

Section Chunks.

Import VectorFS VectorFSRest.

Variable svc : Services.

Lemma InsertChunk_other (ns dg : string) (idx : Z) (text : string)
    (e : Embedding) (w : World) (k : string * string * Z) :
  k <> (ns, dg, idx) ->
  chunks (db (snd (TiDBClient.InsertChunk ns dg idx text e w))) !! k
  = chunks (db w) !! k.
Proof.
  intros Hk. unfold TiDBClient.InsertChunk.
  match goal with
  | |- context [service ?n ?e ?b w] =>
      destruct (service_inv n e b w) as (w1 & Hb & Hd & _ & _ & [Hs|Hs])
  end; rewrite Hs; simpl; [now rewrite Hd|].
  unfold TiDBClient.with_tables, TiDBClient.on_db. rewrite Hd.
  destruct (decide (ns ∈ tables (db w))); simpl; [|reflexivity].
  now rewrite lookup_insert_ne by congruence.
Qed.

End Chunks.

(** ** Pipelines that interleave *)

Section Interleaving.

Import VectorFS VectorFSRest.

Variable svc : Services.

Lemma complete_Finished (t : indexTask) (fuel : nat) (w : World) :
  complete svc t fuel Finished w = w.
Proof. induction fuel as [|fuel IH]; [reflexivity|exact IH]. Qed.

Lemma complete_inserting (t : indexTask) (cs : list Chunk)
    (es : list Embedding) (fuel : nat) (w : World) :
  (length cs <= fuel)%nat ->
  complete svc t fuel (inserting cs es) w
  = snd (Indexer.insert_chunks (namespace t) (digest t) cs es w).
Proof.
  revert es fuel w. induction cs as [|c cs IH]; intros es fuel w Hfuel.
  - apply complete_Finished.
  - destruct fuel as [|fuel]; [simpl in Hfuel; lia|].
    simpl in Hfuel. destruct es as [|e es]; simpl.
    + apply complete_Finished.
    + unfold bind, wrap.
      destruct (TiDBClient.InsertChunk (namespace t) (digest t) (Index c)
                  (Text c) e w) as [[[]|err] w1].
      * apply IH. lia.
      * apply complete_Finished.
Qed.

Lemma complete_S (t : indexTask) (fuel : nat) (st : Stage) (w : World) :
  complete svc t (S fuel) st w
  = complete svc t fuel (fst (advance svc t st w)) (snd (advance svc t st w)).
Proof. simpl. now destruct (advance svc t st w). Qed.

(** Run on its own, call after call, the pipeline is [IndexDocument]. *)
Lemma complete_IndexDocument (ns dg fname content : string) (fuel : nat)
    (w : World) :
  let t := {| namespace := ns; digest := dg; fileName := fname;
              data := content |} in
  (4 + length (chunk_document svc content (chunker_config svc)) <= fuel)%nat ->
  complete svc t fuel Checking w
  = snd (Indexer.IndexDocument svc ns dg fname content w).
Proof.
  intros t Hfuel.
  destruct fuel as [|[|[|[|fuel]]]]; try (simpl in Hfuel; lia).
  unfold Indexer.IndexDocument, Indexer.PrepareDocument, Indexer.IndexChunks.
  unfold bind, wrap, ret.
  rewrite complete_S. cbn [advance namespace digest data fileName t].
  destruct (TiDBClient.FileExists ns dg w) as [[[]|e] w1]; cbv beta iota; cbn [fst snd];
    [now rewrite complete_Finished| |now rewrite complete_Finished].
  rewrite complete_S. cbn [advance namespace digest data fileName t].
  destruct (S3Client.UploadDocument svc ns dg (list_byte_of_string content) w1)
    as [[[]|e] w2]; cbv beta iota; cbn [fst snd]; [|now rewrite complete_Finished].
  rewrite complete_S. cbn [advance namespace digest data fileName t].
  unfold bind, now.
  destruct (TiDBClient.InsertFileMetadata ns _ (set_clock (S (clock w2)) w2))
    as [[[]|e] w3]; cbv beta iota; cbn [fst snd]; [|now rewrite complete_Finished].
  rewrite complete_S. cbn [advance namespace digest data fileName t].
  destruct (EmbeddingClient.GenerateBatchEmbeddings svc _ w3)
    as [[es|e] w4]; cbv beta iota; cbn [fst snd]; [|now rewrite complete_Finished].
  rewrite (complete_inserting t) by (simpl in Hfuel; lia). reflexivity.
Qed.

(** The step [WorkerIndex] of the pool is a pipeline that runs from its
    first call to its last with no other pipeline in between. *)
Lemma WorkerIndex_is_a_whole_pipeline (i : nat) (t : indexTask)
    (p p' : Plugin) :
  workers p !! i = Some (Busy t) ->
  exec svc (WorkerIndex i) p = Some p' ->
  world p'
  = complete svc t
      (4 + length (chunk_document svc (data t) (chunker_config svc)))
      Checking (world p).
Proof.
  intros Hi. unfold exec. destruct (panicked p); [discriminate|].
  rewrite Hi. intros [= <-]. destruct t as [ns dg fname content].
  cbn [world note_executed set_workers set_world namespace digest fileName
       data].
  symmetry. apply (complete_IndexDocument ns dg fname content). lia.
Qed.

(** What one call of a pipeline can do to the database. *)
Lemma advance_db (t : indexTask) (st : Stage) (w : World) :
  let w' := snd (advance svc t st w) in
  tables (db w') = tables (db w)
  /\ (files (db w') = files (db w)
      \/ exists m, FileDigest m = digest t /\ FileName m = fileName t
           /\ S3Key m = S3Client.buildKey svc (namespace t) (digest t)
           /\ files (db w')
              = <[(namespace t, digest t) := m]> (files (db w)))
  /\ (forall k, fst k <> (namespace t, digest t) ->
        chunks (db w') !! k = chunks (db w) !! k).
Proof.
  destruct st as [| | | |cs es|]; simpl.
  - destruct (FileExists_cases (namespace t) (digest t) w)
      as (w1 & _ & Hd & [[e He]|[_ He]]); rewrite He.
    + simpl. rewrite Hd. auto.
    + destruct (bool_decide _); simpl; rewrite Hd; auto.
  - destruct (UploadDocument_cases svc (namespace t) (digest t)
                (list_byte_of_string (data t)) w)
      as (w1 & Hd & [(e & He & _)|[He _]]); rewrite He; simpl;
      rewrite Hd; auto.
  - unfold bind, now. simpl.
    match goal with
    | |- context [TiDBClient.InsertFileMetadata ?n ?m ?w0] =>
        destruct (InsertFileMetadata_cases n m w0)
          as (w1 & _ & Ht & Hc & [(e & He & Hf)|(_ & He & Hf)]); rewrite He
    end; simpl; simpl in Ht, Hc, Hf; rewrite Ht, Hc.
    + split; [reflexivity|]. split; [now left|reflexivity].
    + split; [reflexivity|]. split; [|reflexivity].
      right. eexists. split; [|split; [|split; [|exact Hf]]]; reflexivity.
  - unfold EmbeddingClient.GenerateBatchEmbeddings.
    match goal with
    | |- context [service ?n ?e ?b w] =>
        destruct (service_inv n e b w) as (w1 & _ & Hd & _ & _ & [Hs|Hs]);
          rewrite Hs
    end; simpl; rewrite Hd; auto.
  - destruct cs as [|c cs]; [simpl; auto|].
    destruct es as [|e es]; [simpl; auto|].
    pose proof (InsertChunk_cases (namespace t) (digest t) (Index c) (Text c)
                  e w) as (_ & Ht & Hf).
    pose proof (InsertChunk_other (namespace t) (digest t) (Index c) (Text c)
                  e w) as Hc.
    destruct (TiDBClient.InsertChunk (namespace t) (digest t) (Index c)
                (Text c) e w) as [[[]|err] w1]; simpl in *.
    + split; [exact Ht|]. split; [now left|].
      intros k Hk. apply Hc. intros ->. now apply Hk.
    + split; [exact Ht|]. split; [now left|].
      intros k Hk. apply Hc. intros ->. now apply Hk.
  - auto.
Qed.

(** The existence check on a registered document ends the pipeline. *)
Lemma advance_registered (t : indexTask) (st : Stage) (w : World) :
  is_Some (files (db w) !! (namespace t, digest t)) ->
  st = Checking \/ st = Finished ->
  fst (advance svc t st w) = Finished
  /\ db (snd (advance svc t st w)) = db w.
Proof.
  intros Hsome [->| ->]; [|now split]. simpl.
  destruct (FileExists_cases (namespace t) (digest t) w)
    as (w1 & _ & Hd & [[e He]|[_ He]]); rewrite He; [now split|].
  rewrite (bool_decide_eq_true_2 _ Hsome). now split.
Qed.

Lemma moves_invariant (Q : Pipelines -> Prop) :
  (forall m s s', Q s -> move svc m s = Some s' -> Q s') ->
  forall ms s s', Q s -> moves svc ms s = Some s' -> Q s'.
Proof.
  intros Hstep ms. induction ms as [|m ms IH]; intros s s' HQ; simpl.
  - now intros [= <-].
  - destruct (move svc m s) as [s1|] eqn:E; [|discriminate].
    apply IH. now apply (Hstep m s).
Qed.

(** X13.  Indexing never unregisters a document, however the service calls
    of concurrent pipelines interleave: a key of the files table stays in
    it, and its record is the one it was or one that a pipeline for the
    same namespace and digest has written over it (same digest, same
    object key; the file name may be another). *)
Theorem registered_documents_stay_registered (ms : list Move)
    (s s' : Pipelines) (ns dg : string) (m : FileMetadata) :
  moves svc ms s = Some s' ->
  files (db (store s)) !! (ns, dg) = Some m ->
  exists m',
    files (db (store s')) !! (ns, dg) = Some m'
    /\ (m' = m
        \/ (FileDigest m' = dg /\ S3Key m' = S3Client.buildKey svc ns dg)).
Proof.
  intros Hmoves Hrec.
  apply (moves_invariant
           (fun s1 => exists m',
              files (db (store s1)) !! (ns, dg) = Some m'
              /\ (m' = m
                  \/ (FileDigest m' = dg
                      /\ S3Key m' = S3Client.buildKey svc ns dg))))
    with (ms := ms) (s := s); [|eauto|exact Hmoves].
  clear. intros mv s s' (m' & Hrec & Hm) Hmove.
  destruct mv as [t|i]; simpl in Hmove.
  - injection Hmove as <-. simpl. eauto.
  - destruct (active s !! i) as [[t st]|]; [|discriminate].
    pose proof (advance_db t st (store s)) as (_ & Hfiles & _).
    destruct (advance svc t st (store s)) as [st' w'].
    injection Hmove as <-. simpl in *.
    destruct Hfiles as [->|(m1 & Hdg & _ & Hkey & ->)]; [eauto|].
    destruct (decide ((namespace t, digest t) = (ns, dg))) as [Heq|Hne].
    + injection Heq as Hn Hd. rewrite Hn, Hd in *.
      exists m1. rewrite lookup_insert_eq. split; [reflexivity|]. now right.
    + exists m'. rewrite lookup_insert_ne by exact Hne. eauto.
Qed.

(** X21.  Indexing is one-shot.  Once a document is registered and no
    pipeline for its namespace and digest is between its existence check
    and its end, neither its record nor any of its chunk rows changes
    again, however many pipelines run and interleave afterwards, those of
    later writes of the same bytes included: each of them ends at its
    existence check.  So a document whose chunking or embedding has failed
    is not repaired by writing it again. *)
Theorem settled_documents_are_frozen (ms : list Move) (s s' : Pipelines)
    (ns dg : string) (m : FileMetadata) :
  moves svc ms s = Some s' ->
  files (db (store s)) !! (ns, dg) = Some m ->
  quiet ns dg s ->
  files (db (store s')) !! (ns, dg) = Some m
  /\ (forall idx, chunks (db (store s')) !! (ns, dg, idx)
                  = chunks (db (store s)) !! (ns, dg, idx))
  /\ quiet ns dg s'.
Proof.
  intros Hmoves Hrec Hquiet.
  apply (moves_invariant
           (fun s1 =>
              files (db (store s1)) !! (ns, dg) = Some m
              /\ (forall idx, chunks (db (store s1)) !! (ns, dg, idx)
                              = chunks (db (store s)) !! (ns, dg, idx))
              /\ quiet ns dg s1))
    with (ms := ms) (s := s); [|auto|exact Hmoves].
  clear Hmoves Hrec Hquiet s'.
  intros mv s1 s' (Hrec & Hchunks & Hquiet) Hmove.
  destruct mv as [t|i]; simpl in Hmove.
  - injection Hmove as <-. simpl. split; [exact Hrec|]. split; [exact Hchunks|].
    intros t' st' [Hin|Hin%list_elem_of_singleton]%elem_of_app Hn Hd.
    + now apply (Hquiet t' st').
    + injection Hin as _ ->. now left.
  - destruct (active s1 !! i) as [[t st]|] eqn:Ei; [|discriminate].
    pose proof (advance_db t st (store s1)) as (_ & Hfiles & Hother).
    pose proof (advance_registered t st (store s1)) as Hcheck.
    destruct (advance svc t st (store s1)) as [st' w'].
    injection Hmove as <-. simpl in *.
    destruct (decide ((namespace t, digest t) = (ns, dg))) as [Heq|Hne].
    + injection Heq as Hn Hd.
      destruct Hcheck as [-> Hdb].
      { rewrite Hn, Hd, Hrec. eauto. }
      { apply (Hquiet t st); [|exact Hn|exact Hd].
        apply list_elem_of_lookup. eauto. }
      rewrite Hdb. split; [exact Hrec|]. split; [exact Hchunks|].
      intros t2 st2 Hin Hn' Hd'.
      apply elem_of_insert_inv in Hin as [[= -> ->]|Hin]; [now right|].
      now apply (Hquiet t2 st2).
    + split; [|split].
      * destruct Hfiles as [->|(m1 & _ & _ & _ & ->)]; [exact Hrec|].
        now rewrite lookup_insert_ne by exact Hne.
      * intros idx. rewrite Hother by (simpl; congruence). apply Hchunks.
      * intros t2 st2 Hin Hn' Hd'.
        apply elem_of_insert_inv in Hin as [[= -> ->]|Hin].
        -- exfalso. apply Hne. now rewrite Hn', Hd'.
        -- now apply (Hquiet t2 st2).
Qed.

Lemma moves_app (ms1 ms2 : list Move) (s : Pipelines) :
  moves svc (ms1 ++ ms2) s
  = match moves svc ms1 s with
    | Some s1 => moves svc ms2 s1
    | None => None
    end.
Proof.
  revert s. induction ms1 as [|m ms1 IH]; intros s; simpl; [reflexivity|].
  destruct (move svc m s) as [s1|]; [apply IH|reflexivity].
Qed.

End Interleaving.

(** The race: both pipelines pass the check; the first registers [a.txt],
    then the second registers [b.txt] over it. *)
Example racing_writes_rename :
  Race.goes (Race.both_checked ++ Race.first_registers
             ++ Race.second_registers) = true
  /\ Race.name_of (Race.after Race.both_checked) = None
  /\ Race.name_of (Race.after (Race.both_checked ++ Race.first_registers))
     = Some "a.txt"%string
  /\ Race.name_of (Race.after (Race.both_checked ++ Race.first_registers
                               ++ Race.second_registers))
     = Some "b.txt"%string.
Proof. vm_compute. auto. Qed.

(** ** The pipeline when the services answer *)

Section CalmPipeline.

Import VectorFS VectorFSRest.

Variable svc : Services.

Lemma insert_chunks_keeps (ns dg : string) (cs : list Chunk)
    (es : list Embedding) (w : World) (k : string * string * Z) :
  (forall c, c ∈ cs -> k <> (ns, dg, Index c)) ->
  chunks (db (snd (Indexer.insert_chunks ns dg cs es w))) !! k
  = chunks (db w) !! k.
Proof.
  revert es w. induction cs as [|c cs IH]; intros es w Hk; [reflexivity|].
  destruct es as [|e es]; [reflexivity|].
  simpl. unfold bind, wrap.
  pose proof (InsertChunk_other ns dg (Index c) (Text c) e w k) as H.
  destruct (TiDBClient.InsertChunk ns dg (Index c) (Text c) e w)
    as [[[]|err] w1]; simpl in *.
  - rewrite IH.
    + apply H, Hk. now left.
    + intros c' Hc'. apply Hk. now right.
  - apply H, Hk. now left.
Qed.

Lemma InsertChunk_calm (ns dg : string) (idx : Z) (text : string)
    (e : Embedding) (w : World) :
  faults w = [] -> ns ∈ tables (db w) ->
  exists w1,
    TiDBClient.InsertChunk ns dg idx text e w = (Ok tt, w1)
    /\ faults w1 = [] /\ tables (db w1) = tables (db w)
    /\ chunks (db w1) = <[(ns, dg, idx) := (text, e)]> (chunks (db w)).
Proof.
  intros Hf Hin. unfold TiDBClient.InsertChunk.
  rewrite service_no_fault by exact Hf.
  unfold TiDBClient.with_tables, TiDBClient.on_db. simpl db.
  destruct (decide (ns ∈ tables (db w))) as [_|Hout]; [|contradiction].
  eexists. split; [reflexivity|]. simpl. auto.
Qed.

Lemma insert_chunks_calm (ns dg : string) (cs : list Chunk)
    (es : list Embedding) (w : World) :
  faults w = [] -> ns ∈ tables (db w) -> length es = length cs ->
  NoDup (map Index cs) ->
  exists w1,
    Indexer.insert_chunks ns dg cs es w = (Ok tt, w1)
    /\ forall i c e, cs !! i = Some c -> es !! i = Some e ->
         chunks (db w1) !! (ns, dg, Index c) = Some (Text c, e).
Proof.
  revert es w. induction cs as [|c cs IH]; intros es w Hf Hin Hlen Hnd.
  - exists w. split; [reflexivity|]. intros i c e Hc. inversion Hc.
  - destruct es as [|e es]; [discriminate|].
    simpl in Hlen. injection Hlen as Hlen.
    apply NoDup_cons in Hnd as [Hfresh Hnd].
    destruct (InsertChunk_calm ns dg (Index c) (Text c) e w Hf Hin)
      as (w1 & Hins & Hf1 & Ht1 & Hc1).
    destruct (IH es w1) as (w2 & Hrest & Hall); auto.
    { now rewrite Ht1. }
    exists w2. split.
    + simpl. unfold bind, wrap. now rewrite Hins.
    + intros [|i] c' e' Hc' He'; simpl in Hc', He'.
      * injection Hc' as <-. injection He' as <-.
        assert (w2 = snd (Indexer.insert_chunks ns dg cs es w1)) as ->
          by now rewrite Hrest.
        rewrite insert_chunks_keeps.
        -- rewrite Hc1. apply lookup_insert_eq.
        -- intros c' Hc' [= Heq]. apply Hfresh.
           rewrite Heq. apply list_elem_of_fmap. eauto.
      * now apply (Hall i).
Qed.

(** X22.  When the services answer, the pipeline on a digest that the
    namespace does not hold yet stores everything: it returns without
    error, the object holds the bytes, the document is registered under
    the file name with the length of the content as its size, and every
    chunk the chunker produces is stored under (namespace, digest, chunk
    index) with its text and the embedding of that text (the chunk indices
    being pairwise distinct). *)
Theorem IndexDocument_stores_every_chunk (ns dg fname content : string)
    (w : World) :
  faults w = [] -> ns ∈ tables (db w) ->
  files (db w) !! (ns, dg) = None ->
  let cs := chunk_document svc content (chunker_config svc) in
  NoDup (map Index cs) ->
  let out := Indexer.IndexDocument svc ns dg fname content w in
  fst out = Ok tt
  /\ bucket (snd out) !! S3Client.buildKey svc ns dg
     = Some (list_byte_of_string content)
  /\ (exists m, files (db (snd out)) !! (ns, dg) = Some m
        /\ FileName m = fname /\ FileDigest m = dg
        /\ FileSize m = Z.of_nat (String.length content))
  /\ forall c, c ∈ cs ->
       chunks (db (snd out)) !! (ns, dg, Index c)
       = Some (Text c, embedding_of svc (Text c)).
Proof.
  intros Hf Hin Hnone cs Hnd out.
  assert (exists w1,
            Indexer.PrepareDocument svc ns dg fname content w = (Ok false, w1)
            /\ faults w1 = []) as (w1 & Hprep & Hf1).
  { unfold Indexer.PrepareDocument, bind, wrap, TiDBClient.FileExists.
    rewrite service_no_fault by exact Hf.
    unfold TiDBClient.with_tables at 1, TiDBClient.on_db at 1. simpl db.
    destruct (decide (ns ∈ tables (db w))) as [_|Hout]; [|contradiction].
    rewrite bool_decide_eq_false_2
      by (rewrite Hnone; intros [? ?]; discriminate).
    simpl. unfold S3Client.UploadDocument.
    rewrite service_no_fault by exact Hf. simpl.
    unfold TiDBClient.InsertFileMetadata.
    rewrite service_no_fault by exact Hf.
    unfold TiDBClient.with_tables, TiDBClient.on_db. simpl.
    destruct (decide (ns ∈ tables (db w))) as [_|Hout]; [|contradiction].
    simpl. eexists. split; [reflexivity|exact Hf]. }
  pose proof (PrepareDocument_effect svc ns dg fname content w) as Heff.
  rewrite Hprep in Heff. simpl in Heff.
  destruct Heff
    as (Ht & _ & [(_ & _ & Hne)|[(_ & _ & Herr)|
                  (Hb & _ & _ & _ & m & Hname & Hdg & _ & Hsize & Hfiles)]]);
    [now destruct Hne|discriminate|].
  set (es := map (embedding_of svc) (map Text cs)).
  destruct (insert_chunks_calm ns dg cs es
              (log_event (EmbGenerateBatch (map Text cs)) w1))
    as (w2 & Hins & Hall); auto.
  { simpl. now rewrite Ht. }
  { subst es. now rewrite !length_map. }
  assert (Indexer.IndexDocument svc ns dg fname content w = (Ok tt, w2))
    as Hout.
  { unfold Indexer.IndexDocument, bind. rewrite Hprep.
    unfold Indexer.IndexChunks, bind, wrap,
      EmbeddingClient.GenerateBatchEmbeddings.
    rewrite service_no_fault by exact Hf1. simpl. fold cs. fold es.
    exact Hins. }
  assert (w2 = snd (Indexer.insert_chunks ns dg cs es
                      (log_event (EmbGenerateBatch (map Text cs)) w1)))
    as Hw2 by now rewrite Hins.
  destruct (insert_chunks_frame ns dg cs es
              (log_event (EmbGenerateBatch (map Text cs)) w1))
    as (Hb2 & _ & Hf2).
  rewrite <- Hw2 in Hb2, Hf2. simpl in Hb2, Hf2.
  subst out. rewrite Hout. simpl.
  split; [reflexivity|]. split.
  { rewrite Hb2, Hb. apply lookup_insert_eq. }
  split.
  { exists m. rewrite Hf2, Hfiles, lookup_insert_eq. auto. }
  intros c [i Hi]%list_elem_of_lookup.
  apply (Hall i). { exact Hi. }
  subst es. rewrite !list_lookup_fmap, Hi. reflexivity.
Qed.

End CalmPipeline.

(** ** Deleting a document *)

Section Deletion.

Import VectorFS VectorFSRest.

Variable svc : Services.

(** X23.  [DeleteDocument] deletes in the order chunks, record, object, and
    stops at the first failure.  So when it returns without error the
    chunks, the record and the object of the digest are gone; when the
    record survives (an earlier step failed) the object store is
    untouched, so that a record never points to a deleted object; and
    records and objects of other documents are never affected. *)
Theorem DeleteDocument_effect (ns dg : string) (w : World) :
  let out := DeleteDocument svc ns dg w in
  let key := S3Client.buildKey svc ns dg in
  (fst out = Ok tt ->
     files (db (snd out)) !! (ns, dg) = None
     /\ bucket (snd out) !! key = None
     /\ forall idx, chunks (db (snd out)) !! (ns, dg, idx) = None)
  /\ (is_Some (files (db (snd out)) !! (ns, dg)) ->
        bucket (snd out) = bucket w)
  /\ (forall k, k <> (ns, dg) ->
        files (db (snd out)) !! k = files (db w) !! k)
  /\ (forall k, k <> key -> bucket (snd out) !! k = bucket w !! k)
  /\ tables (db (snd out)) = tables (db w).
Proof.
  intros out key. subst out key.
  unfold DeleteDocument, bind, wrap.
  unfold Clients.DeleteFileChunks.
  destruct (untraced_inv "tidb.DeleteFileChunks"
              (TiDBClient.with_tables ns (fun d =>
                 (Ok tt, {| tables := tables d; files := files d;
                            chunks := filter (fun kv => fst (fst kv) ≠ (ns, dg))
                                             (chunks d) |}))) w)
    as (w1 & Hb1 & Hd1 & _ & _ & [Hs|Hs]); rewrite Hs; clear Hs.
  { simpl. rewrite Hb1, Hd1. repeat split; auto; discriminate. }
  unfold TiDBClient.with_tables, TiDBClient.on_db.
  destruct (decide (ns ∈ tables (db w1))) as [Hin|Hout].
  2:{ simpl. rewrite Hb1, Hd1. repeat split; auto; discriminate. }
  set (w2 := set_db _ w1).
  unfold Clients.DeleteFileMetadata.
  destruct (untraced_inv "tidb.DeleteFileMetadata"
              (TiDBClient.with_tables ns (fun d =>
                 (Ok tt, {| tables := tables d;
                            files := delete (ns, dg) (files d);
                            chunks := chunks d |}))) w2)
    as (w3 & Hb3 & Hd3 & _ & _ & [Hs|Hs]); rewrite Hs; clear Hs.
  { simpl. rewrite Hb3, Hd3. subst w2. simpl. rewrite Hb1, Hd1.
    repeat split; auto; discriminate. }
  unfold TiDBClient.with_tables, TiDBClient.on_db.
  destruct (decide (ns ∈ tables (db w3))) as [Hin3|Hout3].
  2:{ simpl. rewrite Hb3, Hd3. subst w2. simpl. rewrite Hb1, Hd1.
      repeat split; auto; discriminate. }
  set (w4 := set_db _ w3).
  unfold Clients.S3DeleteDocument.
  destruct (untraced_inv "s3.DeleteDocument"
              (fun w => (Ok tt, set_bucket
                                  (delete (S3Client.buildKey svc ns dg)
                                          (bucket w)) w)) w4)
    as (w5 & Hb5 & Hd5 & _ & _ & [Hs|Hs]); rewrite Hs; clear Hs.
  { simpl. rewrite Hb5, Hd5. subst w4 w2. simpl. rewrite Hb3, Hd3. simpl.
    rewrite Hb1, Hd1.
    split; [discriminate|]. split.
    { rewrite lookup_delete_eq. now intros [? ?]. }
    split; [|now split].
    intros k Hk. now rewrite lookup_delete_ne by congruence. }
  simpl. rewrite Hb5, Hd5. subst w4 w2. simpl. rewrite Hb3, Hd3. simpl.
  rewrite Hb1, Hd1.
  split.
  { intros _. split; [apply lookup_delete_eq|].
    split; [apply lookup_delete_eq|].
    intros idx. apply map_lookup_filter_None_2. right.
    intros x _ Hp. now apply Hp. }
  split.
  { rewrite lookup_delete_eq. now intros [? ?]. }
  split.
  { intros k Hk. now rewrite lookup_delete_ne by congruence. }
  split; [|reflexivity].
  intros k Hk. now rewrite lookup_delete_ne by congruence.
Qed.

End Deletion.

(** ** The buffering writer and the configuration *)

Section WriterAndConfig.

Import VectorFS VectorFSRest.

Lemma string_of_list_byte_app (a b : list byte) :
  string_of_list_byte (a ++ b)
  = (string_of_list_byte a +:+ string_of_list_byte b)%string.
Proof.
  unfold string_of_list_byte. rewrite map_app.
  induction (map ascii_of_byte a) as [|x l IH]; [reflexivity|].
  simpl. unfold String.append. fold String.append. now f_equal.
Qed.

Lemma append_empty_r (s : string) : (s +:+ "")%string = s.
Proof.
  induction s as [|x s IH]; [reflexivity|].
  change (String x (s +:+ "") = String x s). now f_equal.
Qed.

Lemma append_assoc (s1 s2 s3 : string) :
  ((s1 +:+ s2) +:+ s3 = s1 +:+ (s2 +:+ s3))%string.
Proof.
  induction s1 as [|x s1 IH]; [reflexivity|].
  change (String x ((s1 +:+ s2) +:+ s3) = String x (s1 +:+ (s2 +:+ s3))).
  now f_equal.
Qed.

Lemma writer_buffer (ps : list (list byte)) (vw : vectorWriter) :
  vw_path (fold_left (fun v c => snd (writer_Write v c)) ps vw) = vw_path vw
  /\ vw_buf (fold_left (fun v c => snd (writer_Write v c)) ps vw)
     = (vw_buf vw +:+ string_of_list_byte (concat ps))%string.
Proof.
  revert vw. induction ps as [|c ps IH]; intros vw.
  - split; [reflexivity|]. simpl concat.
    change (string_of_list_byte []) with EmptyString.
    now rewrite append_empty_r.
  - destruct (IH (snd (writer_Write vw c))) as [Hp Hb].
    split; [exact Hp|]. etransitivity; [exact Hb|].
    simpl concat. rewrite string_of_list_byte_app.
    unfold writer_Write. simpl. apply append_assoc.
Qed.

(** X24.  A writer obtained from [OpenWrite] buffers: opening never fails,
    whatever the path, every [Write] on it reports the full length of its
    argument, and nothing reaches the plugin before [Close]; [Close] is one
    [Write] of the concatenation of everything written, with offset -1 and
    the create flag, and returns that call's error (a path outside [docs/]
    is therefore reported at [Close] only). *)
Theorem writer_Close_is_one_Write (path : string) (ps : list (list byte))
    (p : Plugin) :
  exists vw0,
    OpenWrite path = Ok vw0
    /\ (forall v c, fst (writer_Write v c) = Z.of_nat (length c))
    /\ let vw := fold_left (fun v c => snd (writer_Write v c)) ps vw0 in
       let call := Write path (concat ps) (-1) WriteFlagCreate p in
       snd (writer_Close vw p) = snd call
       /\ fst (writer_Close vw p)
          = match fst call with
            | Returns (Ok _) => Returns (Ok tt)
            | Returns (Err e) => Returns (Err e)
            | Panics => Panics
            end.
Proof.
  eexists. split; [reflexivity|]. split; [reflexivity|].
  intros vw call. subst vw call.
  destruct (writer_buffer ps {| vw_path := path; vw_buf := "" |})
    as [Hp Hb].
  change (vw_buf {| vw_path := path; vw_buf := "" |}
          +:+ string_of_list_byte (concat ps))
    with (string_of_list_byte (concat ps)) in Hb.
  change (vw_path {| vw_path := path; vw_buf := "" |}) with path in Hp.
  unfold writer_Close. rewrite Hp, Hb.
  rewrite list_byte_of_string_of_list_byte.
  now destruct (Write path (concat ps) (-1) WriteFlagCreate p)
    as [[[n|e]|] p'].
Qed.



End WriterAndConfig.

(** ** The further properties on the demonstration plugin *)

Lemma world_ns_is_calm :
  VectorFS.faults Demo.world_ns = []
  /\ VectorFS.files (VectorFS.db Demo.world_ns) = ∅
  /\ "ns"%string ∈ VectorFS.tables (VectorFS.db Demo.world_ns).
Proof.
  split; [reflexivity|]. split; [reflexivity|].
  apply (bool_decide_unpack _). vm_compute. exact I.
Qed.

Lemma indexed_world_is_calm :
  VectorFS.faults Demo.indexed_world = []
  /\ "ns"%string ∈ VectorFS.tables (VectorFS.db Demo.indexed_world).
Proof.
  split; [vm_compute; reflexivity|].
  apply (bool_decide_unpack _). vm_compute. exact I.
Qed.

Lemma run_after_app (acts1 acts2 : list VectorFS.Action) :
  Demo.runs (acts1 ++ acts2) = true ->
  VectorFS.run Demo.svc acts2 (Demo.after acts1)
  = Some (Demo.after (acts1 ++ acts2)).
Proof.
  intros H. pose proof (run_after _ H) as Hrun.
  rewrite run_app in Hrun. unfold Demo.after at 1. fold Demo.plugin in Hrun.
  destruct (VectorFS.run Demo.svc acts1 Demo.plugin) as [p1|];
    [exact Hrun|discriminate].
Qed.

Lemma Stat_below_docs_not_found_witness :
  is_name "ns" = true /\ clean_rel "a.txt" = true
  /\ VectorFS.Stat Demo.svc "/ns/docs/a.txt" Demo.indexed_world
     = (VectorFS.Err VectorFS.ErrNotFound, Demo.indexed_world).
Proof.
  split; [reflexivity|]. split; [reflexivity|].
  exact (Stat_below_docs_not_found Demo.svc "ns" "a.txt" Demo.indexed_world
           eq_refl eq_refl).
Defined.

Lemma ReadDir_namespace_witness :
  let w' := VectorFS.set_clock 1 Demo.empty_world in
  is_name "nowhere" = true
  /\ VectorFSRest.ReadDir Demo.svc "/nowhere" Demo.empty_world
     = (VectorFS.Ok [ VectorFSRest.info "docs" 0 493 0 true "docs";
                      VectorFSRest.info ".indexing" 4 292 0 false "status" ],
        w')
  /\ fst (VectorFS.Stat Demo.svc "/nowhere/docs" w')
     = VectorFS.Ok (VectorFSRest.info "docs" 0 493 1 true "docs")
  /\ fst (VectorFS.Stat Demo.svc "/nowhere/.indexing" w')
     = VectorFS.Ok (VectorFSRest.info ".indexing" 4 292 1 false "status").
Proof.
  intros w'. split; [reflexivity|].
  exact (ReadDir_namespace Demo.svc "nowhere" Demo.empty_world eq_refl).
Defined.

Lemma ReadDir_root_witness :
  VectorFS.faults Demo.world_ns = []
  /\ exists names,
       fst (VectorFSRest.ReadDir Demo.svc "/" Demo.world_ns)
       = VectorFS.Ok
           (VectorFSRest.info "README"
              (Z.of_nat (String.length (VectorFS.readme Demo.svc))) 292
              (VectorFS.clock Demo.world_ns) false "doc"
            :: map (fun n => VectorFSRest.info n 0 493
                               (VectorFS.clock Demo.world_ns) true "namespace")
                   names)
       /\ NoDup names
       /\ (forall n, n ∈ names
                     <-> n ∈ VectorFS.tables (VectorFS.db Demo.world_ns)).
Proof.
  split; [reflexivity|].
  exact (ReadDir_root Demo.svc Demo.world_ns eq_refl).
Defined.

Lemma Mkdir_below_docs_is_virtual_witness :
  is_name "ns" = true /\ clean_rel "reports/2024" = true
  /\ VectorFS.Mkdir Demo.svc "/ns/docs/reports/2024" 493 Demo.world_ns
     = (VectorFS.Ok tt, Demo.world_ns)
  /\ fst (VectorFSRest.ReadDir Demo.svc "/ns/docs/reports/2024" Demo.world_ns)
     = VectorFS.Err (VectorFS.Errorf "not a directory" []).
Proof.
  split; [reflexivity|]. split; [reflexivity|].
  exact (Mkdir_below_docs_is_virtual Demo.svc "ns" "reports/2024" 493
           Demo.world_ns eq_refl eq_refl).
Defined.

Lemma Stat_namespace_masks_failures_witness :
  let failing := VectorFS.set_faults [true] Demo.world_ns in
  (is_name "ns" = true /\ "ns"%string <> "README"%string)
  /\ fst (VectorFS.Stat Demo.svc "/ns" failing)
     = VectorFS.Err VectorFS.ErrNotFound
  /\ fst (VectorFS.Stat Demo.svc "/ns" Demo.world_ns)
     = (if bool_decide ("ns"%string
                        ∈ VectorFS.tables (VectorFS.db Demo.world_ns))
        then VectorFS.Ok (VectorFSRest.info "ns" 0 493
                            (VectorFS.clock Demo.world_ns) true "namespace")
        else VectorFS.Err VectorFS.ErrNotFound)
  /\ "ns"%string ∈ VectorFS.tables (VectorFS.db Demo.world_ns).
Proof.
  intros failing.
  assert ("ns"%string <> "README"%string) as Hne by discriminate.
  split; [split; [reflexivity|exact Hne]|].
  split; [exact (Stat_namespace_masks_failures Demo.svc "ns" failing
                   eq_refl Hne)|].
  split; [exact (Stat_namespace_masks_failures Demo.svc "ns" Demo.world_ns
                   eq_refl Hne)|].
  exact (proj2 (proj2 world_ns_is_calm)).
Defined.

Lemma README_namespace_is_shadowed_witness :
  let w1 := snd (VectorFS.Mkdir Demo.svc "/README" 493 Demo.empty_world) in
  VectorFS.faults Demo.empty_world = []
  /\ fst (VectorFS.Mkdir Demo.svc "/README" 493 Demo.empty_world)
     = VectorFS.Ok tt
  /\ "README"%string ∈ VectorFS.tables (VectorFS.db w1)
  /\ fst (VectorFS.Stat Demo.svc "/README" w1)
     = VectorFS.Ok
         (VectorFSRest.info "README"
            (Z.of_nat (String.length (VectorFS.readme Demo.svc))) 292
            (VectorFS.clock Demo.empty_world) false "doc").
Proof.
  intros w1. split; [reflexivity|].
  exact (README_namespace_is_shadowed Demo.svc 493 Demo.empty_world eq_refl).
Defined.

Lemma namespace_round_trip_witness :
  let w1 := snd (VectorFS.Mkdir Demo.svc "/ns" 493 Demo.empty_world) in
  let w2 := snd (VectorFS.RemoveAll "/ns" w1) in
  (VectorFS.faults Demo.empty_world = [] /\ is_name "ns" = true
   /\ "ns"%string <> "README"%string)
  /\ fst (VectorFS.Mkdir Demo.svc "/ns" 493 Demo.empty_world) = VectorFS.Ok tt
  /\ fst (VectorFS.Stat Demo.svc "/ns" w1)
     = VectorFS.Ok (VectorFSRest.info "ns" 0 493
                      (VectorFS.clock Demo.empty_world) true "namespace")
  /\ fst (VectorFS.RemoveAll "/ns" w1) = VectorFS.Ok tt
  /\ fst (VectorFS.Stat Demo.svc "/ns" w2) = VectorFS.Err VectorFS.ErrNotFound.
Proof.
  intros w1 w2. split; [split; [reflexivity|split; [reflexivity|discriminate]]|].
  exact (namespace_round_trip Demo.svc "ns" 493 Demo.empty_world eq_refl
           eq_refl ltac:(discriminate)).
Defined.

Lemma PrepareDocument_registers_only_on_success_witness :
  let dg := VectorFS.file_digest Demo.payload in
  let out := VectorFS.Indexer.PrepareDocument Demo.svc "ns" dg "b.txt"
               "payload" Demo.indexed_world in
  fst out <> VectorFS.Ok false
  /\ VectorFS.db (snd out) = VectorFS.db Demo.indexed_world
  /\ (fst out = VectorFS.Ok true ->
        VectorFS.bucket (snd out) = VectorFS.bucket Demo.indexed_world).
Proof.
  intros dg out.
  assert (fst out <> VectorFS.Ok false) as H
    by (vm_compute; intros H; discriminate H).
  split; [exact H|].
  destruct (PrepareDocument_registers_only_on_success Demo.svc "ns" dg "b.txt"
              "payload" Demo.indexed_world H) as (Hd & Hb & _).
  split; [exact Hd|exact Hb].
Defined.

Lemma registered_documents_have_objects_witness :
  VectorFS.run Demo.svc Demo.write_twice Demo.plugin
  = Some (Demo.after Demo.write_twice)
  /\ VectorFSRest.records_have_objects Demo.svc (VectorFS.world Demo.plugin)
  /\ VectorFSRest.records_have_objects Demo.svc
       (VectorFS.world (Demo.after Demo.write_twice)).
Proof.
  assert (Demo.runs Demo.write_twice = true) as Hruns
    by (vm_compute; reflexivity).
  assert (VectorFSRest.records_have_objects Demo.svc
            (VectorFS.world Demo.plugin)) as H0.
  { intros ns dg m Hrec. exfalso.
    change (VectorFS.world Demo.plugin) with Demo.world_ns in Hrec.
    rewrite (proj1 (proj2 world_ns_is_calm)), lookup_empty in Hrec.
    discriminate Hrec. }
  split; [exact (run_after _ Hruns)|]. split; [exact H0|].
  exact (registered_documents_have_objects Demo.svc Demo.write_twice
           Demo.plugin (Demo.after Demo.write_twice) (run_after _ Hruns) H0).
Defined.

Lemma Read_after_prepare_witness :
  let dg := VectorFS.file_digest Demo.payload in
  let w1 := snd (VectorFS.Indexer.PrepareDocument Demo.svc "ns" dg "a.txt"
                   "payload" Demo.world_ns) in
  (is_name "ns" = true /\ clean_rel "a.txt" = true
   /\ VectorFS.Indexer.PrepareDocument Demo.svc "ns" dg "a.txt" "payload"
        Demo.world_ns = (VectorFS.Ok false, w1)
   /\ VectorFS.faults w1 = [])
  /\ fst (VectorFS.Read Demo.svc "/ns/docs/a.txt" 2 3 w1)
     = VectorFS.Ok (VectorFS.ApplyRangeRead (list_byte_of_string "payload")
                      2 3).
Proof.
  intros dg w1.
  assert (VectorFS.Indexer.PrepareDocument Demo.svc "ns" dg "a.txt" "payload"
            Demo.world_ns = (VectorFS.Ok false, w1)) as H.
  { subst w1.
    rewrite (surjective_pairing
               (VectorFS.Indexer.PrepareDocument Demo.svc "ns" dg "a.txt"
                  "payload" Demo.world_ns)).
    replace (fst (VectorFS.Indexer.PrepareDocument Demo.svc "ns" dg "a.txt"
                    "payload" Demo.world_ns))
      with (VectorFS.Ok false) by (vm_compute; reflexivity).
    reflexivity. }
  assert (VectorFS.faults w1 = []) as Hf by (vm_compute; reflexivity).
  split; [repeat split; assumption|].
  apply (Read_after_prepare Demo.svc "ns" dg "a.txt" "payload" 2 3
           Demo.world_ns w1 eq_refl eq_refl H); [|exact Hf].
  intros dg' m' Hrec.
  rewrite (proj1 (proj2 world_ns_is_calm)), lookup_empty in Hrec.
  discriminate Hrec.
Defined.

Lemma ReadDir_docs_witness :
  (VectorFS.faults Demo.indexed_world = [] /\ is_name "ns" = true
   /\ "ns"%string ∈ VectorFS.tables (VectorFS.db Demo.indexed_world))
  /\ exists rows : list (string * VectorFS.FileMetadata),
       fst (VectorFSRest.ReadDir Demo.svc "/ns/docs" Demo.indexed_world)
       = VectorFS.Ok
           (map (fun r => VectorFSRest.info (VectorFS.FileName (snd r))
                            (VectorFS.FileSize (snd r)) 420
                            (VectorFS.UpdatedAt (snd r)) false "document")
                rows)
       /\ NoDup (map fst rows)
       /\ (forall dg m,
             (dg, m) ∈ rows
             <-> VectorFS.files (VectorFS.db Demo.indexed_world)
                   !! ("ns"%string, dg) = Some m).
Proof.
  destruct indexed_world_is_calm as [Hf Hin].
  split; [split; [exact Hf|split; [reflexivity|exact Hin]]|].
  exact (ReadDir_docs Demo.svc "ns" Demo.indexed_world Hf eq_refl Hin).
Defined.

Lemma accepted_tasks_are_accounted_witness :
  let p := Demo.after Demo.shutdown_with_backlog in
  VectorFS.run Demo.svc Demo.shutdown_with_backlog
    (VectorFS.Initialize 4 (VectorFS.NewVectorFSPlugin Demo.world_ns)) = Some p
  /\ exists k,
       VectorFS.executed p ++ VectorFS.busy_tasks (VectorFS.workers p)
         ++ VectorFS.queued p
       ≡ₚ VectorFS.enqueued p ++ repeat VectorFS.zero_task k
       /\ (forall q, VectorFS.indexQueue p = Some q ->
             VectorFS.closed q = false -> k = 0%nat).
Proof.
  intros p.
  assert (Demo.runs Demo.shutdown_with_backlog = true) as Hruns
    by (vm_compute; reflexivity).
  split; [exact (run_after _ Hruns)|].
  exact (accepted_tasks_are_accounted Demo.svc 4 Demo.world_ns
           Demo.shutdown_with_backlog p (run_after _ Hruns)).
Defined.

Lemma queue_never_exceeds_capacity_witness :
  let acts := Demo.fill_queue ++ [Demo.doc "y"; Demo.doc "z"] in
  VectorFS.run Demo.svc acts
    (VectorFS.Initialize 4 (VectorFS.NewVectorFSPlugin Demo.world_ns))
  = Some (Demo.after acts)
  /\ (length (VectorFS.queued (Demo.after acts)) <= 100)%nat.
Proof.
  intros acts.
  assert (Demo.runs acts = true) as Hruns by (vm_compute; reflexivity).
  split; [exact (run_after _ Hruns)|].
  exact (queue_never_exceeds_capacity Demo.svc 4 Demo.world_ns acts
           (Demo.after acts) (run_after _ Hruns)).
Defined.

Lemma indexed_tasks_are_content_addressed_witness :
  let p := Demo.after Demo.write_twice in
  let t := VectorFS.mkTask "ns" "b.txt" Demo.payload in
  (VectorFS.run Demo.svc Demo.write_twice
     (VectorFS.Initialize 4 (VectorFS.NewVectorFSPlugin Demo.world_ns)) = Some p
   /\ t ∈ VectorFS.executed p ++ VectorFS.busy_tasks (VectorFS.workers p))
  /\ (t = VectorFS.zero_task
      \/ VectorFS.digest t
         = Hex.EncodeToString
             (Sha256.Sum256 (list_byte_of_string (VectorFS.data t)))).
Proof.
  intros p t.
  assert (Demo.runs Demo.write_twice = true) as Hruns
    by (vm_compute; reflexivity).
  assert (t ∈ VectorFS.executed p ++ VectorFS.busy_tasks (VectorFS.workers p))
    as Ht.
  { assert (VectorFS.executed p
            = [VectorFS.mkTask "ns" "a.txt" Demo.payload; t]) as ->
      by (vm_compute; reflexivity).
    apply elem_of_app. left. apply elem_of_cons. right.
    apply elem_of_cons. now left. }
  split; [split; [exact (run_after _ Hruns)|exact Ht]|].
  exact (indexed_tasks_are_content_addressed Demo.svc 4 Demo.world_ns
           Demo.write_twice p t (run_after _ Hruns) Ht).
Defined.

Lemma nothing_is_accepted_after_close_witness :
  let before := Demo.fill_queue
                ++ [ Demo.doc "y"; VectorFS.ShutdownCloseSignal;
                     VectorFS.ShutdownCloseQueue ] in
  let acts := [ VectorFS.WorkerReceive 0; VectorFS.WorkerIndex 0;
                VectorFS.HelperSend 0 ] in
  let p := Demo.after before in
  let p' := Demo.after (before ++ acts) in
  let q := {| VectorFS.buf := VectorFS.queued p; VectorFS.cap := 100;
              VectorFS.closed := true |} in
  (VectorFS.indexQueue p = Some q /\ VectorFS.closed q = true
   /\ VectorFS.run Demo.svc acts p = Some p')
  /\ VectorFS.enqueued p' = VectorFS.enqueued p
  /\ VectorFS.helpers p' = VectorFS.helpers p
  /\ (forall j t, VectorFS.helpers p' !! j = Some t ->
        VectorFS.panicked p' = false ->
        VectorFS.exec Demo.svc (VectorFS.HelperSend j) p'
        = Some (VectorFS.set_panicked p')).
Proof.
  intros before acts p p' q.
  assert (VectorFS.indexQueue p = Some q) as Hq by (vm_compute; reflexivity).
  assert (VectorFS.run Demo.svc acts p = Some p') as Hrun
    by (apply run_after_app; vm_compute; reflexivity).
  split; [split; [exact Hq|split; [reflexivity|exact Hrun]]|].
  exact (nothing_is_accepted_after_close Demo.svc acts p p' q Hq eq_refl
           Hrun).
Defined.

Lemma Shutdown_can_return_witness :
  let acts := [ Demo.doc "1"; Demo.doc "2"; Demo.doc "3";
                VectorFS.WorkerReceive 0; VectorFS.WorkerReceive 2 ] in
  let p := Demo.after acts in
  (VectorFS.run Demo.svc acts
     (VectorFS.Initialize 4 (VectorFS.NewVectorFSPlugin Demo.world_ns)) = Some p
   /\ VectorFS.coordinator p = VectorFS.NotCalled)
  /\ exists p',
       VectorFS.run Demo.svc
         (VectorFSRest.shutdown_schedule (VectorFS.workers p)) p = Some p'
       /\ VectorFS.coordinator p' = VectorFS.Returned
       /\ VectorFS.panicked p' = false
       /\ VectorFS.executed p'
          = VectorFS.executed p ++ VectorFS.busy_tasks (VectorFS.workers p)
       /\ VectorFS.queued p' = VectorFS.queued p
       /\ VectorFS.enqueued p' = VectorFS.enqueued p
       /\ VectorFS.helpers p' = VectorFS.helpers p.
Proof.
  intros acts p.
  assert (Demo.runs acts = true) as Hruns by (vm_compute; reflexivity).
  assert (VectorFS.coordinator p = VectorFS.NotCalled) as Hc
    by (vm_compute; reflexivity).
  split; [split; [exact (run_after _ Hruns)|exact Hc]|].
  exact (Shutdown_can_return Demo.svc 4 Demo.world_ns acts p
           (run_after _ Hruns) Hc).
Defined.

Lemma IndexDocument_stores_every_chunk_witness :
  let dg := VectorFS.file_digest Demo.payload in
  let cs := VectorFS.chunk_document Demo.svc "payload"
              (VectorFS.chunker_config Demo.svc) in
  let out := VectorFS.Indexer.IndexDocument Demo.svc "ns" dg "a.txt" "payload"
               Demo.world_ns in
  (VectorFS.faults Demo.world_ns = []
   /\ "ns"%string ∈ VectorFS.tables (VectorFS.db Demo.world_ns)
   /\ VectorFS.files (VectorFS.db Demo.world_ns) !! ("ns"%string, dg) = None
   /\ NoDup (map VectorFS.Index cs))
  /\ fst out = VectorFS.Ok tt
  /\ VectorFS.bucket (snd out) !! VectorFS.S3Client.buildKey Demo.svc "ns" dg
     = Some (list_byte_of_string "payload")
  /\ (exists m,
        VectorFS.files (VectorFS.db (snd out)) !! ("ns"%string, dg) = Some m
        /\ VectorFS.FileName m = "a.txt"%string /\ VectorFS.FileDigest m = dg
        /\ VectorFS.FileSize m = 7)
  /\ forall c, c ∈ cs ->
       VectorFS.chunks (VectorFS.db (snd out)) !! ("ns"%string, dg, VectorFS.Index c)
       = Some (VectorFS.Text c, VectorFS.embedding_of Demo.svc (VectorFS.Text c)).
Proof.
  intros dg cs out.
  destruct world_ns_is_calm as (Hf & Hfiles & Hin).
  assert (VectorFS.files (VectorFS.db Demo.world_ns) !! ("ns"%string, dg)
          = None) as Hnone by (rewrite Hfiles; apply lookup_empty).
  assert (NoDup (map VectorFS.Index cs)) as Hnd by apply NoDup_singleton.
  split; [repeat split; assumption|].
  exact (IndexDocument_stores_every_chunk Demo.svc "ns" dg "a.txt" "payload"
           Demo.world_ns Hf Hin Hnone Hnd).
Defined.


Lemma race_after_app (ms1 ms2 : list VectorFSRest.Move) :
  Race.goes (ms1 ++ ms2) = true ->
  VectorFSRest.moves Demo.svc ms2 (Race.after ms1)
  = Some (Race.after (ms1 ++ ms2)).
Proof.
  unfold Race.goes, Race.after. rewrite moves_app.
  destruct (VectorFSRest.moves Demo.svc ms1 Race.start) as [s1|];
    [|discriminate].
  now destruct (VectorFSRest.moves Demo.svc ms2 s1).
Qed.

Lemma registered_documents_stay_registered_witness :
  let s := Race.after (Race.both_checked ++ Race.first_registers) in
  let s' := Race.after ((Race.both_checked ++ Race.first_registers)
                        ++ Race.second_registers) in
  let dg := VectorFS.file_digest Demo.payload in
  VectorFSRest.moves Demo.svc Race.second_registers s = Some s'
  /\ exists m,
       VectorFS.files (VectorFS.db (VectorFSRest.store s)) !! ("ns"%string, dg)
       = Some m
       /\ exists m',
            VectorFS.files (VectorFS.db (VectorFSRest.store s'))
              !! ("ns"%string, dg) = Some m'
            /\ (m' = m
                \/ (VectorFS.FileDigest m' = dg
                    /\ VectorFS.S3Key m'
                       = VectorFS.S3Client.buildKey Demo.svc "ns" dg)).
Proof.
  intros s s' dg.
  assert (VectorFSRest.moves Demo.svc Race.second_registers s = Some s')
    as Hmoves by (apply race_after_app; vm_compute; reflexivity).
  split; [exact Hmoves|].
  destruct (VectorFS.files (VectorFS.db (VectorFSRest.store s))
              !! ("ns"%string, dg)) as [m|] eqn:E.
  - exists m. split; [reflexivity|].
    exact (registered_documents_stay_registered Demo.svc
             Race.second_registers s s' "ns" dg m Hmoves E).
  - exfalso. vm_compute in E. discriminate E.
Defined.

Lemma settled_documents_are_frozen_witness :
  let s := Race.after Race.first_alone in
  let s' := Race.after (Race.first_alone ++ Race.second_later) in
  let dg := VectorFS.file_digest Demo.payload in
  (VectorFSRest.moves Demo.svc Race.second_later s = Some s'
   /\ VectorFSRest.quiet "ns" dg s)
  /\ exists m,
       VectorFS.files (VectorFS.db (VectorFSRest.store s)) !! ("ns"%string, dg)
       = Some m
       /\ VectorFS.files (VectorFS.db (VectorFSRest.store s'))
            !! ("ns"%string, dg) = Some m
       /\ (forall idx,
             VectorFS.chunks (VectorFS.db (VectorFSRest.store s'))
               !! ("ns"%string, dg, idx)
             = VectorFS.chunks (VectorFS.db (VectorFSRest.store s))
                 !! ("ns"%string, dg, idx))
       /\ VectorFSRest.quiet "ns" dg s'.
Proof.
  intros s s' dg.
  assert (VectorFSRest.moves Demo.svc Race.second_later s = Some s')
    as Hmoves by (apply race_after_app; vm_compute; reflexivity).
  assert (VectorFSRest.quiet "ns" dg s) as Hquiet.
  { intros t st Hin _ _.
    assert (VectorFSRest.active s = [(Race.first, VectorFSRest.Finished)])
      as Hactive by (vm_compute; reflexivity).
    rewrite Hactive in Hin. apply list_elem_of_singleton in Hin.
    injection Hin as _ ->. now right. }
  split; [split; [exact Hmoves|exact Hquiet]|].
  destruct (VectorFS.files (VectorFS.db (VectorFSRest.store s))
              !! ("ns"%string, dg)) as [m|] eqn:E.
  - exists m. split; [reflexivity|].
    exact (settled_documents_are_frozen Demo.svc Race.second_later s s'
             "ns" dg m Hmoves E Hquiet).
  - exfalso. vm_compute in E. discriminate E.
Defined.
